(** * FourierBSDFTable::Read (src/materials/fourier.cpp)

    A shallow embedding of the loader of tabulated Fourier BSDF files and
    of the part of FourierMaterial that consumes the loaded table.

    Conventions of the embedding.
    - A byte of the file is a [Byte.byte]; the file is a [list byte].
    - A 32-bit object in memory is kept as its bit pattern, a [Z] in
      [0, 2^32); an [int] is read off the pattern with [sint32], a [float]
      _is_ its pattern (IEEE binary32).
    - A memory cell is an [option]: [None] is an indeterminate value (a
      fresh [new T[n]] element, an uninitialised member, a partially read
      element).  Copying an indeterminate value propagates it; branching
      on it or indexing with it is undefined behaviour.
    - Signed [int] overflow and out-of-bounds indexing are undefined
      behaviour; [new T[n]] with a negative [n] throws
      [std::bad_array_new_length]; memory is otherwise unbounded. *)

From Stdlib Require Import String Ascii.
From Stdlib Require Import Strings.Byte.
From Stdlib Require Import ZArith List Bool Lia.
Import ListNotations.
Open Scope Z_scope.

(* ================================================================== *)
(** ** Bytes, words and byte order *)

Module Endian.

Definition byte_val (b : byte) : Z := Z.of_N (Byte.to_N b).

Definition byte_of (x : Z) : byte :=
  match Byte.of_N (Z.to_N (x mod 256)) with
  | Some b => b
  | None => x00
  end.

(** Value of a byte string read least significant byte first. *)
Fixpoint le_decode (bs : list byte) : Z :=
  match bs with
  | [] => 0
  | b :: r => byte_val b + 256 * le_decode r
  end.

(** The [n] low bytes of [x], least significant first. *)
Fixpoint le_encode (n : nat) (x : Z) : list byte :=
  match n with
  | O => []
  | S k => byte_of x :: le_encode k (x / 256)
  end.

(** Object representation of a 32-bit value on the host, and back.
    [big] is the host's byte order. *)
Definition native_encode (big : bool) (x : Z) : list byte :=
  if big then rev (le_encode 4 x) else le_encode 4 x.

Definition native_decode (big : bool) (bs : list byte) : Z :=
  le_decode (if big then rev bs else bs).

(** fourier.cpp:90-95.  [memcpy] of the int 0x01020304 into [char c[4]],
    then [c[0] == 1]. *)
Definition IsBigEndian (big : bool) : bool :=
  match native_encode big 0x01020304 with
  | c0 :: _ => byte_val c0 =? 1
  | [] => false
  end.

(** [__builtin_bswap32] / [_byteswap_ulong]: the four bytes of the
    pattern in reverse order. *)
Definition bswap32 (x : Z) : Z := le_decode (rev (le_encode 4 x)).

(** An [int] seen through its 32-bit pattern. *)
Definition sint32 (x : Z) : Z :=
  let u := x mod 2^32 in if u <? 2^31 then u else u - 2^32.

End Endian.
Export Endian.

(* ================================================================== *)
(** ** IEEE 754 binary formats, by bit pattern

    Only what the loader computes with: the conversion of an [int] to
    [Float], the division [1 / (Float)i], and the widening of a stored
    [float] to [Float].  Round to nearest, ties to even. *)

Module IEEE.

Record format := { prec : Z; ewidth : Z }.

Definition binary32 := {| prec := 24; ewidth := 8 |}.
Definition binary64 := {| prec := 53; ewidth := 11 |}.

Inductive value :=
| NaN (s : bool) (payload : Z)
| Inf (s : bool)
| Fin (s : bool) (m e : Z).          (* (-1)^s * m * 2^e *)

Section Format.
Variable f : format.

Definition mbits := prec f - 1.
Definition emax := 2 ^ (ewidth f - 1) - 1.
Definition emin := 1 - emax.
Definition inf_bits := (2 ^ ewidth f - 1) * 2 ^ mbits.
Definition sign_bit := 2 ^ (ewidth f + mbits).
Definition quiet_bit := 2 ^ (mbits - 1).
Definition sizeof := (ewidth f + prec f) / 8.

Definition decode (x : Z) : value :=
  let s := Z.testbit x (ewidth f + mbits) in
  let ex := (x / 2 ^ mbits) mod 2 ^ ewidth f in
  let ma := x mod 2 ^ mbits in
  if ex =? 2 ^ ewidth f - 1 then (if ma =? 0 then Inf s else NaN s ma)
  else if ex =? 0 then Fin s ma (emin - mbits)
  else Fin s (2 ^ mbits + ma) (ex - emax - mbits).

Definition with_sign (s : bool) (mag : Z) : Z :=
  if s then sign_bit + mag else mag.

(** Nearest integer to [n / d], ties to even ([0 <= n], [0 < d]). *)
Definition rne (n d : Z) : Z :=
  let q := n / d in
  let r := n mod d in
  if 2 * r <? d then q
  else if d <? 2 * r then q + 1
  else if Z.even q then q else q + 1.

(** Pattern (without sign) of the rational [n / d] rounded to the format. *)
Definition round_mag (n d : Z) : Z :=
  if n =? 0 then 0 else
  let e0 := Z.log2 n - Z.log2 d in
  let e := if n * 2 ^ Z.max 0 (- e0) <? d * 2 ^ Z.max 0 e0 then e0 - 1 else e0 in
  let e' := Z.max e emin in
  let sh := mbits - e' in
  let m := rne (n * 2 ^ Z.max 0 sh) (d * 2 ^ Z.max 0 (- sh)) in
  let bits := (e' - emin) * 2 ^ mbits + m in
  if inf_bits <=? bits then inf_bits else bits.

(** [(Float)i] for an [int] [i]. *)
Definition of_int (i : Z) : Z :=
  if i <? 0 then with_sign true (round_mag (- i) 1) else round_mag i 1.

(** The NaN produced by an invalid operation; its sign and payload are
    the platform's, the loader never produces one. *)
Definition default_nan := inf_bits + quiet_bit.

(** [x / y]. *)
Definition div (x y : Z) : Z :=
  match decode x, decode y with
  | NaN _ _, _ | _, NaN _ _ => default_nan
  | Inf _, Inf _ => default_nan
  | Inf s1, Fin s2 _ _ => with_sign (xorb s1 s2) inf_bits
  | Fin s1 _ _, Inf s2 => with_sign (xorb s1 s2) 0
  | Fin s1 m1 e1, Fin s2 m2 e2 =>
      if m2 =? 0 then
        (if m1 =? 0 then default_nan else with_sign (xorb s1 s2) inf_bits)
      else
        with_sign (xorb s1 s2)
          (round_mag (m1 * 2 ^ Z.max 0 (e1 - e2)) (m2 * 2 ^ Z.max 0 (e2 - e1)))
  end.

End Format.

(** Conversion of a stored binary32 value to the format [f] (exact when
    [f] is at least as wide).  A NaN stays a NaN: its sign is kept, its
    payload moves to the top of the wider mantissa and its quiet bit is
    set (as the conversion instructions of x86 and ARM do). *)
Definition of_binary32 (f : format) (x : Z) : Z :=
  match decode binary32 x with
  | NaN s p =>
      with_sign f s
        (inf_bits f + Z.lor (quiet_bit f) (p * 2 ^ (mbits f - mbits binary32)))
  | Inf s => with_sign f s (inf_bits f)
  | Fin s m e =>
      with_sign f s (round_mag f (m * 2 ^ Z.max 0 e) (2 ^ Z.max 0 (- e)))
  end.

End IEEE.

(* ================================================================== *)
(** ** Memory, build configuration and the table *)

(** A memory cell; [None] is an indeterminate value. *)
Definition cell := option Z.
Definition array := list cell.

(** A pointer to the first element of a [new]-allocated array, or
    [nullptr]. *)
Definition ptr := option array.
Definition nullptr : ptr := None.

(** [Float] is a typedef of pbrt.h ([float], or [double] when the build
    defines PBRT_FLOAT_AS_DOUBLE); the byte order is the host's. *)
Inductive real_type := Single | Double.

Definition Float_format (r : real_type) : IEEE.format :=
  match r with Single => IEEE.binary32 | Double => IEEE.binary64 end.

Record Config := { big_endian : bool; Float : real_type }.

(** The members of [struct FourierBSDFTable] that fourier.cpp touches.
    [int] members hold the integer, [Float] members and elements the bit
    pattern. *)
Record FourierBSDFTable := {
  eta : cell;
  mMax : cell;
  nChannels : cell;
  nMu : cell;
  mu : ptr;
  m : ptr;
  aOffset : ptr;
  a : ptr;
  a0 : ptr;
  cdf : ptr;
  recip : ptr
}.

Definition set_eta v t := {| eta := v; mMax := mMax t; nChannels := nChannels t; nMu := nMu t; mu := mu t; m := m t; aOffset := aOffset t; a := a t; a0 := a0 t; cdf := cdf t; recip := recip t |}.
Definition set_mMax v t := {| eta := eta t; mMax := v; nChannels := nChannels t; nMu := nMu t; mu := mu t; m := m t; aOffset := aOffset t; a := a t; a0 := a0 t; cdf := cdf t; recip := recip t |}.
Definition set_nChannels v t := {| eta := eta t; mMax := mMax t; nChannels := v; nMu := nMu t; mu := mu t; m := m t; aOffset := aOffset t; a := a t; a0 := a0 t; cdf := cdf t; recip := recip t |}.
Definition set_nMu v t := {| eta := eta t; mMax := mMax t; nChannels := nChannels t; nMu := v; mu := mu t; m := m t; aOffset := aOffset t; a := a t; a0 := a0 t; cdf := cdf t; recip := recip t |}.
Definition set_mu v t := {| eta := eta t; mMax := mMax t; nChannels := nChannels t; nMu := nMu t; mu := v; m := m t; aOffset := aOffset t; a := a t; a0 := a0 t; cdf := cdf t; recip := recip t |}.
Definition set_m v t := {| eta := eta t; mMax := mMax t; nChannels := nChannels t; nMu := nMu t; mu := mu t; m := v; aOffset := aOffset t; a := a t; a0 := a0 t; cdf := cdf t; recip := recip t |}.
Definition set_aOffset v t := {| eta := eta t; mMax := mMax t; nChannels := nChannels t; nMu := nMu t; mu := mu t; m := m t; aOffset := v; a := a t; a0 := a0 t; cdf := cdf t; recip := recip t |}.
Definition set_a v t := {| eta := eta t; mMax := mMax t; nChannels := nChannels t; nMu := nMu t; mu := mu t; m := m t; aOffset := aOffset t; a := v; a0 := a0 t; cdf := cdf t; recip := recip t |}.
Definition set_a0 v t := {| eta := eta t; mMax := mMax t; nChannels := nChannels t; nMu := nMu t; mu := mu t; m := m t; aOffset := aOffset t; a := a t; a0 := v; cdf := cdf t; recip := recip t |}.
Definition set_cdf v t := {| eta := eta t; mMax := mMax t; nChannels := nChannels t; nMu := nMu t; mu := mu t; m := m t; aOffset := aOffset t; a := a t; a0 := a0 t; cdf := v; recip := recip t |}.
Definition set_recip v t := {| eta := eta t; mMax := mMax t; nChannels := nChannels t; nMu := nMu t; mu := mu t; m := m t; aOffset := aOffset t; a := a t; a0 := a0 t; cdf := cdf t; recip := v |}.

(** Element [i] of the array behind [p]: [None] when [p] is null, [i] is
    out of bounds or the element is indeterminate. *)
Definition elem (p : ptr) (i : Z) : cell :=
  match p with
  | Some arr => if (0 <=? i) && (i <? Z.of_nat (length arr)) then nth (Z.to_nat i) arr None else None
  | None => None
  end.

(** Number of elements of the array behind [p]. *)
Definition extent (p : ptr) : option Z :=
  match p with Some arr => Some (Z.of_nat (length arr)) | None => None end.

(* ================================================================== *)
(** ** The world of the loader and its control monad *)

Inductive exn := bad_array_new_length.

Record world := {
  f : option (list byte);      (* the stream [f]: its unread bytes; [None] when no stream is open *)
  table : FourierBSDFTable;    (* [*bsdfTable] *)
  errors : list string         (* the messages given to [Error], oldest first *)
}.

Definition with_f v w := {| f := v; table := table w; errors := errors w |}.
Definition with_table v w := {| f := f w; table := v; errors := errors w |}.
Definition with_errors v w := {| f := f w; table := table w; errors := v |}.

Inductive result (A : Type) :=
| Normal (x : A) (w : world)
| GotoFail (w : world)                 (* [goto fail] *)
| Throw (e : exn) (w : world)          (* a C++ exception leaves the function *)
| Undefined.                           (* undefined behaviour *)
Arguments Normal {A}.
Arguments GotoFail {A}.
Arguments Throw {A}.
Arguments Undefined {A}.

Definition M (A : Type) := world -> result A.

Definition ret {A} (x : A) : M A := fun w => Normal x w.

Definition bind {A B} (c : M A) (k : A -> M B) : M B :=
  fun w =>
    match c w with
    | Normal x w' => k x w'
    | GotoFail w' => GotoFail w'
    | Throw e w' => Throw e w'
    | Undefined => Undefined
    end.

Notation "x <- c ;; k" := (bind c (fun x => k))
  (at level 61, c at next level, right associativity).
Notation "c ;;; k" := (bind c (fun _ => k))
  (at level 61, right associativity).

Definition goto_fail {A} : M A := fun w => GotoFail w.
Definition throw {A} (e : exn) : M A := fun w => Throw e w.
Definition undefined {A} : M A := fun _ => Undefined.

Definition get_table : M FourierBSDFTable := fun w => Normal (table w) w.
Definition modify_table (g : FourierBSDFTable -> FourierBSDFTable) : M unit :=
  fun w => Normal tt (with_table (g (table w)) w).

(** Use of a value in arithmetic, a branch or an index. *)
Definition value_of (c : cell) : M Z :=
  match c with Some v => ret v | None => undefined end.

Definition deref (p : ptr) : M array :=
  match p with Some arr => ret arr | None => undefined end.

Definition in_bounds (arr : array) (i : Z) : bool :=
  (0 <=? i) && (i <? Z.of_nat (length arr)).

(** [arr[i]] as an rvalue that is only copied. *)
Definition load (arr : array) (i : Z) : M cell :=
  if in_bounds arr i then ret (nth (Z.to_nat i) arr None) else undefined.

Fixpoint update (arr : array) (i : nat) (c : cell) : array :=
  match arr, i with
  | [], _ => []
  | _ :: r, O => c :: r
  | x :: r, S k => x :: update r k c
  end.

(** [arr[i] = c]. *)
Definition store (arr : array) (i : Z) (c : cell) : M array :=
  if in_bounds arr i then ret (update arr (Z.to_nat i) c) else undefined.

(** [int] arithmetic. *)
Definition INT_MIN := - 2 ^ 31.
Definition INT_MAX := 2 ^ 31 - 1.

Definition int_mul (x y : Z) : M Z :=
  if (INT_MIN <=? x * y) && (x * y <=? INT_MAX) then ret (x * y) else undefined.

(** Conversion of an [int] to [size_t] (64 bits). *)
Definition to_size_t (n : Z) : nat := Z.to_nat (n mod 2 ^ 64).

(** [new T[n]] for an [int] [n]: elements are indeterminate. *)
Definition new_array (n : Z) : M array :=
  if n <? 0 then throw bad_array_new_length
  else ret (repeat None (Z.to_nat n)).

(* ================================================================== *)
(** ** stdio and the error channel *)

(** [fread(target, size, count, f)] on the unread bytes [s]: the complete
    elements delivered (at most [count]), whether a partial element
    followed them, and the bytes left unread. *)
Fixpoint take_elems (size count : nat) (s : list byte)
  : list (list byte) * bool * list byte :=
  match count with
  | O => ([], false, s)
  | S c =>
      if (length s <? size)%nat then ([], negb (length s =? 0)%nat, [])
      else
        let '(es, p, r) := take_elems size c (skipn size s) in
        (firstn size s :: es, p, r)
  end.

Definition fread (size count : nat) : M (list (list byte) * bool) :=
  fun w =>
    match f w with
    | Some s =>
        let '(es, p, r) := take_elems size count s in
        Normal (es, p) (with_f (Some r) w)
    | None => Undefined
    end.

Definition fclose (w : world) : world := with_f None w.

(** [std::string::c_str] as a C string: the characters before the first
    NUL. *)
Fixpoint c_str (s : string) : string :=
  match s with
  | EmptyString => EmptyString
  | String c r => if Ascii.eqb c "000"%char then EmptyString else String c (c_str r)
  end.

(** printf-style expansion of the first [%s] of [fmt]. *)
Fixpoint format_s (fmt arg : string) : string :=
  match fmt with
  | String "%" (String "s" r) => (arg ++ r)%string
  | String c r => String c (format_s r arg)
  | EmptyString => EmptyString
  end.

Definition dquote : string := String "034"%char EmptyString.

(** [Error(fmt, arg)] (error.h): the formatted message is reported. *)
Definition Error (fmt arg : string) (w : world) : world :=
  with_errors (errors w ++ [format_s fmt arg]) w.

Definition open_failed_fmt : string :=
  ("Unable to open tabulated BSDF file " ++ dquote ++ "%s" ++ dquote)%string.

Definition incompatible_fmt : string :=
  ("Tabulated BSDF file " ++ dquote ++ "%s" ++ dquote
   ++ " has an incompatible file format or version.")%string.

(* ================================================================== *)
(** ** The two reading lambdas of [Read] *)

(** The cells of [old] after [new] was written over its beginning. *)
Definition overwrite (new old : list cell) : list cell :=
  new ++ skipn (length new) old.

(** fourier.cpp:109-122.  The result is the return value and the cells
    written through [target], seen as [int32_t]. *)
Definition read32 (cfg : Config) (count : nat) : M (bool * list cell) :=
  r <- fread 4 count ;;
  let '(es, partial) := r in
  let tmp := map (fun e => Some (sint32 (native_decode (big_endian cfg) e))) es
             ++ (if partial then [None] else []) in
  if negb (length es =? count)%nat then ret (false, tmp)
  else if IsBigEndian (big_endian cfg)
       then ret (true, map (option_map (fun x => sint32 (bswap32 (x mod 2 ^ 32)))) tmp)
       else ret (true, tmp).

(** The bit pattern of the [float] stored where an [int32_t] is seen. *)
Definition float_bits (x : Z) : Z := x mod 2 ^ 32.

(** fourier.cpp:123-130.  The result is the return value and the cells
    written through [target], as [Float] patterns. *)
Definition readfloat (cfg : Config) (count : nat) : M (bool * list cell) :=
  match Float cfg with
  | Single =>
      (* the branch sizeof target[0] == sizeof(float) *)
      r <- read32 cfg count ;;
      ret (fst r, map (option_map float_bits) (snd r))
  | Double =>
      let buf := repeat None count in
      r <- read32 cfg count ;;
      let buf := overwrite (snd r) buf in
      ret (fst r,
           map (option_map (fun x => IEEE.of_binary32 IEEE.binary64 (float_bits x)))
               (firstn count buf))
  end.

(** [read32(&x, 1)] for a local [int x], inside the [||] chain that ends
    in [goto fail]. *)
Definition read32_local (cfg : Config) : M Z :=
  r <- read32 cfg 1 ;;
  if fst r then value_of (hd None (snd r)) else goto_fail.

(** [rd(&bsdfTable->x, 1)] inside that chain. *)
Definition read_member (rd : nat -> M (bool * list cell))
    (get : FourierBSDFTable -> cell)
    (set : cell -> FourierBSDFTable -> FourierBSDFTable) : M unit :=
  r <- rd 1%nat ;;
  modify_table (fun t => set (hd (get t) (snd r)) t) ;;;
  if fst r then ret tt else goto_fail.

(** [read32(unused, n)]. *)
Definition read32_unused (cfg : Config) (n : nat) : M unit :=
  r <- read32 cfg n ;;
  if fst r then ret tt else goto_fail.

(** [rd(bsdfTable->x, count)] for an array member, inside the chain. *)
Definition read_array (rd : nat -> M (bool * list cell))
    (get : FourierBSDFTable -> ptr)
    (set : ptr -> FourierBSDFTable -> FourierBSDFTable) (count : Z) : M unit :=
  t <- get_table ;;
  arr <- deref (get t) ;;
  r <- rd (to_size_t count) ;;
  modify_table (set (Some (overwrite (snd r) arr))) ;;;
  if fst r then ret tt else goto_fail.

(** [bsdfTable->x[i] = c]. *)
Definition store_member (get : FourierBSDFTable -> ptr)
    (set : ptr -> FourierBSDFTable -> FourierBSDFTable) (i : Z) (c : cell) : M unit :=
  t <- get_table ;;
  arr <- deref (get t) ;;
  arr' <- store arr i c ;;
  modify_table (set (Some arr')).

(** [bsdfTable->x = new T[n]]. *)
Definition alloc_member (set : ptr -> FourierBSDFTable -> FourierBSDFTable) (n : Z) : M unit :=
  arr <- new_array n ;;
  modify_table (set (Some arr)).

(** [bsdfTable->nMu * bsdfTable->nMu]. *)
Definition nMu_nMu : M Z :=
  t <- get_table ;;
  n <- value_of (nMu t) ;;
  int_mul n n.

(** [for (int i = i0; i < i0 + n; ++i) body(i)]. *)
Fixpoint for_loop (n : nat) (i : Z) (body : Z -> M unit) : M unit :=
  match n with
  | O => ret tt
  | S k => body i ;;; for_loop k (i + 1) body
  end.

(* ================================================================== *)
(** ** FourierBSDFTable::Read, fourier.cpp:97-192 *)

(** [header_exp], fourier.cpp:132. *)
Definition header_exp : list byte :=
  map byte_of_ascii ["S"; "C"; "A"; "T"; "F"; "U"; "N"; "001"]%char.

(** [memcmp(x, y, n) == 0] for two [n]-byte buffers. *)
Fixpoint memcmp_eq (x y : list byte) : bool :=
  match x, y with
  | [], [] => true
  | b :: x', c :: y' => Byte.eqb b c && memcmp_eq x' y'
  | _, _ => false
  end.

(** fourier.cpp:136-137. *)
Definition check_magic : M unit :=
  r <- fread 1 8 ;;
  let header := concat (fst r) in
  if negb (length (fst r) =? 8)%nat || negb (memcmp_eq header header_exp)
  then goto_fail else ret tt.

(** fourier.cpp:141-146.  The locals [flags], [nCoeffs] and [nBases] are
    the result; the members are written as they are read. *)
Definition read_header (cfg : Config) : M (Z * Z * Z) :=
  flags <- read32_local cfg ;;
  read_member (read32 cfg) nMu set_nMu ;;;
  nCoeffs <- read32_local cfg ;;
  read_member (read32 cfg) mMax set_mMax ;;;
  read_member (read32 cfg) nChannels set_nChannels ;;;
  nBases <- read32_local cfg ;;
  read32_unused cfg 3 ;;;
  read_member (readfloat cfg) eta set_eta ;;;
  read32_unused cfg 4 ;;;
  ret (flags, nCoeffs, nBases).

(** fourier.cpp:151-153. *)
Definition validate (flags nBases : Z) : M unit :=
  t <- get_table ;;
  nCh <- value_of (nChannels t) ;;
  if negb (flags =? 1) || (negb (nCh =? 1) && negb (nCh =? 3)) || negb (nBases =? 1)
  then goto_fail else ret tt.

(** fourier.cpp:155-161.  The result is the array owned by
    [offsetAndLength]. *)
Definition allocate (nCoeffs : Z) : M array :=
  t <- get_table ;;
  n <- value_of (nMu t) ;;
  alloc_member set_mu n ;;;
  nn <- nMu_nMu ;;
  alloc_member set_cdf nn ;;;
  nn <- nMu_nMu ;;
  alloc_member set_a0 nn ;;;
  nn <- nMu_nMu ;;
  nn2 <- int_mul nn 2 ;;
  offsetAndLength <- new_array nn2 ;;
  nn <- nMu_nMu ;;
  alloc_member set_aOffset nn ;;;
  nn <- nMu_nMu ;;
  alloc_member set_m nn ;;;
  alloc_member set_a nCoeffs ;;;
  ret offsetAndLength.

(** fourier.cpp:163-167.  The result is [offsetAndLength] as read. *)
Definition read_sections (cfg : Config) (nCoeffs : Z) (offsetAndLength : array)
  : M array :=
  t <- get_table ;;
  n <- value_of (nMu t) ;;
  read_array (readfloat cfg) mu set_mu n ;;;
  nn <- nMu_nMu ;;
  read_array (readfloat cfg) cdf set_cdf nn ;;;
  nn <- nMu_nMu ;;
  nn2 <- int_mul nn 2 ;;
  r <- read32 cfg (to_size_t nn2) ;;
  let offsetAndLength := overwrite (snd r) offsetAndLength in
  (if fst r then ret tt else goto_fail) ;;;
  read_array (readfloat cfg) a set_a nCoeffs ;;;
  ret offsetAndLength.

(** fourier.cpp:170-176, the body of the first loop. *)
Definition derive_pair (cfg : Config) (offsetAndLength : array) (i : Z) : M unit :=
  c <- load offsetAndLength (2 * i) ;;
  offset <- value_of c ;;
  c <- load offsetAndLength (2 * i + 1) ;;
  length <- value_of c ;;
  store_member aOffset set_aOffset i (Some offset) ;;;
  store_member m set_m i (Some length) ;;;
  v <- (if 0 <? length
        then t <- get_table ;; arr <- deref (a t) ;; load arr offset
        else ret (Some (IEEE.of_int (Float_format (Float cfg)) 0))) ;;
  store_member a0 set_a0 i v.

(** fourier.cpp:169-177. *)
Definition derive (cfg : Config) (offsetAndLength : array) : M unit :=
  nn <- nMu_nMu ;;
  for_loop (Z.to_nat nn) 0 (derive_pair cfg offsetAndLength).

(** fourier.cpp:181, the body of the second loop. *)
Definition reciprocal (cfg : Config) (i : Z) : M unit :=
  let fmt := Float_format (Float cfg) in
  store_member recip set_recip i
    (Some (IEEE.div fmt (IEEE.of_int fmt 1) (IEEE.of_int fmt i))).

(** fourier.cpp:179-181. *)
Definition reciprocals (cfg : Config) : M unit :=
  t <- get_table ;;
  mx <- value_of (mMax t) ;;
  alloc_member set_recip mx ;;;
  for_loop (Z.to_nat mx) 0 (reciprocal cfg).

(** fourier.cpp:136-181: everything between the [fopen] test and the
    two exits. *)
Definition Read_body (cfg : Config) : M unit :=
  check_magic ;;;
  h <- read_header cfg ;;
  let '(flags, nCoeffs, nBases) := h in
  validate flags nBases ;;;
  offsetAndLength <- allocate nCoeffs ;;
  offsetAndLength <- read_sections cfg nCoeffs offsetAndLength ;;
  derive cfg offsetAndLength ;;;
  reciprocals cfg.

(** How a call of [Read] ends. *)
Inductive outcome :=
| Returns (b : bool) (w : world)
| Throws (e : exn) (w : world)
| UndefinedBehaviour.

(** The files that [fopen(name, "rb")] can open, with their content. *)
Definition filesystem := string -> option (list byte).

(** fourier.cpp:99-100. *)
Definition reset_pointers (t : FourierBSDFTable) : FourierBSDFTable :=
  set_m nullptr (set_aOffset nullptr (set_mu nullptr (set_cdf nullptr (set_a nullptr t)))).

(** [FourierBSDFTable::Read(filename, bsdfTable)] with [*bsdfTable]
    holding [t0] at the call. *)
Definition Read (cfg : Config) (fs : filesystem) (filename : string)
    (t0 : FourierBSDFTable) : outcome :=
  let t1 := reset_pointers t0 in
  match fs (c_str filename) with
  | None =>
      Returns false
        (Error open_failed_fmt (c_str filename)
           {| f := None; table := t1; errors := [] |})
  | Some content =>
      match Read_body cfg {| f := Some content; table := t1; errors := [] |} with
      | Normal _ w => Returns true (fclose w)
      | GotoFail w => Returns false (Error incompatible_fmt (c_str filename) (fclose w))
      | Throw e w => Throws e w
      | Undefined => UndefinedBehaviour
      end
  end.

(* ================================================================== *)
(** ** FourierMaterial, fourier.cpp:194-210 *)

Section Material.

(** Declared outside fourier.cpp: textures, the geometry carried by a
    [SurfaceInteraction], and [Bump]. *)
Variables Texture Geometry : Type.
Variable Bump : Texture -> Geometry -> Geometry.

Inductive TransportMode := Radiance | Importance.

Inductive BxDF := FourierBSDF (bsdfTable : FourierBSDFTable) (mode : TransportMode).

Record BSDF := { bsdf_si : Geometry; bxdfs : list BxDF }.

Record SurfaceInteraction := { geometry : Geometry; bsdf : option BSDF }.

Record FourierMaterial := { bsdfTable : FourierBSDFTable; bumpMap : option Texture }.

(** The constructor, fourier.cpp:194-198: the return value of [Read] is
    dropped.  [t0] is the content of the member before the call. *)
Definition FourierMaterial_ctor (cfg : Config) (fs : filesystem)
    (filename : string) (bump : option Texture) (t0 : FourierBSDFTable)
  : option (FourierMaterial * world) :=
  match Read cfg fs filename t0 with
  | Returns _ w => Some ({| bsdfTable := table w; bumpMap := bump |}, w)
  | Throws _ _ | UndefinedBehaviour => None
  end.

(** [BSDF::Add]. *)
Definition Add (b : BxDF) (s : BSDF) : BSDF :=
  {| bsdf_si := bsdf_si s; bxdfs := bxdfs s ++ [b] |}.

(** fourier.cpp:200-210.  [None] is undefined behaviour (the test of an
    indeterminate [nChannels]). *)
Definition ComputeScatteringFunctions (mat : FourierMaterial)
    (si : SurfaceInteraction) (mode : TransportMode) (allowMultipleLobes : bool)
  : option SurfaceInteraction :=
  let g := match bumpMap mat with
           | Some tex => Bump tex (geometry si)
           | None => geometry si
           end in
  let b := {| bsdf_si := g; bxdfs := [] |} in
  match nChannels (bsdfTable mat) with
  | None => None
  | Some n =>
      Some {| geometry := g;
              bsdf := Some (if 0 <? n then Add (FourierBSDF (bsdfTable mat) mode) b else b) |}
  end.

End Material.

Arguments bsdf_si {Geometry}.
Arguments bxdfs {Geometry}.
Arguments geometry {Geometry}.
Arguments bsdf {Geometry}.
Arguments bsdfTable {Texture}.
Arguments bumpMap {Texture}.
Arguments FourierMaterial_ctor {Texture}.
Arguments Add {Geometry}.
Arguments ComputeScatteringFunctions {Texture Geometry}.

(* ================================================================== *)
(** ** Vocabulary of the statements *)

(** The first [count] elements of [size] bytes of a stream that holds
    them all. *)
Fixpoint split_elems (size count : nat) (s : list byte) : list (list byte) :=
  match count with
  | O => []
  | S c => firstn size s :: split_elems size c (skipn size s)
  end.

(** The little-endian [int] stored in a file at byte offset [off]. *)
Definition int_at (content : list byte) (off : nat) : Z :=
  sint32 (le_decode (firstn 4 (skipn off content))).

(** The fields of the header, fourier.cpp:55-82, by their offsets. *)
Definition header_flags (content : list byte) : Z := int_at content 8.
Definition header_nMu (content : list byte) : Z := int_at content 12.
Definition header_nCoeffs (content : list byte) : Z := int_at content 16.
Definition header_mMax (content : list byte) : Z := int_at content 20.
Definition header_nChannels (content : list byte) : Z := int_at content 24.
Definition header_nBases (content : list byte) : Z := int_at content 28.

(** The [Float] that [readfloat] makes of the 32-bit word seen as the
    [int] [x]. *)
Definition Float_of_word (r : real_type) (x : Z) : Z :=
  match r with
  | Single => float_bits x
  | Double => IEEE.of_binary32 IEEE.binary64 (float_bits x)
  end.

(** The [Float] stored in a file at byte offset [off]. *)
Definition Float_at (r : real_type) (content : list byte) (off : nat) : Z :=
  Float_of_word r (int_at content off).

(** Same pointer members. *)
Definition same_pointers (t t' : FourierBSDFTable) : Prop :=
  mu t' = mu t /\ m t' = m t /\ aOffset t' = aOffset t /\ a t' = a t
  /\ a0 t' = a0 t /\ cdf t' = cdf t /\ recip t' = recip t.

(** The test of fourier.cpp:151-152 passes. *)
Definition supported (flags nCh nBases : Z) : bool :=
  (flags =? 1) && ((nCh =? 1) || (nCh =? 3)) && (nBases =? 1).

(** The cells a successful [read32] / [readfloat] of [count] words of
    the stream [s] writes. *)
Definition int_cells (count : nat) (s : list byte) : list cell :=
  map (fun e => Some (sint32 (le_decode e))) (split_elems 4 count s).

Definition Float_cells (r : real_type) (count : nat) (s : list byte) : list cell :=
  map (fun e => Some (Float_of_word r (sint32 (le_decode e)))) (split_elems 4 count s).

(** The four scalar members as the 64-byte header of [content] sets
    them. *)
Definition header_table (r : real_type) (content : list byte)
    (t : FourierBSDFTable) : FourierBSDFTable :=
  set_eta (Some (Float_at r content 44))
    (set_nChannels (Some (header_nChannels content))
       (set_mMax (Some (header_mMax content))
          (set_nMu (Some (header_nMu content)) t))).

(** The file holds the magic bytes and a whole header. *)
Definition header_ok (content : list byte) : bool :=
  (64 <=? length content)%nat && memcmp_eq (firstn 8 content) header_exp.

(** A fresh array of [n] indeterminate elements. *)
Definition fresh (n : Z) : ptr := Some (repeat None (Z.to_nat n)).

(** The table after the allocations of fourier.cpp:155-160, and after
    that of line 161. *)
Definition allocated5 (n : Z) (t : FourierBSDFTable) : FourierBSDFTable :=
  set_m (fresh (n * n))
    (set_aOffset (fresh (n * n))
       (set_a0 (fresh (n * n)) (set_cdf (fresh (n * n)) (set_mu (fresh n) t)))).

Definition allocated (n nCoeffs : Z) (t : FourierBSDFTable) : FourierBSDFTable :=
  set_a (fresh nCoeffs) (allocated5 n t).

(** Byte offsets of the data sections of a file with [n] angles, and of
    the end of [nCoeffs] coefficients. *)
Definition off_mu : nat := 64.
Definition off_cdf (n : Z) : nat := off_mu + 4 * Z.to_nat n.
Definition off_pairs (n : Z) : nat := off_cdf n + 4 * Z.to_nat (n * n).
Definition off_a (n : Z) : nat := off_pairs n + 4 * Z.to_nat (n * n * 2).
Definition off_end (n nCoeffs : Z) : nat := off_a n + 4 * Z.to_nat nCoeffs.

(** The table after the reads of fourier.cpp:163-166 all succeeded. *)
Definition sections_table (r : real_type) (content : list byte) (n nCoeffs : Z)
    (t : FourierBSDFTable) : FourierBSDFTable :=
  set_a (Some (Float_cells r (Z.to_nat nCoeffs) (skipn (off_a n) content)))
    (set_cdf (Some (Float_cells r (Z.to_nat (n * n)) (skipn (off_cdf n) content)))
       (set_mu (Some (Float_cells r (Z.to_nat n) (skipn off_mu content))) t)).

(** [offsetAndLength] after its read succeeded. *)
Definition pairs_read (content : list byte) (n : Z) : array :=
  int_cells (Z.to_nat (n * n * 2)) (skipn (off_pairs n) content).

(** Same scalar members. *)
Definition same_scalars (t t' : FourierBSDFTable) : Prop :=
  eta t' = eta t /\ mMax t' = mMax t /\ nChannels t' = nChannels t /\ nMu t' = nMu t.

(** The six arrays of fourier.cpp:155-161 are all allocated. *)
Definition arrays_allocated (t : FourierBSDFTable) : Prop :=
  mu t <> nullptr /\ cdf t <> nullptr /\ a0 t <> nullptr
  /\ aOffset t <> nullptr /\ m t <> nullptr /\ a t <> nullptr.

(** What fourier.cpp:170-176 leaves at pair index [k], for the pairs
    buffer [ol]. *)
Definition pair_derived (r : real_type) (ol : array) (t : FourierBSDFTable) (k : Z) : Prop :=
  exists off len,
    elem (Some ol) (2 * k) = Some off /\ elem (Some ol) (2 * k + 1) = Some len
    /\ elem (aOffset t) k = Some off /\ elem (m t) k = Some len
    /\ (0 < len ->
        (exists n, extent (a t) = Some n /\ 0 <= off < n)
        /\ elem (a0 t) k = elem (a t) off)
    /\ (len <= 0 -> elem (a0 t) k = Some (IEEE.of_int (Float_format r) 0)).

(** What the first loop leaves alone. *)
Definition derive_frame (t t' : FourierBSDFTable) : Prop :=
  same_scalars t t' /\ mu t' = mu t /\ a t' = a t /\ cdf t' = cdf t
  /\ recip t' = recip t
  /\ extent (aOffset t') = extent (aOffset t) /\ extent (m t') = extent (m t)
  /\ extent (a0 t') = extent (a0 t).

(** The elements at index [k] of the three arrays the first loop fills
    are the same. *)
Definition same_pair (t t' : FourierBSDFTable) (k : Z) : Prop :=
  elem (aOffset t') k = elem (aOffset t) k /\ elem (m t') k = elem (m t) k
  /\ elem (a0 t') k = elem (a0 t) k.

(** What the second loop leaves alone. *)
Definition reciprocals_frame (t t' : FourierBSDFTable) : Prop :=
  same_scalars t t' /\ mu t' = mu t /\ m t' = m t /\ aOffset t' = aOffset t
  /\ a t' = a t /\ a0 t' = a0 t /\ cdf t' = cdf t.

(** [1 / (Float)i]. *)
Definition reciprocal_of (r : real_type) (i : Z) : Z :=
  IEEE.div (Float_format r) (IEEE.of_int (Float_format r) 1) (IEEE.of_int (Float_format r) i).

(** The pattern [x] is a positive normal number [sig * 2^(-E)] of the
    format that differs from [1 / k] by at most half a unit [2^(-E)] of
    its last place: [|sig * 2^(-E) - 1 / k| <= 2^(-E) / 2], multiplied
    through by [k * 2^E]. *)
Definition nearest_reciprocal (fmt : IEEE.format) (x k : Z) : Prop :=
  exists sig E,
    IEEE.decode fmt x = IEEE.Fin false sig (- E)
    /\ 0 <= E
    /\ 2 ^ IEEE.mbits fmt <= sig < 2 ^ (IEEE.mbits fmt + 1)
    /\ 2 * Z.abs (sig * k - 2 ^ E) <= k.

(** The table that a successful load of [content] leaves. *)
Record loaded (r : real_type) (content : list byte) (T : FourierBSDFTable) : Prop := {
  ld_nMu_pos : 0 <= header_nMu content;
  ld_no_overflow : header_nMu content * header_nMu content * 2 <= INT_MAX;
  ld_nCoeffs_pos : 0 <= header_nCoeffs content;
  ld_mMax_pos : 0 <= header_mMax content;
  ld_whole : (off_end (header_nMu content) (header_nCoeffs content) <= length content)%nat;
  ld_eta : eta T = Some (Float_at r content 44);
  ld_mMax : mMax T = Some (header_mMax content);
  ld_nChannels : nChannels T = Some (header_nChannels content);
  ld_nMu : nMu T = Some (header_nMu content);
  ld_mu : mu T = Some (Float_cells r (Z.to_nat (header_nMu content)) (skipn off_mu content));
  ld_cdf : cdf T = Some (Float_cells r (Z.to_nat (header_nMu content * header_nMu content))
                           (skipn (off_cdf (header_nMu content)) content));
  ld_a : a T = Some (Float_cells r (Z.to_nat (header_nCoeffs content))
                       (skipn (off_a (header_nMu content)) content));
  ld_aOffset_extent : extent (aOffset T) = Some (header_nMu content * header_nMu content);
  ld_m_extent : extent (m T) = Some (header_nMu content * header_nMu content);
  ld_a0_extent : extent (a0 T) = Some (header_nMu content * header_nMu content);
  ld_recip_extent : extent (recip T) = Some (header_mMax content);
  ld_pairs : forall k, 0 <= k < header_nMu content * header_nMu content ->
               pair_derived r (pairs_read content (header_nMu content)) T k;
  ld_recip : forall k, 0 <= k < header_mMax content ->
               elem (recip T) k = Some (reciprocal_of r k)
}.

(** A run that neither jumps to [fail] nor throws. *)
Definition quiet {A} (r : result A) : Prop :=
  match r with
  | Normal _ _ | Undefined => True
  | GotoFail _ | Throw _ _ => False
  end.

(** The header fields of [content] pass the test of fourier.cpp:151. *)
Definition header_supported (content : list byte) : bool :=
  supported (header_flags content) (header_nChannels content) (header_nBases content).

(** The sizes declared by the header of [content] can be allocated:
    no negative [nMu] or [nCoeffs], no [int] overflow in
    [nMu * nMu * 2]. *)
Definition sizes_ok (content : list byte) : Prop :=
  0 <= header_nMu content
  /\ header_nMu content * header_nMu content * 2 <= INT_MAX
  /\ 0 <= header_nCoeffs content.

(** The data sections declared by the header of [content] are all
    there. *)
Definition sections_whole (content : list byte) : Prop :=
  (off_end (header_nMu content) (header_nCoeffs content) <= length content)%nat.

(** Two runs that end the same way: same result and world when the run
    ends normally or throws, same stream and messages when it jumps to
    [fail]. *)
Definition agree {A} (r1 r2 : result A) : Prop :=
  match r1, r2 with
  | Normal x w, Normal y w' => x = y /\ w = w'
  | GotoFail w, GotoFail w' => f w = f w' /\ errors w = errors w'
  | Throw e w, Throw e' w' => e = e' /\ w = w'
  | Undefined, Undefined => True
  | _, _ => False
  end.

(** Two calls of [Read] that end the same way: the same return value,
    messages and stream state, and after [true] the same table. *)
Definition same_outcome (o1 o2 : outcome) : Prop :=
  match o1, o2 with
  | Returns true w, Returns true w' => w = w'
  | Returns false w, Returns false w' => f w = f w' /\ errors w = errors w'
  | Throws e w, Throws e' w' => e = e' /\ w = w'
  | UndefinedBehaviour, UndefinedBehaviour => True
  | _, _ => False
  end.

Definition little_endian_host (r : real_type) : Config :=
  {| big_endian := false; Float := r |}.
Definition big_endian_host (r : real_type) : Config :=
  {| big_endian := true; Float := r |}.

(** A read delivers the same on both hosts, or fails on both. *)
Definition read_agree (rd1 rd2 : M (bool * list cell)) (w : world) : Prop :=
  rd1 w = rd2 w
  \/ exists c1 c2 w', rd1 w = Normal (false, c1) w' /\ rd2 w = Normal (false, c2) w'.

(** Two decoded patterns stand for the same number: the same infinity,
    or finite values [(-1)^s * m * 2^e] of the same sign and the same
    magnitude (compared at the smaller of the two exponents). *)
Definition same_number (v v' : IEEE.value) : Prop :=
  match v, v' with
  | IEEE.Inf s, IEEE.Inf s' => s = s'
  | IEEE.Fin s m e, IEEE.Fin s' m' e' =>
      s = s' /\ m * 2 ^ (e - Z.min e e') = m' * 2 ^ (e' - Z.min e e')
  | _, _ => False
  end.

(** The pattern [x] of the format is a NaN. *)
Definition is_nan (fmt : IEEE.format) (x : Z) : Prop :=
  match IEEE.decode fmt x with
  | IEEE.NaN _ _ => True
  | _ => False
  end.

(** The pattern [x] of a binary32 is no NaN. *)
Definition is_number (x : Z) : Prop :=
  match IEEE.decode IEEE.binary32 x with
  | IEEE.NaN _ _ => False
  | _ => True
  end.

(** The cell [c] holds the number that the binary32 word at byte offset
    [off] of the file stands for. *)
Definition stores_number (r : real_type) (content : list byte) (off : nat) (c : cell)
  : Prop :=
  exists v,
    c = Some v
    /\ same_number (IEEE.decode IEEE.binary32 (float_bits (int_at content off)))
                   (IEEE.decode (Float_format r) v).

(* ================================================================== *)
(** ** Well-formed files *)

(** The [k]-th (offset, length) pair of the offset/length section of
    [content]. *)
Definition pair_offset (content : list byte) (k : Z) : Z :=
  int_at content (off_pairs (header_nMu content) + 8 * Z.to_nat k).

Definition pair_length (content : list byte) (k : Z) : Z :=
  int_at content (off_pairs (header_nMu content) + 8 * Z.to_nat k + 4).

(** Every series that has a coefficient starts inside the coefficients:
    the index [offset] of [bsdfTable->a[offset]], fourier.cpp:176, is in
    bounds whenever it is used. *)
Definition offsets_in_bounds (content : list byte) : Prop :=
  forall k, 0 <= k < header_nMu content * header_nMu content ->
    0 < pair_length content k ->
    0 <= pair_offset content k < header_nCoeffs content.

(** The files that [Read] loads. *)
Definition well_formed (content : list byte) : Prop :=
  header_ok content = true /\ header_supported content = true
  /\ sizes_ok content /\ 0 <= header_mMax content
  /\ sections_whole content /\ offsets_in_bounds content.

(** The array behind [p] has [n] elements, none of them
    indeterminate. *)
Definition filled (p : ptr) (n : Z) : Prop :=
  extent p = Some n /\ forall k, 0 <= k < n -> exists v, elem p k = Some v.

(** The files [c] and [c'] have the same magic bytes, the same six
    header fields from [flags] to [nBases], the same [eta] and the same
    data sections; [c'] has a whole header.  The header fields
    [nMetadataBytes], [nParameters], [nParameterValues], [alpha] and
    [unused], and the bytes after the coefficients, may differ. *)
Definition same_relevant_bytes (c c' : list byte) : Prop :=
  (64 <= length c')%nat
  /\ firstn 32 c' = firstn 32 c
  /\ firstn 4 (skipn 44 c') = firstn 4 (skipn 44 c)
  /\ firstn (off_end (header_nMu c) (header_nCoeffs c) - 64) (skipn 64 c')
     = firstn (off_end (header_nMu c) (header_nCoeffs c) - 64) (skipn 64 c).

(* ================================================================== *)
(** ** Sample inputs *)

(** The little-endian bytes of a list of 32-bit words. *)
Definition words (l : list Z) : list byte := concat (map (le_encode 4) l).

(** The fourteen words of a header, fourier.cpp:55-82. *)
Definition header_words (flags nMu nCoeffs mMax nChannels nBases eta : Z) : list Z :=
  [flags; nMu; nCoeffs; mMax; nChannels; nBases; 0; 0; 0; eta; 0; 0; 0; 0].

Definition file_of (header data : list Z) : list byte :=
  header_exp ++ words (header ++ data).

(** A file system with one file. *)
Definition only_file (name : string) (content : list byte) : filesystem :=
  fun p => if String.eqb p name then Some content else None.

(** A table nothing was stored in yet. *)
Definition indeterminate_table : FourierBSDFTable :=
  {| eta := None; mMax := None; nChannels := None; nMu := None;
     mu := nullptr; m := nullptr; aOffset := nullptr; a := nullptr;
     a0 := nullptr; cdf := nullptr; recip := nullptr |}.

(** Two angles, three coefficients, [mMax = 4]; the pairs are (0,2),
    (2,1), (0,0), (0,0).  The floats are 0.5, 1.0; 0.25, 0.5, 0.75, 1.0;
    and 2.0, 3.0, 4.0. *)
Definition sample_file : list byte :=
  file_of (header_words 1 2 3 4 1 1 0x3FC00000)
    ([0x3F000000; 0x3F800000]
     ++ [0x3E800000; 0x3F000000; 0x3F400000; 0x3F800000]
     ++ [0; 2; 2; 1; 0; 0; 0; 0]
     ++ [0x40000000; 0x40400000; 0x40800000]).

(** A whole, supported header for one angle and one coefficient, and no
    data after it. *)
Definition header_only_file : list byte :=
  file_of (header_words 1 1 1 1 1 1 0x3F800000) [].

(** Two angles and one coefficient; the pairs are (0, 5), (-1, 0),
    (7, 0) and (0, 1). *)
Definition unchecked_pairs_file : list byte :=
  file_of (header_words 1 2 1 0 1 1 0x3F800000)
    ([0x3F000000; 0x3F800000]
     ++ [0x3E800000; 0x3F000000; 0x3F400000; 0x3F800000]
     ++ [0; 5; -1; 0; 7; 0; 0; 1]
     ++ [0x40000000]).

(** No angle at all. *)
Definition empty_table_file : list byte :=
  file_of (header_words 1 0 0 0 1 1 0x3F800000) [].

(** A negative number of angles. *)
Definition negative_nMu_file : list byte :=
  file_of (header_words 1 (-1) 0 0 1 1 0x3F800000) [].

(** Unsupported or malformed files. *)
Definition two_bases_file : list byte :=
  file_of (header_words 1 1 1 1 1 2 0x3F800000) [].
Definition extrapolated_file : list byte :=
  file_of (header_words 3 1 1 1 1 1 0x3F800000) [].
Definition no_channel_file : list byte :=
  file_of (header_words 1 1 1 1 0 1 0x3F800000) [].
Definition bad_magic_file : list byte :=
  map byte_of_ascii ["S"; "C"; "A"; "T"; "F"; "U"; "N"; "002"]%char
  ++ words (header_words 1 1 1 1 1 1 0x3F800000).

(** [sample_file] with every 32-bit word after the magic bytes written
    most significant byte first. *)
Definition sample_file_big_endian : list byte :=
  firstn 8 sample_file
  ++ concat (map (@rev byte) (split_elems 4 31 (skipn 8 sample_file))).

(** [sample_file] with its first pair changed to (3, 1): the offset is
    [nCoeffs], one past the last coefficient. *)
Definition unchecked_offset_file : list byte :=
  file_of (header_words 1 2 3 4 1 1 0x3FC00000)
    ([0x3F000000; 0x3F800000]
     ++ [0x3E800000; 0x3F000000; 0x3F400000; 0x3F800000]
     ++ [3; 1; 2; 1; 0; 0; 0; 0]
     ++ [0x40000000; 0x40400000; 0x40800000]).

(** A header whose [nMu * nMu] does not fit an [int]. *)
Definition overflow_file : list byte :=
  file_of (header_words 1 46341 0 0 1 1 0x3F800000) [].

(** [empty_table_file] with [mMax = -1]. *)
Definition negative_mMax_file : list byte :=
  file_of (header_words 1 0 0 (-1) 1 1 0x3F800000) [].

(** [sample_file] with other values in the header fields
    [nMetadataBytes], [nParameters], [nParameterValues], [alpha] and
    [unused], and eight bytes of metadata after the coefficients. *)
Definition sample_file_with_metadata : list byte :=
  file_of [1; 2; 3; 4; 1; 1; 8; 2; 16; 0x3FC00000; 0x3DCCCCCD; 0x3DCCCCCD; 7; 7]
    ([0x3F000000; 0x3F800000]
     ++ [0x3E800000; 0x3F000000; 0x3F400000; 0x3F800000]
     ++ [0; 2; 2; 1; 0; 0; 0; 0]
     ++ [0x40000000; 0x40400000; 0x40800000]
     ++ [0x6174656D; 0x61746164]).

(** A stream of three words, 1, -2 and 3, and a world in which it is
    open. *)
Definition three_words : list byte := words [1; -2; 3].

Definition three_words_open : world :=
  {| f := Some three_words; table := indeterminate_table; errors := [] |}.

(** [sample_file] with NaNs for its coefficients: a quiet NaN, a
    negative quiet NaN with a payload, and a signalling NaN. *)
Definition nan_file : list byte :=
  file_of (header_words 1 2 3 4 1 1 0x3FC00000)
    ([0x3F000000; 0x3F800000]
     ++ [0x3E800000; 0x3F000000; 0x3F400000; 0x3F800000]
     ++ [0; 2; 2; 1; 0; 0; 0; 0]
     ++ [0x7FC00000; 0xFFC00001; 0x7F800001]).

(** The default build on a little-endian host. *)
Definition host : Config := little_endian_host Single.

(** The call of [Read] on a file system that holds [content] under the
    name [table.bsdf], with nothing stored in the table yet. *)
Definition Read_file (cfg : Config) (content : list byte) : outcome :=
  Read cfg (only_file "table.bsdf" content) "table.bsdf" indeterminate_table.

(** The world in which a call of [Read] ends. *)
Definition final_world (o : outcome) : world :=
  match o with
  | Returns _ w | Throws _ w => w
  | UndefinedBehaviour => {| f := None; table := indeterminate_table; errors := [] |}
  end.

(** The messages of fourier.cpp:105 and 187-190 for the path [p]. *)
Definition open_failed_message (p : string) : string :=
  ("Unable to open tabulated BSDF file " ++ dquote ++ p ++ dquote)%string.

Definition incompatible_message (p : string) : string :=
  ("Tabulated BSDF file " ++ dquote ++ p ++ dquote
   ++ " has an incompatible file format or version.")%string.

(** The [BxDF]s that [ComputeScatteringFunctions] adds for a material
    that holds the table [t], without a bump map, on a surface point
    without geometry. *)
Definition scattering_of (t : FourierBSDFTable) (mode : TransportMode)
  : option (list BxDF) :=
  match ComputeScatteringFunctions (fun (_ : unit) (g : unit) => g)
          {| bsdfTable := t; bumpMap := None |}
          {| geometry := tt; bsdf := None |} mode true with
  | Some si => option_map bxdfs (bsdf si)
  | None => None
  end.

(** The material that the constructor leaves for [header_only_file]. *)
Definition truncated_material : FourierMaterial unit :=
  {| bsdfTable := table (final_world (Read_file host header_only_file));
     bumpMap := None |}.


(* ================================================================== *)
(** * The definitions on known values *)

Example IsBigEndian_big : IsBigEndian true = true.
Proof. reflexivity. Qed.

Example IsBigEndian_little : IsBigEndian false = false.
Proof. reflexivity. Qed.

Example bswap32_example : bswap32 0x01020304 = 0x04030201.
Proof. reflexivity. Qed.

Example of_int_1 : IEEE.of_int IEEE.binary32 1 = 0x3F800000.
Proof. reflexivity. Qed.

Example of_int_big : IEEE.of_int IEEE.binary32 16777217 = 0x4B800000.
Proof. reflexivity. Qed.

Example of_int_big' : IEEE.of_int IEEE.binary32 16777219 = 0x4B800002.
Proof. reflexivity. Qed.

Example of_int_neg : IEEE.of_int IEEE.binary32 (-2) = 0xC0000000.
Proof. reflexivity. Qed.

Example div_1_3 :
  IEEE.div IEEE.binary32 (IEEE.of_int IEEE.binary32 1) (IEEE.of_int IEEE.binary32 3)
  = 0x3EAAAAAB.
Proof. reflexivity. Qed.

Example div_1_10 :
  IEEE.div IEEE.binary32 (IEEE.of_int IEEE.binary32 1) (IEEE.of_int IEEE.binary32 10)
  = 0x3DCCCCCD.
Proof. reflexivity. Qed.

Example div_1_0 :
  IEEE.div IEEE.binary32 (IEEE.of_int IEEE.binary32 1) (IEEE.of_int IEEE.binary32 0)
  = 0x7F800000.
Proof. reflexivity. Qed.

Example div_1_3_double :
  IEEE.div IEEE.binary64 (IEEE.of_int IEEE.binary64 1) (IEEE.of_int IEEE.binary64 3)
  = 0x3FD5555555555555.
Proof. reflexivity. Qed.

Example widen_tenth : IEEE.of_binary32 IEEE.binary64 0x3DCCCCCD = 0x3FB99999A0000000.
Proof. reflexivity. Qed.

Example widen_subnormal : IEEE.of_binary32 IEEE.binary64 1 = 0x36A0000000000000.
Proof. reflexivity. Qed.

Example widen_quiet_nan :
  IEEE.of_binary32 IEEE.binary64 0x7FC00000 = 0x7FF8000000000000.
Proof. reflexivity. Qed.

Example widen_negative_nan :
  IEEE.of_binary32 IEEE.binary64 0xFFC00001 = 0xFFF8000020000000.
Proof. reflexivity. Qed.

Example widen_signalling_nan :
  IEEE.of_binary32 IEEE.binary64 0x7F800001 = 0x7FF8000020000000.
Proof. reflexivity. Qed.

Example widen_infinity :
  IEEE.of_binary32 IEEE.binary64 0xFF800000 = 0xFFF0000000000000.
Proof. reflexivity. Qed.

(* ================================================================== *)
(** * Bytes and byte order *)

Lemma byte_val_range (b : byte) : 0 <= byte_val b < 256.
Proof.
  unfold byte_val. pose proof (Byte.to_N_bounded b). lia.
Qed.

Lemma byte_of_val (b : byte) (r : Z) : byte_of (byte_val b + 256 * r) = b.
Proof.
  unfold byte_of.
  pose proof (byte_val_range b) as Hb.
  replace ((byte_val b + 256 * r) mod 256) with (byte_val b).
  - unfold byte_val. rewrite N2Z.id, Byte.of_to_N. reflexivity.
  - replace (byte_val b + 256 * r) with (byte_val b + r * 256) by lia.
    rewrite Z.mod_add by lia. symmetry. apply Z.mod_small. lia.
Qed.

Lemma le_decode_range (l : list byte) :
  0 <= le_decode l < 256 ^ Z.of_nat (length l).
Proof.
  induction l as [|b l IH]; cbn [le_decode].
  - simpl. lia.
  - pose proof (byte_val_range b).
    replace (Z.of_nat (length (b :: l))) with (Z.succ (Z.of_nat (length l)))
      by (simpl length; lia).
    rewrite Z.pow_succ_r by lia. lia.
Qed.

Lemma le_encode_decode (l : list byte) : le_encode (length l) (le_decode l) = l.
Proof.
  induction l as [|b l IH]; cbn [le_decode le_encode length]; [reflexivity|].
  rewrite byte_of_val. f_equal.
  pose proof (byte_val_range b).
  replace ((byte_val b + 256 * le_decode l) / 256) with (le_decode l); [exact IH|].
  replace (byte_val b + 256 * le_decode l) with (byte_val b + le_decode l * 256) by lia.
  rewrite Z.div_add by lia. rewrite Z.div_small by lia. lia.
Qed.

Lemma le_decode_word (e : list byte) :
  length e = 4%nat -> 0 <= le_decode e < 2 ^ 32.
Proof.
  intros H. pose proof (le_decode_range e) as R. rewrite H in R.
  change (256 ^ Z.of_nat 4) with (2 ^ 32) in R. exact R.
Qed.

Lemma sint32_mod (x : Z) : sint32 x mod 2 ^ 32 = x mod 2 ^ 32.
Proof.
  unfold sint32.
  pose proof (Z.mod_pos_bound x (2 ^ 32) ltac:(lia)) as Hu.
  destruct (x mod 2 ^ 32 <? 2 ^ 31).
  - apply Z.mod_small; lia.
  - replace (x mod 2 ^ 32 - 2 ^ 32) with (x mod 2 ^ 32 + (-1) * 2 ^ 32) by lia.
    rewrite Z.mod_add by lia. apply Z.mod_small; lia.
Qed.

Lemma sint32_range (x : Z) : INT_MIN <= sint32 x <= INT_MAX.
Proof.
  unfold sint32, INT_MIN, INT_MAX.
  pose proof (Z.mod_pos_bound x (2 ^ 32) ltac:(lia)) as Hu.
  destruct (x mod 2 ^ 32 <? 2 ^ 31) eqn:E.
  - apply Z.ltb_lt in E. lia.
  - apply Z.ltb_ge in E. lia.
Qed.

Lemma sint32_small (x : Z) : INT_MIN <= x <= INT_MAX -> sint32 x = x.
Proof.
  unfold sint32, INT_MIN, INT_MAX. intros H.
  destruct (Z_lt_le_dec x 0).
  - replace (x mod 2 ^ 32) with (x + 2 ^ 32).
    + destruct (x + 2 ^ 32 <? 2 ^ 31) eqn:E; [apply Z.ltb_lt in E|]; lia.
    + apply (Z.mod_unique x (2 ^ 32) (-1)); lia.
  - rewrite Z.mod_small by lia.
    destruct (x <? 2 ^ 31) eqn:E; [reflexivity|apply Z.ltb_ge in E; lia].
Qed.

Lemma IsBigEndian_correct (big : bool) : IsBigEndian big = big.
Proof. destruct big; reflexivity. Qed.

(** A word read on a big-endian host and swapped is the word a
    little-endian host reads. *)
Lemma bswap32_native (e : list byte) :
  length e = 4%nat ->
  sint32 (bswap32 (sint32 (native_decode true e) mod 2 ^ 32))
  = sint32 (native_decode false e).
Proof.
  intros H. unfold native_decode.
  assert (Hr : length (rev e) = 4%nat) by (rewrite length_rev; exact H).
  rewrite sint32_mod.
  rewrite Z.mod_small by (apply le_decode_word; exact Hr).
  unfold bswap32.
  rewrite <- Hr at 1. rewrite le_encode_decode, rev_involutive. reflexivity.
Qed.


(* ================================================================== *)
(** * The reciprocal of a small integer is correctly rounded *)

Lemma rne_bounds (n d : Z) :
  0 <= n -> 0 < d ->
  n / d <= IEEE.rne n d <= n / d + 1 /\ 2 * Z.abs (IEEE.rne n d * d - n) <= d.
Proof.
  intros Hn Hd. unfold IEEE.rne.
  pose proof (Z.div_mod n d ltac:(lia)) as Hdm.
  pose proof (Z.mod_pos_bound n d Hd) as Hr.
  destruct (2 * (n mod d) <? d) eqn:E1.
  - apply Z.ltb_lt in E1. split; [lia|]. nia.
  - apply Z.ltb_ge in E1.
    destruct (d <? 2 * (n mod d)) eqn:E2.
    + apply Z.ltb_lt in E2. split; [lia|]. nia.
    + apply Z.ltb_ge in E2. destruct (Z.even (n / d)); (split; [lia|nia]).
Qed.

Lemma rne_exact (n d q : Z) : 0 < d -> n = q * d -> IEEE.rne n d = q.
Proof.
  intros Hd ->. unfold IEEE.rne.
  rewrite Z.div_mul, Z.mod_mul by lia.
  replace (2 * 0 <? d) with true by (symmetry; apply Z.ltb_lt; lia).
  reflexivity.
Qed.

Lemma pow2_succ (p : Z) : 0 <= p -> 2 ^ (p + 1) = 2 * 2 ^ p.
Proof. intros H. rewrite Z.pow_add_r by lia. lia. Qed.

Section Accuracy.
Variable fmt : IEEE.format.
Hypothesis Hp : 1 <= IEEE.mbits fmt.
Hypothesis HX : IEEE.mbits fmt + 2 <= IEEE.emax fmt.
Hypothesis HW : 2 ^ IEEE.ewidth fmt = 2 * IEEE.emax fmt + 2.

Lemma ewidth_pos : 0 <= IEEE.ewidth fmt.
Proof.
  destruct (Z_lt_le_dec (IEEE.ewidth fmt) 0) as [H|H]; [|exact H].
  rewrite Z.pow_neg_r in HW by exact H. lia.
Qed.

Lemma pow_mbits_pos : 0 < 2 ^ IEEE.mbits fmt.
Proof. apply Z.pow_pos_nonneg; lia. Qed.

(** The pattern of a normal number decodes to its significand and
    exponent. *)
Lemma decode_normal (sig e : Z) :
  2 ^ IEEE.mbits fmt <= sig < 2 ^ (IEEE.mbits fmt + 1) ->
  IEEE.emin fmt <= e <= IEEE.emax fmt ->
  IEEE.decode fmt ((e - IEEE.emin fmt) * 2 ^ IEEE.mbits fmt + sig)
  = IEEE.Fin false sig (e - IEEE.mbits fmt).
Proof.
  intros Hsig He.
  pose proof pow_mbits_pos as Hpp. pose proof ewidth_pos as Hw0.
  set (p := IEEE.mbits fmt) in *. set (X := IEEE.emax fmt) in *.
  assert (Hemin : IEEE.emin fmt = 1 - X) by reflexivity.
  rewrite pow2_succ in Hsig by lia.
  set (x := (e - IEEE.emin fmt) * 2 ^ p + sig).
  assert (Hx : x = (e + X) * 2 ^ p + (sig - 2 ^ p)) by (unfold x; rewrite Hemin; lia).
  assert (Hdiv : x / 2 ^ p = e + X).
  { rewrite Hx, Z.add_comm, Z.div_add by lia. rewrite Z.div_small by lia. lia. }
  assert (Hmod : x mod 2 ^ p = sig - 2 ^ p).
  { rewrite Hx, Z.add_comm, Z.mod_add by lia. apply Z.mod_small. lia. }
  assert (Hbit : Z.testbit x (IEEE.ewidth fmt + p) = false).
  { assert (0 < x) by (rewrite Hx; nia).
    apply Z.bits_above_log2; [lia|].
    apply Z.log2_lt_pow2; [lia|].
    rewrite Z.pow_add_r, HW by lia. rewrite Hx. nia. }
  unfold IEEE.decode. fold p. fold x. fold X.
  rewrite Hbit, Hdiv, Hmod.
  rewrite (Z.mod_small (e + X)) by lia.
  replace (e + X =? 2 ^ IEEE.ewidth fmt - 1) with false
    by (symmetry; apply Z.eqb_neq; lia).
  replace (e + X =? 0) with false by (symmetry; apply Z.eqb_neq; lia).
  f_equal; lia.
Qed.

(** [(Float)k] is exact for an integer of at most [prec] bits. *)
Lemma of_int_small (k : Z) :
  1 <= k < 2 ^ (IEEE.mbits fmt + 1) ->
  IEEE.of_int fmt k
  = (Z.log2 k - IEEE.emin fmt) * 2 ^ IEEE.mbits fmt
    + k * 2 ^ (IEEE.mbits fmt - Z.log2 k)
  /\ 0 <= Z.log2 k <= IEEE.mbits fmt
  /\ 2 ^ IEEE.mbits fmt <= k * 2 ^ (IEEE.mbits fmt - Z.log2 k) < 2 ^ (IEEE.mbits fmt + 1).
Proof.
  intros Hk.
  pose proof pow_mbits_pos as Hpp.
  set (p := IEEE.mbits fmt) in *. set (X := IEEE.emax fmt) in *.
  assert (Hemin : IEEE.emin fmt = 1 - X) by reflexivity.
  pose proof (Z.log2_spec k ltac:(lia)) as HL.
  pose proof (Z.log2_nonneg k) as HL0.
  set (L := Z.log2 k) in *.
  assert (HLp : L <= p).
  { destruct (Z_lt_le_dec p L) as [H|H]; [|exact H].
    assert (2 ^ (p + 1) <= 2 ^ L) by (apply Z.pow_le_mono_r; lia). lia. }
  assert (Hsplit : 2 ^ p = 2 ^ L * 2 ^ (p - L))
    by (rewrite <- Z.pow_add_r by lia; f_equal; lia).
  assert (Hq : 0 < 2 ^ (p - L)) by (apply Z.pow_pos_nonneg; lia).
  assert (Hsig : 2 ^ p <= k * 2 ^ (p - L) < 2 ^ (p + 1)).
  { rewrite pow2_succ, Hsplit by lia.
    replace (Z.succ L) with (L + 1) in HL by lia. rewrite pow2_succ in HL by lia. nia. }
  split; [|split; [lia|exact Hsig]].
  unfold IEEE.of_int.
  replace (k <? 0) with false by (symmetry; apply Z.ltb_ge; lia).
  unfold IEEE.round_mag. fold p. rewrite Hemin.
  replace (k =? 0) with false by (symmetry; apply Z.eqb_neq; lia).
  change (Z.log2 1) with 0. rewrite Z.sub_0_r. fold L.
  rewrite (Z.max_l 0 (- L)) by lia. rewrite (Z.max_r 0 L) by lia.
  rewrite Z.pow_0_r, Z.mul_1_r, Z.mul_1_l.
  replace (k <? 2 ^ L) with false by (symmetry; apply Z.ltb_ge; lia).
  rewrite (Z.max_l L (1 - X)) by lia.
  rewrite (Z.max_r 0 (p - L)) by lia.
  rewrite (Z.max_l 0 (- (p - L))) by lia.
  rewrite Z.pow_0_r.
  rewrite (rne_exact (k * 2 ^ (p - L)) (1 * 1) (k * 2 ^ (p - L))) by lia.
  replace (IEEE.inf_bits fmt <=? (L - (1 - X)) * 2 ^ p + k * 2 ^ (p - L)) with false;
    [reflexivity|].
  symmetry. apply Z.leb_gt. unfold IEEE.inf_bits. fold p. rewrite HW.
  rewrite pow2_succ in Hsig by lia. nia.
Qed.

(** [1 / (Float)k] for an integer [k] of at most [prec] bits: the
    number [sig * 2^(-E)] it is the pattern of differs from [1 / k] by at
    most half a unit [2^(-E)] of its last place. *)
Lemma reciprocal_nearest (k : Z) :
  1 <= k < 2 ^ (IEEE.mbits fmt + 1) ->
  nearest_reciprocal fmt (IEEE.div fmt (IEEE.of_int fmt 1) (IEEE.of_int fmt k)) k.
Proof.
  intros Hk. unfold nearest_reciprocal.
  pose proof pow_mbits_pos as Hpp.
  destruct (of_int_small k Hk) as (Hofk & HL & Hsigk).
  destruct (of_int_small 1 ltac:(rewrite pow2_succ by lia; lia)) as (Hof1 & _ & Hsig1).
  change (Z.log2 1) with 0 in Hof1, Hsig1. rewrite Z.sub_0_r in Hof1, Hsig1.
  pose proof (Z.log2_spec k ltac:(lia)) as Hspec.
  replace (Z.succ (Z.log2 k)) with (Z.log2 k + 1) in Hspec by lia.
  rewrite pow2_succ in Hspec by lia.
  set (p := IEEE.mbits fmt) in *. set (X := IEEE.emax fmt) in *.
  set (L := Z.log2 k) in *.
  assert (Hemin : IEEE.emin fmt = 1 - X) by reflexivity.
  assert (HpL : 0 < 2 ^ L) by (apply Z.pow_pos_nonneg; lia).
  assert (Hsplit : 2 ^ p = 2 ^ (p - L) * 2 ^ L)
    by (rewrite <- Z.pow_add_r by lia; f_equal; lia).
  (* the two operands *)
  unfold IEEE.div.
  rewrite Hof1, Hofk.
  assert (D1 : IEEE.decode fmt ((0 - IEEE.emin fmt) * 2 ^ p + 1 * 2 ^ p)
               = IEEE.Fin false (1 * 2 ^ p) (0 - p))
    by (apply decode_normal; fold p X; lia).
  assert (Dk : IEEE.decode fmt ((L - IEEE.emin fmt) * 2 ^ p + k * 2 ^ (p - L))
               = IEEE.Fin false (k * 2 ^ (p - L)) (L - p))
    by (apply decode_normal; fold p X; lia).
  rewrite D1, Dk.
  replace (k * 2 ^ (p - L) =? 0) with false by (symmetry; apply Z.eqb_neq; lia).
  cbn [xorb]. unfold IEEE.with_sign.
  replace (0 - p - (L - p)) with (- L) by lia.
  replace (L - p - (0 - p)) with L by lia.
  rewrite (Z.max_l 0 (- L)) by lia. rewrite (Z.max_r 0 L) by lia.
  rewrite Z.pow_0_r, Z.mul_1_l, Z.mul_1_r.
  replace (k * 2 ^ (p - L) * 2 ^ L) with (k * 2 ^ p) by (rewrite Hsplit; lia).
  (* the quotient *)
  unfold IEEE.round_mag. fold p. rewrite Hemin.
  replace (2 ^ p =? 0) with false by (symmetry; apply Z.eqb_neq; lia).
  rewrite Z.log2_pow2 by lia.
  rewrite Z.log2_mul_pow2 by lia. fold L.
  replace (p - (p + L)) with (- L) by lia.
  replace (- - L) with L by lia.
  rewrite (Z.max_l 0 (- L)) by lia. rewrite (Z.max_r 0 L) by lia.
  rewrite Z.pow_0_r, Z.mul_1_r.
  destruct (2 ^ p * 2 ^ L <? k * 2 ^ p) eqn:Ecmp.
  - (* k is no power of two: the quotient lies in (2^(-L-1), 2^(-L)) *)
    apply Z.ltb_lt in Ecmp.
    assert (Hlt : 2 ^ L < k) by nia.
    assert (HL1 : 1 <= L).
    { destruct (Z.eq_dec L 0) as [E0|E0]; [|lia].
      rewrite E0 in Hspec, Hlt. cbn in Hspec, Hlt. lia. }
    assert (H2L : 2 <= 2 ^ L).
    { change 2 with (2 ^ 1) at 1. apply Z.pow_le_mono_r; lia. }
    rewrite (Z.max_l (- L - 1) (1 - X)) by lia.
    replace (p - (- L - 1)) with (p + L + 1) by lia.
    rewrite (Z.max_r 0 (p + L + 1)) by lia.
    rewrite (Z.max_l 0 (- (p + L + 1))) by lia.
    rewrite Z.pow_0_r, Z.mul_1_r.
    assert (Hsh : 2 ^ (p + L + 1) = 2 * (2 ^ p * 2 ^ L)).
    { rewrite pow2_succ by lia. rewrite Z.pow_add_r by lia. reflexivity. }
    set (n := 2 ^ p * 2 ^ (p + L + 1)). set (d := k * 2 ^ p).
    assert (Hd : 0 < d) by (unfold d; nia).
    assert (Hn : 0 <= n) by (unfold n; rewrite Hsh; nia).
    destruct (rne_bounds n d Hn Hd) as ((Hlo & Hhi) & Herr).
    set (sig := IEEE.rne n d) in *.
    assert (Hq1 : 2 ^ p <= n / d).
    { apply Z.div_le_lower_bound; [exact Hd|]. unfold n, d. rewrite Hsh. nia. }
    assert (Hq2 : n / d < 2 ^ (p + 1) - 1).
    { apply Z.div_lt_upper_bound; [exact Hd|]. unfold n, d.
      rewrite Hsh, pow2_succ by lia. nia. }
    assert (Hsig : 2 ^ p <= sig < 2 ^ (p + 1)) by lia.
    replace (IEEE.inf_bits fmt <=? (- L - 1 - (1 - X)) * 2 ^ p + sig) with false.
    2:{ symmetry. apply Z.leb_gt. unfold IEEE.inf_bits. fold p. rewrite HW.
        rewrite pow2_succ in Hsig by lia. nia. }
    replace (- L - 1 - (1 - X)) with ((- L - 1) - IEEE.emin fmt) by (rewrite Hemin; lia).
    assert (Dq : IEEE.decode fmt ((- L - 1 - IEEE.emin fmt) * 2 ^ p + sig)
                 = IEEE.Fin false sig (- L - 1 - p))
      by (apply decode_normal; fold p X; lia).
    rewrite Dq. exists sig, (p + L + 1).
    split; [f_equal; lia|]. split; [lia|]. split; [exact Hsig|].
    assert (Hfac : sig * d - n = 2 ^ p * (sig * k - 2 ^ (p + L + 1)))
      by (unfold d, n; ring).
    rewrite Hfac, Z.abs_mul, (Z.abs_eq (2 ^ p)) in Herr by lia.
    unfold d in Herr. nia.
  - (* k is a power of two: the quotient is 2^(-L), exactly *)
    apply Z.ltb_ge in Ecmp.
    assert (Hk2 : k = 2 ^ L) by nia.
    rewrite (Z.max_l (- L) (1 - X)) by lia.
    replace (p - - L) with (p + L) by lia.
    rewrite (Z.max_r 0 (p + L)) by lia.
    rewrite (Z.max_l 0 (- (p + L))) by lia.
    rewrite Z.pow_0_r, Z.mul_1_r.
    rewrite (rne_exact (2 ^ p * 2 ^ (p + L)) (k * 2 ^ p) (2 ^ p)).
    2:{ nia. }
    2:{ rewrite Hk2, (Z.pow_add_r 2 p L) by lia. ring. }
    replace (IEEE.inf_bits fmt <=? (- L - (1 - X)) * 2 ^ p + 2 ^ p) with false.
    2:{ symmetry. apply Z.leb_gt. unfold IEEE.inf_bits. fold p. rewrite HW. nia. }
    replace (- L - (1 - X)) with ((- L) - IEEE.emin fmt) by (rewrite Hemin; lia).
    assert (Dq : IEEE.decode fmt ((- L - IEEE.emin fmt) * 2 ^ p + 2 ^ p)
                 = IEEE.Fin false (2 ^ p) (- L - p))
      by (apply decode_normal; fold p X; rewrite ?pow2_succ by lia; lia).
    rewrite Dq. exists (2 ^ p), (p + L).
    split; [f_equal; lia|]. split; [lia|].
    split; [rewrite pow2_succ by lia; lia|].
    rewrite Hk2, <- Z.pow_add_r by lia. rewrite Z.sub_diag. cbn. lia.
Qed.

End Accuracy.

(** In both formats of [Float]. *)
Lemma reciprocal_of_nearest (r : real_type) (k : Z) :
  1 <= k < 2 ^ IEEE.prec (Float_format r) ->
  nearest_reciprocal (Float_format r) (reciprocal_of r k) k.
Proof.
  intros Hk. unfold reciprocal_of.
  destruct r; apply reciprocal_nearest; try exact Hk;
    cbv; intuition discriminate.
Qed.

Example reciprocal_of_3 :
  IEEE.decode IEEE.binary32 (reciprocal_of Single 3) = IEEE.Fin false 11184811 (- 25)
  /\ 2 * Z.abs (11184811 * 3 - 2 ^ 25) <= 3.
Proof. split; [reflexivity|]. cbn. lia. Qed.


(* ================================================================== *)
(** * [fread] and the reading lambdas *)

Lemma split_elems_length (size count : nat) (s : list byte) :
  length (split_elems size count s) = count.
Proof.
  revert s. induction count as [|c IH]; intros s; simpl; [reflexivity|].
  now rewrite IH.
Qed.

Lemma split_elems_sizes (size count : nat) (s : list byte) :
  (size * count <= length s)%nat ->
  Forall (fun e => length e = size) (split_elems size count s).
Proof.
  revert s. induction count as [|c IH]; intros s H; simpl; constructor.
  - apply firstn_length_le. nia.
  - apply IH. rewrite length_skipn. nia.
Qed.

Lemma split_elems_nth (size count : nat) (s : list byte) (k : nat) :
  (k < count)%nat ->
  nth k (split_elems size count s) [] = firstn size (skipn (size * k) s).
Proof.
  revert s k. induction count as [|c IH]; intros s k H; [lia|].
  destruct k as [|k]; simpl split_elems; simpl nth.
  - rewrite Nat.mul_0_r. reflexivity.
  - rewrite IH by lia. rewrite skipn_skipn. f_equal. f_equal. lia.
Qed.

Lemma take_elems_enough (size count : nat) (s : list byte) :
  (size * count <= length s)%nat ->
  take_elems size count s = (split_elems size count s, false, skipn (size * count) s).
Proof.
  revert s. induction count as [|c IH]; intros s H; simpl take_elems.
  - rewrite Nat.mul_0_r. reflexivity.
  - assert (E : (length s <? size)%nat = false) by (apply Nat.ltb_ge; nia).
    rewrite E. rewrite IH by (rewrite length_skipn; nia).
    simpl split_elems. rewrite skipn_skipn. do 2 f_equal. lia.
Qed.

Lemma take_elems_short (size count : nat) (s : list byte) :
  (0 < size)%nat -> (length s < size * count)%nat ->
  exists es p, take_elems size count s = (es, p, []) /\ (length es < count)%nat.
Proof.
  intros Hs. revert s. induction count as [|c IH]; intros s H; [lia|].
  simpl take_elems.
  destruct (length s <? size)%nat eqn:E.
  - do 2 eexists. split; [reflexivity|simpl; lia].
  - apply Nat.ltb_ge in E.
    destruct (IH (skipn size s)) as (es & p & Heq & Hlen).
    { rewrite length_skipn. nia. }
    rewrite Heq. do 2 eexists. split; [reflexivity|simpl; lia].
Qed.

Lemma concat_split_bytes (count : nat) (s : list byte) :
  (count <= length s)%nat -> concat (split_elems 1 count s) = firstn count s.
Proof.
  revert s. induction count as [|c IH]; intros s H; [reflexivity|].
  destruct s as [|b s]; [simpl in H; lia|].
  simpl. f_equal. apply IH. simpl in H. lia.
Qed.

Section Reading.
Variable cfg : Config.

Lemma read32_enough (count : nat) (w : world) (s : list byte) :
  f w = Some s -> (4 * count <= length s)%nat ->
  read32 cfg count w
  = Normal (true, int_cells count s) (with_f (Some (skipn (4 * count) s)) w).
Proof.
  intros Hf Hlen. unfold read32, bind, fread. rewrite Hf.
  rewrite take_elems_enough by exact Hlen.
  rewrite split_elems_length, Nat.eqb_refl. cbn [negb].
  rewrite app_nil_r, IsBigEndian_correct.
  pose proof (split_elems_sizes 4 count s Hlen) as Hsz.
  destruct (big_endian cfg); unfold ret, int_cells; [|reflexivity].
  do 2 f_equal. rewrite map_map. apply map_ext_in.
  intros e He. cbn [option_map]. f_equal.
  rewrite Forall_forall in Hsz. apply (bswap32_native e). now apply Hsz.
Qed.

Lemma read32_short (count : nat) (w : world) (s : list byte) :
  f w = Some s -> (length s < 4 * count)%nat ->
  exists cells, read32 cfg count w = Normal (false, cells) (with_f (Some []) w).
Proof.
  intros Hf Hlen. unfold read32, bind, fread. rewrite Hf.
  destruct (take_elems_short 4 count s ltac:(lia) Hlen) as (es & p & Heq & Hes).
  rewrite Heq.
  assert (E : (length es =? count)%nat = false) by (apply Nat.eqb_neq; lia).
  rewrite E. cbn [negb]. eexists. reflexivity.
Qed.

Lemma read32_closed (count : nat) (w : world) :
  f w = None -> read32 cfg count w = Undefined.
Proof.
  intros Hf. unfold read32, bind, fread. now rewrite Hf.
Qed.

Lemma int_cells_length (count : nat) (s : list byte) :
  length (int_cells count s) = count.
Proof. unfold int_cells. now rewrite length_map, split_elems_length. Qed.

Lemma Float_cells_length (r : real_type) (count : nat) (s : list byte) :
  length (Float_cells r count s) = count.
Proof. unfold Float_cells. now rewrite length_map, split_elems_length. Qed.

Lemma readfloat_enough (count : nat) (w : world) (s : list byte) :
  f w = Some s -> (4 * count <= length s)%nat ->
  readfloat cfg count w
  = Normal (true, Float_cells (Float cfg) count s)
      (with_f (Some (skipn (4 * count) s)) w).
Proof.
  intros Hf Hlen. unfold readfloat, Float_cells.
  destruct (Float cfg); unfold bind; rewrite (read32_enough count w s Hf Hlen);
    unfold ret; cbn [fst snd]; do 2 f_equal.
  - unfold int_cells. rewrite map_map. reflexivity.
  - unfold overwrite. rewrite int_cells_length.
    rewrite skipn_all2 by (rewrite repeat_length; lia).
    rewrite app_nil_r.
    rewrite firstn_all2 by (rewrite int_cells_length; lia).
    unfold int_cells. rewrite map_map. reflexivity.
Qed.

Lemma readfloat_short (count : nat) (w : world) (s : list byte) :
  f w = Some s -> (length s < 4 * count)%nat ->
  exists cells, readfloat cfg count w = Normal (false, cells) (with_f (Some []) w).
Proof.
  intros Hf Hlen. unfold readfloat.
  destruct (read32_short count w s Hf Hlen) as (cells & Heq).
  destruct (Float cfg); unfold bind; rewrite Heq; unfold ret; cbn [fst snd];
    eexists; reflexivity.
Qed.

End Reading.


(* ================================================================== *)
(** * The control monad *)

Lemma bind_Normal {A B} (c : M A) (k : A -> M B) w x w1 :
  c w = Normal x w1 -> bind c k w = k x w1.
Proof. intros H. unfold bind. now rewrite H. Qed.

Lemma bind_GotoFail {A B} (c : M A) (k : A -> M B) w w1 :
  c w = GotoFail w1 -> bind c k w = GotoFail w1.
Proof. intros H. unfold bind. now rewrite H. Qed.

Lemma bind_Throw {A B} (c : M A) (k : A -> M B) w e w1 :
  c w = Throw e w1 -> bind c k w = Throw e w1.
Proof. intros H. unfold bind. now rewrite H. Qed.

Lemma bind_Undefined {A B} (c : M A) (k : A -> M B) w :
  c w = Undefined -> bind c k w = Undefined.
Proof. intros H. unfold bind. now rewrite H. Qed.

Lemma same_pointers_refl t : same_pointers t t.
Proof. repeat split. Qed.

Lemma same_pointers_trans t1 t2 t3 :
  same_pointers t1 t2 -> same_pointers t2 t3 -> same_pointers t1 t3.
Proof.
  unfold same_pointers. intros (?&?&?&?&?&?&?) (?&?&?&?&?&?&?).
  repeat split; congruence.
Qed.

(* ================================================================== *)
(** * The header: fourier.cpp:136-153 *)

Section Header.
Variable cfg : Config.
Variable content : list byte.

Lemma skipn_length_le (off : nat) :
  length (skipn off content) = (length content - off)%nat.
Proof. apply length_skipn. Qed.

Lemma int_cells_one (off : nat) :
  int_cells 1 (skipn off content) = [Some (int_at content off)].
Proof. reflexivity. Qed.

Lemma Float_cells_one (off : nat) :
  Float_cells (Float cfg) 1 (skipn off content)
  = [Some (Float_at (Float cfg) content off)].
Proof. reflexivity. Qed.

Lemma read32_local_at (off : nat) t e :
  (off + 4 <= length content)%nat ->
  read32_local cfg {| f := Some (skipn off content); table := t; errors := e |}
  = Normal (int_at content off)
      {| f := Some (skipn (off + 4) content); table := t; errors := e |}.
Proof.
  intros H. unfold read32_local.
  erewrite bind_Normal
    by (apply read32_enough with (s := skipn off content);
        [reflexivity | rewrite skipn_length_le; lia]).
  cbn [fst snd]. rewrite int_cells_one. cbn [hd value_of]. unfold ret, with_f.
  cbn [table errors]. rewrite skipn_skipn.
  replace (4 * 1 + off)%nat with (off + 4)%nat by lia. reflexivity.
Qed.

Lemma read32_local_eof (off : nat) t e :
  (length content < off + 4)%nat ->
  read32_local cfg {| f := Some (skipn off content); table := t; errors := e |}
  = GotoFail {| f := Some []; table := t; errors := e |}.
Proof.
  intros H. unfold read32_local.
  destruct (read32_short cfg 1 {| f := Some (skipn off content); table := t; errors := e |}
              (skipn off content) eq_refl) as (cells & Heq).
  { rewrite skipn_length_le. lia. }
  erewrite bind_Normal by exact Heq. reflexivity.
Qed.

Lemma read32_unused_at (n off : nat) t e :
  (off + 4 * n <= length content)%nat ->
  read32_unused cfg n {| f := Some (skipn off content); table := t; errors := e |}
  = Normal tt {| f := Some (skipn (off + 4 * n) content); table := t; errors := e |}.
Proof.
  intros H. unfold read32_unused.
  erewrite bind_Normal
    by (apply read32_enough with (s := skipn off content);
        [reflexivity | rewrite skipn_length_le; lia]).
  cbn [fst]. unfold ret, with_f. cbn [table errors]. rewrite skipn_skipn.
  replace (4 * n + off)%nat with (off + 4 * n)%nat by lia. reflexivity.
Qed.

Lemma read32_unused_eof (n off : nat) t e :
  (0 < n)%nat -> (length content < off + 4 * n)%nat ->
  read32_unused cfg n {| f := Some (skipn off content); table := t; errors := e |}
  = GotoFail {| f := Some []; table := t; errors := e |}.
Proof.
  intros Hn H. unfold read32_unused.
  destruct (read32_short cfg n {| f := Some (skipn off content); table := t; errors := e |}
              (skipn off content) eq_refl) as (cells & Heq).
  { rewrite skipn_length_le. lia. }
  erewrite bind_Normal by exact Heq. reflexivity.
Qed.

Lemma read_member_int_at get set (off : nat) t e :
  (off + 4 <= length content)%nat ->
  read_member (read32 cfg) get set
    {| f := Some (skipn off content); table := t; errors := e |}
  = Normal tt {| f := Some (skipn (off + 4) content);
                 table := set (Some (int_at content off)) t; errors := e |}.
Proof.
  intros H. unfold read_member.
  erewrite bind_Normal
    by (apply read32_enough with (s := skipn off content);
        [reflexivity | rewrite skipn_length_le; lia]).
  cbn [fst snd]. rewrite int_cells_one. unfold bind, modify_table, ret, with_table, with_f.
  cbn [table errors f hd]. rewrite skipn_skipn.
  replace (4 * 1 + off)%nat with (off + 4)%nat by lia. reflexivity.
Qed.

Lemma read_member_int_eof get set (off : nat) t e :
  (length content < off + 4)%nat ->
  exists c,
    read_member (read32 cfg) get set
      {| f := Some (skipn off content); table := t; errors := e |}
    = GotoFail {| f := Some []; table := set c t; errors := e |}.
Proof.
  intros H. unfold read_member.
  destruct (read32_short cfg 1 {| f := Some (skipn off content); table := t; errors := e |}
              (skipn off content) eq_refl) as (cells & Heq).
  { rewrite skipn_length_le. lia. }
  erewrite bind_Normal by exact Heq.
  eexists. reflexivity.
Qed.

Lemma read_member_Float_at get set (off : nat) t e :
  (off + 4 <= length content)%nat ->
  read_member (readfloat cfg) get set
    {| f := Some (skipn off content); table := t; errors := e |}
  = Normal tt {| f := Some (skipn (off + 4) content);
                 table := set (Some (Float_at (Float cfg) content off)) t; errors := e |}.
Proof.
  intros H. unfold read_member.
  erewrite bind_Normal
    by (apply readfloat_enough with (s := skipn off content);
        [reflexivity | rewrite skipn_length_le; lia]).
  cbn [fst snd]. rewrite Float_cells_one. unfold bind, modify_table, ret, with_table, with_f.
  cbn [table errors f hd]. rewrite skipn_skipn.
  replace (4 * 1 + off)%nat with (off + 4)%nat by lia. reflexivity.
Qed.

Lemma read_member_Float_eof get set (off : nat) t e :
  (length content < off + 4)%nat ->
  exists c,
    read_member (readfloat cfg) get set
      {| f := Some (skipn off content); table := t; errors := e |}
    = GotoFail {| f := Some []; table := set c t; errors := e |}.
Proof.
  intros H. unfold read_member.
  destruct (readfloat_short cfg 1 {| f := Some (skipn off content); table := t; errors := e |}
              (skipn off content) eq_refl) as (cells & Heq).
  { rewrite skipn_length_le. lia. }
  erewrite bind_Normal by exact Heq.
  eexists. reflexivity.
Qed.

End Header.


Section HeaderPhase.
Variable cfg : Config.
Variable content : list byte.

Lemma check_magic_run t e :
  check_magic {| f := Some content; table := t; errors := e |}
  = if (8 <=? length content)%nat && memcmp_eq (firstn 8 content) header_exp
    then Normal tt {| f := Some (skipn 8 content); table := t; errors := e |}
    else GotoFail {| f := Some (if (8 <=? length content)%nat then skipn 8 content else []);
                     table := t; errors := e |}.
Proof.
  unfold check_magic, bind, fread. cbn [f].
  destruct (8 <=? length content)%nat eqn:E.
  - apply Nat.leb_le in E.
    rewrite take_elems_enough by lia. cbn [fst].
    rewrite split_elems_length, concat_split_bytes by lia.
    cbn [Nat.eqb negb orb andb].
    destruct (memcmp_eq (firstn 8 content) header_exp); reflexivity.
  - apply Nat.leb_gt in E.
    destruct (take_elems_short 1 8 content ltac:(lia) ltac:(lia)) as (es & p & Heq & Hes).
    rewrite Heq. cbn [fst].
    assert (E' : (length es =? 8)%nat = false) by (apply Nat.eqb_neq; lia).
    rewrite E'. reflexivity.
Qed.

Ltac same_ptrs := unfold same_pointers; cbn; repeat split.

Lemma read_header_whole t e :
  (64 <= length content)%nat ->
  read_header cfg {| f := Some (skipn 8 content); table := t; errors := e |}
  = Normal (header_flags content, header_nCoeffs content, header_nBases content)
      {| f := Some (skipn 64 content);
         table := header_table (Float cfg) content t; errors := e |}.
Proof.
  intros H. unfold read_header.
  rewrite (bind_Normal _ _ _ _ _ (read32_local_at cfg content 8 _ _ ltac:(lia))).
  rewrite (bind_Normal _ _ _ _ _ (read_member_int_at cfg content nMu set_nMu 12 _ _ ltac:(lia))).
  rewrite (bind_Normal _ _ _ _ _ (read32_local_at cfg content 16 _ _ ltac:(lia))).
  rewrite (bind_Normal _ _ _ _ _ (read_member_int_at cfg content mMax set_mMax 20 _ _ ltac:(lia))).
  rewrite (bind_Normal _ _ _ _ _ (read_member_int_at cfg content nChannels set_nChannels 24 _ _ ltac:(lia))).
  rewrite (bind_Normal _ _ _ _ _ (read32_local_at cfg content 28 _ _ ltac:(lia))).
  rewrite (bind_Normal _ _ _ _ _ (read32_unused_at cfg content 3 32 _ _ ltac:(lia))).
  rewrite (bind_Normal _ _ _ _ _ (read_member_Float_at cfg content eta set_eta 44 _ _ ltac:(lia))).
  rewrite (bind_Normal _ _ _ _ _ (read32_unused_at cfg content 4 48 _ _ ltac:(lia))).
  reflexivity.
Qed.

Lemma read_header_truncated t e :
  (length content < 64)%nat ->
  exists s' t',
    read_header cfg {| f := Some (skipn 8 content); table := t; errors := e |}
    = GotoFail {| f := Some s'; table := t'; errors := e |}
    /\ same_pointers t t'.
Proof.
  intros H. unfold read_header.
  destruct (le_lt_dec (8 + 4) (length content)) as [L1|L1];
    [ rewrite (bind_Normal _ _ _ _ _ (read32_local_at cfg content 8 _ _ L1))
    | rewrite (bind_GotoFail _ _ _ _ (read32_local_eof cfg content 8 _ _ L1));
      do 2 eexists; split; [reflexivity | same_ptrs] ].
  destruct (le_lt_dec (12 + 4) (length content)) as [L2|L2];
    [ rewrite (bind_Normal _ _ _ _ _ (read_member_int_at cfg content nMu set_nMu 12 _ _ L2))
    | destruct (read_member_int_eof cfg content nMu set_nMu 12 t e L2) as (c & Hc);
      rewrite (bind_GotoFail _ _ _ _ Hc);
      do 2 eexists; split; [reflexivity | same_ptrs] ].
  destruct (le_lt_dec (16 + 4) (length content)) as [L3|L3];
    [ rewrite (bind_Normal _ _ _ _ _ (read32_local_at cfg content 16 _ _ L3))
    | rewrite (bind_GotoFail _ _ _ _ (read32_local_eof cfg content 16 _ _ L3));
      do 2 eexists; split; [reflexivity | same_ptrs] ].
  destruct (le_lt_dec (20 + 4) (length content)) as [L4|L4];
    [ rewrite (bind_Normal _ _ _ _ _ (read_member_int_at cfg content mMax set_mMax 20 _ _ L4))
    | destruct (read_member_int_eof cfg content mMax set_mMax 20
                  (set_nMu (Some (header_nMu content)) t) e L4) as (c & Hc);
      rewrite (bind_GotoFail _ _ _ _ Hc);
      do 2 eexists; split; [reflexivity | same_ptrs] ].
  destruct (le_lt_dec (24 + 4) (length content)) as [L5|L5];
    [ rewrite (bind_Normal _ _ _ _ _
                 (read_member_int_at cfg content nChannels set_nChannels 24 _ _ L5))
    | destruct (read_member_int_eof cfg content nChannels set_nChannels 24
                  (set_mMax (Some (header_mMax content))
                     (set_nMu (Some (header_nMu content)) t)) e L5) as (c & Hc);
      rewrite (bind_GotoFail _ _ _ _ Hc);
      do 2 eexists; split; [reflexivity | same_ptrs] ].
  destruct (le_lt_dec (28 + 4) (length content)) as [L6|L6];
    [ rewrite (bind_Normal _ _ _ _ _ (read32_local_at cfg content 28 _ _ L6))
    | rewrite (bind_GotoFail _ _ _ _ (read32_local_eof cfg content 28 _ _ L6));
      do 2 eexists; split; [reflexivity | same_ptrs] ].
  destruct (le_lt_dec (32 + 4 * 3) (length content)) as [L7|L7];
    [ rewrite (bind_Normal _ _ _ _ _ (read32_unused_at cfg content 3 32 _ _ L7))
    | rewrite (bind_GotoFail _ _ _ _
                 (read32_unused_eof cfg content 3 32 _ _ ltac:(lia) L7));
      do 2 eexists; split; [reflexivity | same_ptrs] ].
  destruct (le_lt_dec (44 + 4) (length content)) as [L8|L8];
    [ rewrite (bind_Normal _ _ _ _ _
                 (read_member_Float_at cfg content eta set_eta 44 _ _ L8))
    | destruct (read_member_Float_eof cfg content eta set_eta 44
                  (set_nChannels (Some (header_nChannels content))
                     (set_mMax (Some (header_mMax content))
                        (set_nMu (Some (header_nMu content)) t))) e L8) as (c & Hc);
      rewrite (bind_GotoFail _ _ _ _ Hc);
      do 2 eexists; split; [reflexivity | same_ptrs] ].
  rewrite (bind_GotoFail _ _ _ _
             (read32_unused_eof cfg content 4 48 _ _ ltac:(lia) ltac:(lia))).
  do 2 eexists; split; [reflexivity | same_ptrs].
Qed.

Lemma validate_run flags nBases w c :
  nChannels (table w) = Some c ->
  validate flags nBases w
  = if supported flags c nBases then Normal tt w else GotoFail w.
Proof.
  intros H. unfold validate, bind, get_table. rewrite H. cbn [value_of ret].
  unfold supported, goto_fail, ret.
  destruct (flags =? 1), (c =? 1), (c =? 3), (nBases =? 1); reflexivity.
Qed.

End HeaderPhase.


(* ================================================================== *)
(** * Allocation: fourier.cpp:155-161 *)

Lemma int_mul_run (x y : Z) (w : world) :
  int_mul x y w
  = if (INT_MIN <=? x * y) && (x * y <=? INT_MAX) then Normal (x * y) w else Undefined.
Proof.
  unfold int_mul. destruct ((INT_MIN <=? x * y) && (x * y <=? INT_MAX)); reflexivity.
Qed.

Lemma nMu_nMu_run (w : world) (n : Z) :
  nMu (table w) = Some n ->
  nMu_nMu w
  = if (INT_MIN <=? n * n) && (n * n <=? INT_MAX) then Normal (n * n) w else Undefined.
Proof.
  intros H. unfold nMu_nMu, bind, get_table. rewrite H. cbn [value_of ret].
  apply int_mul_run.
Qed.

Lemma allocate_run (nCoeffs : Z) (w : world) (n : Z) :
  nMu (table w) = Some n ->
  allocate nCoeffs w
  = if n <? 0 then Throw bad_array_new_length w
    else if n * n * 2 <=? INT_MAX then
      if nCoeffs <? 0
      then Throw bad_array_new_length (with_table (allocated5 n (table w)) w)
      else Normal (repeat None (Z.to_nat (n * n * 2)))
             (with_table (allocated n nCoeffs (table w)) w)
    else Undefined.
Proof.
  intros H. unfold allocate.
  unfold bind at 1. unfold get_table at 1.
  unfold bind at 1. rewrite H. cbn [value_of ret].
  unfold alloc_member at 1. unfold bind at 1. unfold bind at 1.
  unfold new_array at 1.
  destruct (n <? 0) eqn:En; [reflexivity|].
  apply Z.ltb_ge in En.
  cbn [ret modify_table].
  unfold bind at 1.
  rewrite (nMu_nMu_run _ n) by exact H.
  assert (Hmin : (INT_MIN <=? n * n) = true) by (apply Z.leb_le; unfold INT_MIN; nia).
  rewrite Hmin. cbn [andb].
  destruct (n * n <=? INT_MAX) eqn:E1.
  2:{ apply Z.leb_gt in E1.
      assert (E2 : (n * n * 2 <=? INT_MAX) = false) by (apply Z.leb_gt; lia).
      now rewrite E2. }
  apply Z.leb_le in E1.
  assert (Enn : (n * n <? 0) = false) by (apply Z.ltb_ge; nia).
  unfold alloc_member at 1. unfold bind at 1. unfold bind at 1.
  unfold new_array at 1. rewrite Enn. cbn [ret modify_table].
  unfold bind at 1.
  rewrite (nMu_nMu_run _ n) by exact H. rewrite Hmin.
  replace (n * n <=? INT_MAX) with true by (symmetry; apply Z.leb_le; exact E1).
  cbn [andb].
  unfold alloc_member at 1. unfold bind at 1. unfold bind at 1.
  unfold new_array at 1. rewrite Enn. cbn [ret modify_table].
  unfold bind at 1.
  rewrite (nMu_nMu_run _ n) by exact H. rewrite Hmin.
  replace (n * n <=? INT_MAX) with true by (symmetry; apply Z.leb_le; exact E1).
  cbn [andb].
  unfold bind at 1. rewrite int_mul_run.
  assert (Hmin2 : (INT_MIN <=? n * n * 2) = true) by (apply Z.leb_le; unfold INT_MIN; nia).
  rewrite Hmin2. cbn [andb].
  destruct (n * n * 2 <=? INT_MAX) eqn:E2; [|reflexivity].
  unfold bind at 1. unfold new_array at 1.
  assert (Enn2 : (n * n * 2 <? 0) = false) by (apply Z.ltb_ge; nia).
  rewrite Enn2. cbn [ret].
  unfold bind at 1.
  rewrite (nMu_nMu_run _ n) by exact H. rewrite Hmin.
  replace (n * n <=? INT_MAX) with true by (symmetry; apply Z.leb_le; exact E1).
  cbn [andb].
  unfold alloc_member at 1. unfold bind at 1. unfold bind at 1.
  unfold new_array at 1. rewrite Enn. cbn [ret modify_table].
  unfold bind at 1.
  rewrite (nMu_nMu_run _ n) by exact H. rewrite Hmin.
  replace (n * n <=? INT_MAX) with true by (symmetry; apply Z.leb_le; exact E1).
  cbn [andb].
  unfold alloc_member at 1. unfold bind at 1. unfold bind at 1.
  unfold new_array at 1. rewrite Enn. cbn [ret modify_table].
  unfold bind at 1.
  unfold alloc_member at 1. unfold bind at 1.
  unfold new_array at 1.
  destruct (nCoeffs <? 0); reflexivity.
Qed.


(* ================================================================== *)
(** * The data sections: fourier.cpp:163-167 *)

Lemma to_size_t_small (n : Z) : 0 <= n <= INT_MAX -> to_size_t n = Z.to_nat n.
Proof.
  intros H. unfold to_size_t. rewrite Z.mod_small; [reflexivity|].
  unfold INT_MAX in H. lia.
Qed.

Lemma overwrite_all (new old : list cell) :
  length old = length new -> overwrite new old = new.
Proof.
  intros H. unfold overwrite. rewrite skipn_all2 by lia. apply app_nil_r.
Qed.

Lemma overwrite_length (new old : list cell) :
  (length new <= length old)%nat -> length (overwrite new old) = length old.
Proof.
  intros H. unfold overwrite. rewrite length_app, length_skipn. lia.
Qed.

Section Sections.
Variable cfg : Config.
Variable content : list byte.

Lemma read_array_Float_at get set (off : nat) (count : Z) t e arr :
  get t = Some arr -> length arr = Z.to_nat count -> 0 <= count <= INT_MAX ->
  (off + 4 * Z.to_nat count <= length content)%nat ->
  read_array (readfloat cfg) get set count
    {| f := Some (skipn off content); table := t; errors := e |}
  = Normal tt
      {| f := Some (skipn (off + 4 * Z.to_nat count) content);
         table := set (Some (Float_cells (Float cfg) (Z.to_nat count) (skipn off content))) t;
         errors := e |}.
Proof.
  intros Hget Hlen Hc Hoff. unfold read_array.
  unfold bind at 1. unfold get_table at 1. cbn [table].
  unfold bind at 1. rewrite Hget. cbn [deref ret].
  rewrite to_size_t_small by exact Hc.
  erewrite bind_Normal
    by (apply readfloat_enough with (s := skipn off content);
        [reflexivity | rewrite length_skipn; lia]).
  cbn [fst snd].
  rewrite overwrite_all by (rewrite Float_cells_length; exact Hlen).
  unfold bind, modify_table, ret, with_table, with_f. cbn [table errors f].
  rewrite skipn_skipn.
  replace (4 * Z.to_nat count + off)%nat with (off + 4 * Z.to_nat count)%nat by lia.
  reflexivity.
Qed.

Lemma read_array_Float_eof get set (off : nat) (count : Z) t e arr :
  get t = Some arr -> 0 <= count <= INT_MAX ->
  (off <= length content)%nat ->
  (length content < off + 4 * Z.to_nat count)%nat ->
  exists cells,
    read_array (readfloat cfg) get set count
      {| f := Some (skipn off content); table := t; errors := e |}
    = GotoFail {| f := Some []; table := set (Some cells) t; errors := e |}.
Proof.
  intros Hget Hc Hle Hoff. unfold read_array.
  unfold bind at 1. unfold get_table at 1. cbn [table].
  unfold bind at 1. rewrite Hget. cbn [deref ret].
  rewrite to_size_t_small by exact Hc.
  assert (Hpos : (0 < Z.to_nat count)%nat) by lia.
  destruct (readfloat_short cfg (Z.to_nat count)
              {| f := Some (skipn off content); table := t; errors := e |}
              (skipn off content) eq_refl) as (cells & Heq).
  { rewrite length_skipn. lia. }
  erewrite bind_Normal by exact Heq.
  eexists. reflexivity.
Qed.

Ltac solve_side :=
  first [ reflexivity | assumption | lia
        | apply repeat_length
        | unfold INT_MAX in *; nia ].

Lemma read_sections_whole (n nCoeffs : Z) th e :
  nMu th = Some n -> 0 <= n -> n * n * 2 <= INT_MAX -> 0 <= nCoeffs <= INT_MAX ->
  (off_end n nCoeffs <= length content)%nat ->
  read_sections cfg nCoeffs (repeat None (Z.to_nat (n * n * 2)))
    {| f := Some (skipn off_mu content); table := allocated n nCoeffs th; errors := e |}
  = Normal (pairs_read content n)
      {| f := Some (skipn (off_end n nCoeffs) content);
         table := sections_table (Float cfg) content n nCoeffs (allocated n nCoeffs th);
         errors := e |}.
Proof.
  intros Hn Hn0 Hnn HnC Hend.
  unfold off_end, off_a, off_pairs, off_cdf in Hend.
  assert (Hsq : 0 <= n * n <= INT_MAX) by (unfold INT_MAX in *; nia).
  assert (Hn1 : 0 <= n <= INT_MAX) by (unfold INT_MAX in *; nia).
  assert (Hmin : (INT_MIN <=? n * n) = true) by (apply Z.leb_le; unfold INT_MIN; lia).
  assert (Hmax : (n * n <=? INT_MAX) = true) by (apply Z.leb_le; lia).
  assert (Hmin2 : (INT_MIN <=? n * n * 2) = true) by (apply Z.leb_le; unfold INT_MIN; lia).
  assert (Hmax2 : (n * n * 2 <=? INT_MAX) = true) by (apply Z.leb_le; lia).
  unfold read_sections.
  unfold bind at 1. unfold get_table at 1. cbn [table].
  unfold bind at 1.
  replace (nMu (allocated n nCoeffs th)) with (Some n) by (symmetry; exact Hn).
  cbn [value_of ret].
  erewrite bind_Normal
    by (eapply (read_array_Float_at mu set_mu off_mu n); solve_side).
  erewrite bind_Normal
    by (rewrite (nMu_nMu_run _ n) by exact Hn; rewrite Hmin, Hmax; reflexivity).
  erewrite bind_Normal
    by (eapply (read_array_Float_at cdf set_cdf _ (n * n)); solve_side).
  erewrite bind_Normal
    by (rewrite (nMu_nMu_run _ n) by exact Hn; rewrite Hmin, Hmax; reflexivity).
  erewrite bind_Normal
    by (rewrite int_mul_run, Hmin2, Hmax2; reflexivity).
  rewrite to_size_t_small by lia.
  erewrite bind_Normal
    by (apply read32_enough with (s := skipn (off_mu + 4 * Z.to_nat n + 4 * Z.to_nat (n * n)) content);
        [reflexivity | rewrite length_skipn; lia]).
  cbn [fst snd].
  rewrite overwrite_all by (rewrite int_cells_length; apply repeat_length).
  erewrite bind_Normal by reflexivity.
  unfold with_f. cbn [table errors]. rewrite skipn_skipn.
  erewrite bind_Normal.
  2:{ eapply (read_array_Float_at a set_a
                (4 * Z.to_nat (n * n * 2) + (off_mu + 4 * Z.to_nat n + 4 * Z.to_nat (n * n)))
                nCoeffs); solve_side. }
  unfold ret, sections_table, pairs_read, off_end, off_a, off_pairs, off_cdf.
  replace (4 * Z.to_nat (n * n * 2) + (off_mu + 4 * Z.to_nat n + 4 * Z.to_nat (n * n)))%nat
    with (off_mu + 4 * Z.to_nat n + 4 * Z.to_nat (n * n) + 4 * Z.to_nat (n * n * 2))%nat by lia.
  reflexivity.
Qed.

Ltac fail_facts :=
  do 2 eexists; split; [reflexivity|];
  split; [unfold same_scalars; cbn; repeat split|];
  split; [unfold arrays_allocated, nullptr, fresh; cbn; repeat split; discriminate|];
  reflexivity.

Lemma read_sections_truncated (n nCoeffs : Z) th e :
  nMu th = Some n -> 0 <= n -> n * n * 2 <= INT_MAX -> 0 <= nCoeffs <= INT_MAX ->
  (off_mu <= length content)%nat ->
  (length content < off_end n nCoeffs)%nat ->
  exists s' t',
    read_sections cfg nCoeffs (repeat None (Z.to_nat (n * n * 2)))
      {| f := Some (skipn off_mu content); table := allocated n nCoeffs th; errors := e |}
    = GotoFail {| f := Some s'; table := t'; errors := e |}
    /\ same_scalars (allocated n nCoeffs th) t'
    /\ arrays_allocated t'
    /\ recip t' = recip th.
Proof.
  intros Hn Hn0 Hnn HnC Hhdr Hend.
  unfold off_end, off_a, off_pairs, off_cdf in Hend.
  assert (Hsq : 0 <= n * n <= INT_MAX) by (unfold INT_MAX in *; nia).
  assert (Hn1 : 0 <= n <= INT_MAX) by (unfold INT_MAX in *; nia).
  assert (Hmin : (INT_MIN <=? n * n) = true) by (apply Z.leb_le; unfold INT_MIN; lia).
  assert (Hmax : (n * n <=? INT_MAX) = true) by (apply Z.leb_le; lia).
  assert (Hmin2 : (INT_MIN <=? n * n * 2) = true) by (apply Z.leb_le; unfold INT_MIN; lia).
  assert (Hmax2 : (n * n * 2 <=? INT_MAX) = true) by (apply Z.leb_le; lia).
  unfold read_sections.
  unfold bind at 1. unfold get_table at 1. cbn [table].
  unfold bind at 1.
  replace (nMu (allocated n nCoeffs th)) with (Some n) by (symmetry; exact Hn).
  cbn [value_of ret].
  (* mu *)
  destruct (le_lt_dec (off_mu + 4 * Z.to_nat n) (length content)) as [L1|L1].
  2:{ destruct (read_array_Float_eof mu set_mu off_mu n (allocated n nCoeffs th) e
                  (repeat None (Z.to_nat n)) eq_refl Hn1 Hhdr L1) as (cells & Hc).
      rewrite (bind_GotoFail _ _ _ _ Hc). fail_facts. }
  erewrite bind_Normal
    by (eapply (read_array_Float_at mu set_mu off_mu n); solve_side).
  erewrite bind_Normal
    by (rewrite (nMu_nMu_run _ n) by exact Hn; rewrite Hmin, Hmax; reflexivity).
  (* cdf *)
  destruct (le_lt_dec (off_mu + 4 * Z.to_nat n + 4 * Z.to_nat (n * n)) (length content))
    as [L2|L2].
  2:{ match goal with
      | |- context [bind (read_array _ cdf set_cdf _) _ {| f := _; table := ?t; errors := _ |}] =>
          destruct (read_array_Float_eof cdf set_cdf (off_mu + 4 * Z.to_nat n) (n * n) t e
                      (repeat None (Z.to_nat (n * n))) eq_refl Hsq L1 L2) as (cells & Hc)
      end.
      rewrite (bind_GotoFail _ _ _ _ Hc). fail_facts. }
  erewrite bind_Normal
    by (eapply (read_array_Float_at cdf set_cdf _ (n * n)); solve_side).
  erewrite bind_Normal
    by (rewrite (nMu_nMu_run _ n) by exact Hn; rewrite Hmin, Hmax; reflexivity).
  erewrite bind_Normal
    by (rewrite int_mul_run, Hmin2, Hmax2; reflexivity).
  rewrite to_size_t_small by lia.
  (* offsetAndLength *)
  destruct (le_lt_dec (off_mu + 4 * Z.to_nat n + 4 * Z.to_nat (n * n)
                       + 4 * Z.to_nat (n * n * 2)) (length content)) as [L3|L3].
  2:{ match goal with
      | |- context [read32 cfg ?c] =>
          match goal with
          | |- context [bind (read32 cfg c) ?k ?w] =>
              destruct (read32_short cfg c w
                          (skipn (off_mu + 4 * Z.to_nat n + 4 * Z.to_nat (n * n)) content)
                          eq_refl) as (cells & Hc);
                [rewrite length_skipn; lia|]
          end
      end.
      erewrite bind_Normal by exact Hc. cbn [fst snd].
      erewrite bind_GotoFail by reflexivity. fail_facts. }
  erewrite bind_Normal
    by (apply read32_enough with (s := skipn (off_mu + 4 * Z.to_nat n + 4 * Z.to_nat (n * n)) content);
        [reflexivity | rewrite length_skipn; lia]).
  cbn [fst snd].
  rewrite overwrite_all by (rewrite int_cells_length; apply repeat_length).
  erewrite bind_Normal by reflexivity.
  unfold with_f. cbn [table errors]. rewrite skipn_skipn.
  (* a *)
  match goal with
  | |- context [bind (read_array _ a set_a _) _ {| f := _; table := ?t; errors := _ |}] =>
      destruct (read_array_Float_eof a set_a
                  (4 * Z.to_nat (n * n * 2) + (off_mu + 4 * Z.to_nat n + 4 * Z.to_nat (n * n)))
                  nCoeffs t e
                  (repeat None (Z.to_nat nCoeffs)) eq_refl HnC ltac:(lia) ltac:(lia))
        as (cells & Hc)
  end.
  rewrite (bind_GotoFail _ _ _ _ Hc). fail_facts.
Qed.

End Sections.


(* ================================================================== *)
(** * Arrays *)

Lemma update_length (arr : array) (i : nat) (c : cell) :
  length (update arr i c) = length arr.
Proof.
  revert i. induction arr as [|x arr IH]; intros [|i]; simpl; auto.
Qed.

Lemma nth_update_eq (arr : array) (i : nat) (c : cell) :
  (i < length arr)%nat -> nth i (update arr i c) None = c.
Proof.
  revert i. induction arr as [|x arr IH]; intros [|i] H; simpl in *; try lia; auto.
  apply IH. lia.
Qed.

Lemma nth_update_neq (arr : array) (i k : nat) (c : cell) :
  k <> i -> nth k (update arr i c) None = nth k arr None.
Proof.
  revert i k. induction arr as [|x arr IH]; intros [|i] [|k] H; simpl; auto; try lia.
Qed.

Lemma in_bounds_spec (arr : array) (i : Z) :
  in_bounds arr i = true <-> 0 <= i < Z.of_nat (length arr).
Proof. unfold in_bounds. rewrite andb_true_iff, Z.leb_le, Z.ltb_lt. tauto. Qed.

Lemma elem_in_bounds (arr : array) (i : Z) :
  in_bounds arr i = true -> elem (Some arr) i = nth (Z.to_nat i) arr None.
Proof. intros H. unfold elem. unfold in_bounds in H. now rewrite H. Qed.

Lemma elem_update_eq (arr : array) (i : Z) (c : cell) :
  in_bounds arr i = true -> elem (Some (update arr (Z.to_nat i) c)) i = c.
Proof.
  intros H. rewrite elem_in_bounds.
  - apply nth_update_eq. apply in_bounds_spec in H. lia.
  - apply in_bounds_spec. rewrite update_length. now apply in_bounds_spec.
Qed.

Lemma elem_update_neq (arr : array) (i k : Z) (c : cell) :
  0 <= i -> k <> i -> elem (Some (update arr (Z.to_nat i) c)) k = elem (Some arr) k.
Proof.
  intros Hi H. unfold elem. rewrite update_length.
  destruct ((0 <=? k) && (k <? Z.of_nat (length arr))) eqn:E; [|reflexivity].
  apply andb_true_iff in E. destruct E as [E1 E2]. apply Z.leb_le in E1.
  apply nth_update_neq. lia.
Qed.

Lemma extent_update (arr : array) (i : nat) (c : cell) :
  extent (Some (update arr i c)) = extent (Some arr).
Proof. unfold extent. now rewrite update_length. Qed.

Lemma elem_Some_in_bounds (p : ptr) (i v : Z) :
  elem p i = Some v -> exists n, extent p = Some n /\ 0 <= i < n.
Proof.
  destruct p as [arr|]; [|discriminate]. unfold elem, extent.
  destruct ((0 <=? i) && (i <? Z.of_nat (length arr))) eqn:E; [|discriminate].
  intros _. eexists. split; [reflexivity|].
  apply andb_true_iff in E. rewrite Z.leb_le, Z.ltb_lt in E. exact E.
Qed.

(* ================================================================== *)
(** * Inversion of normal runs *)

Lemma bind_inv {A B} (c : M A) (k : A -> M B) w y w' :
  bind c k w = Normal y w' ->
  exists x w1, c w = Normal x w1 /\ k x w1 = Normal y w'.
Proof.
  unfold bind. destruct (c w) as [x w1| | |]; try discriminate.
  intros H. eauto.
Qed.

Lemma value_of_inv (c : cell) w v w' :
  value_of c w = Normal v w' -> c = Some v /\ w' = w.
Proof.
  destruct c; cbn; unfold ret, undefined; intros H; inversion H; auto.
Qed.

Lemma load_inv (arr : array) (i : Z) w c w' :
  load arr i w = Normal c w' ->
  in_bounds arr i = true /\ c = elem (Some arr) i /\ w' = w.
Proof.
  unfold load. destruct (in_bounds arr i) eqn:E; unfold ret, undefined;
    intros H; inversion H; subst.
  rewrite elem_in_bounds by exact E. auto.
Qed.

Lemma store_member_inv get set (i : Z) (c : cell) w u w' :
  store_member get set i c w = Normal u w' ->
  exists arr, get (table w) = Some arr /\ in_bounds arr i = true
    /\ w' = with_table (set (Some (update arr (Z.to_nat i) c)) (table w)) w.
Proof.
  unfold store_member, bind, get_table, deref, store, modify_table, ret, undefined.
  destruct (get (table w)) as [arr|]; [|discriminate].
  destruct (in_bounds arr i) eqn:E; [|discriminate].
  intros H. inversion H. eauto.
Qed.

Tactic Notation "inv_bind" hyp(H) "as" ident(x) ident(w1) ident(H1) :=
  apply bind_inv in H; destruct H as (x & w1 & H1 & H).

(** Projections of updated tables and worlds. *)
Ltac proj_simpl :=
  cbn [eta mMax nChannels nMu mu m aOffset a a0 cdf recip
       set_eta set_mMax set_nChannels set_nMu set_mu set_m set_aOffset set_a
       set_a0 set_cdf set_recip f table errors with_f with_table with_errors].

Tactic Notation "proj_simpl" "in" hyp(H) :=
  cbn [eta mMax nChannels nMu mu m aOffset a a0 cdf recip
       set_eta set_mMax set_nChannels set_nMu set_mu set_m set_aOffset set_a
       set_a0 set_cdf set_recip f table errors with_f with_table with_errors] in H.


(* ================================================================== *)
(** * The two loops: fourier.cpp:169-181 *)

Section Loops.
Variable cfg : Config.

Lemma derive_frame_refl t : derive_frame t t.
Proof. repeat split. Qed.

Lemma derive_frame_trans t1 t2 t3 :
  derive_frame t1 t2 -> derive_frame t2 t3 -> derive_frame t1 t3.
Proof.
  unfold derive_frame, same_scalars.
  intros ((?&?&?&?)&?&?&?&?&?&?&?) ((?&?&?&?)&?&?&?&?&?&?&?).
  repeat split; congruence.
Qed.

Lemma pair_derived_preserved r ol t t' k :
  a t' = a t -> same_pair t t' k -> pair_derived r ol t k -> pair_derived r ol t' k.
Proof.
  intros Ha (E1 & E2 & E3) (off & len & H1 & H2 & H3 & H4 & H5 & H6).
  exists off, len. rewrite E1, E2, E3, Ha. auto 10.
Qed.

Lemma derive_pair_step (ol : array) (i : Z) w w' :
  0 <= i ->
  derive_pair cfg ol i w = Normal tt w' ->
  f w' = f w /\ errors w' = errors w /\ derive_frame (table w) (table w')
  /\ (forall k, k <> i -> same_pair (table w) (table w') k)
  /\ pair_derived (Float cfg) ol (table w') i.
Proof.
  intros Hi H. unfold derive_pair in H.
  inv_bind H as c1 w1 R1. apply load_inv in R1. destruct R1 as (Hb1 & -> & ->).
  inv_bind H as off w2 R2. apply value_of_inv in R2. destruct R2 as (Hoff & ->).
  inv_bind H as c2 w3 R3. apply load_inv in R3. destruct R3 as (Hb2 & -> & ->).
  inv_bind H as len w4 R4. apply value_of_inv in R4. destruct R4 as (Hlen & ->).
  inv_bind H as u1 w5 R5. apply store_member_inv in R5.
  destruct R5 as (ao & Hao & Bao & ->).
  inv_bind H as u2 w6 R6. apply store_member_inv in R6. cbn [table with_table] in R6.
  destruct R6 as (am & Ham & Bam & ->). proj_simpl in Ham.
  inv_bind H as v w7 R7.
  apply store_member_inv in H.
  assert (Hv : w7 = with_table
                      (set_m (Some (update am (Z.to_nat i) (Some len)))
                         (set_aOffset (Some (update ao (Z.to_nat i) (Some off))) (table w)))
                      (with_table
                         (set_aOffset (Some (update ao (Z.to_nat i) (Some off))) (table w)) w)
               /\ ((0 < len ->
                    (exists n, extent (a (table w)) = Some n /\ 0 <= off < n)
                    /\ v = elem (a (table w)) off)
                   /\ (len <= 0 -> v = Some (IEEE.of_int (Float_format (Float cfg)) 0)))).
  { destruct (0 <? len) eqn:E.
    - apply Z.ltb_lt in E.
      inv_bind R7 as t8 w8 R8. unfold get_table in R8. inversion R8; subst t8 w8. clear R8.
      cbn [table with_table a set_m set_aOffset] in R7.
      inv_bind R7 as aa w9 R9.
      destruct (a (table w)) as [arr|] eqn:Ha; [|discriminate].
      cbn in R9. unfold ret in R9. inversion R9; subst aa w9. clear R9.
      apply load_inv in R7. destruct R7 as (Hb & -> & ->).
      split; [reflexivity|]. split; [|lia].
      intros _. split; [|reflexivity].
      exists (Z.of_nat (length arr)). split; [reflexivity|]. now apply in_bounds_spec.
    - apply Z.ltb_ge in E. unfold ret in R7. inversion R7; subst.
      split; [reflexivity|]. split; [lia|]. intros _. reflexivity. }
  destruct Hv as (-> & Hv1 & Hv2).
  cbn [table with_table] in H.
  destruct H as (az & Haz & Baz & ->). proj_simpl in Haz.
  cbn [f errors table with_table].
  split; [reflexivity|]. split; [reflexivity|].
  split.
  { unfold derive_frame, same_scalars. proj_simpl.
    rewrite Hao, Ham, Haz, !extent_update. repeat split. }
  split.
  { intros k Hk. unfold same_pair. proj_simpl.
    rewrite Hao, Ham, Haz, !elem_update_neq by assumption. repeat split. }
  exists off, len. proj_simpl.
  rewrite !elem_update_eq by assumption.
  split; [exact Hoff|]. split; [exact Hlen|].
  split; [reflexivity|]. split; [reflexivity|].
  split; assumption.
Qed.

Lemma derive_loop (ol : array) (cnt : nat) :
  forall (i : Z) w w',
    0 <= i ->
    for_loop cnt i (derive_pair cfg ol) w = Normal tt w' ->
    f w' = f w /\ errors w' = errors w /\ derive_frame (table w) (table w')
    /\ (forall k, ~ (i <= k < i + Z.of_nat cnt) -> same_pair (table w) (table w') k)
    /\ (forall k, i <= k < i + Z.of_nat cnt -> pair_derived (Float cfg) ol (table w') k).
Proof.
  induction cnt as [|cnt IH]; intros i w w' Hi H.
  - cbn in H. inversion H; subst.
    repeat split; try reflexivity. intros k Hk. lia.
  - cbn [for_loop] in H. inv_bind H as u w1 Hrun. destruct u.
    apply derive_pair_step in Hrun; [|exact Hi].
    destruct Hrun as (Hf1 & He1 & Hfr1 & Hsame1 & Hpair1).
    apply IH in H; [|lia].
    destruct H as (Hf2 & He2 & Hfr2 & Hsame2 & Hpair2).
    split; [congruence|]. split; [congruence|].
    split; [eapply derive_frame_trans; eassumption|].
    split.
    + intros k Hk.
      destruct (Hsame1 k ltac:(lia)) as (A1 & A2 & A3).
      destruct (Hsame2 k ltac:(lia)) as (B1 & B2 & B3).
      unfold same_pair. repeat split; congruence.
    + intros k Hk. destruct (Z.eq_dec k i) as [->|Hne].
      * eapply pair_derived_preserved; [| |exact Hpair1].
        -- apply Hfr2.
        -- apply Hsame2. lia.
      * apply Hpair2. lia.
Qed.

Lemma reciprocal_step (i : Z) w w' :
  0 <= i ->
  reciprocal cfg i w = Normal tt w' ->
  f w' = f w /\ errors w' = errors w /\ reciprocals_frame (table w) (table w')
  /\ extent (recip (table w')) = extent (recip (table w))
  /\ (forall k, k <> i -> elem (recip (table w')) k = elem (recip (table w)) k)
  /\ elem (recip (table w')) i = Some (reciprocal_of (Float cfg) i).
Proof.
  intros Hi H. unfold reciprocal in H.
  apply store_member_inv in H. destruct H as (ar & Har & Bar & ->).
  unfold reciprocals_frame, same_scalars. proj_simpl. rewrite Har, extent_update.
  repeat split.
  - intros k Hk. now apply elem_update_neq.
  - now apply elem_update_eq.
Qed.

Lemma reciprocals_frame_trans t1 t2 t3 :
  reciprocals_frame t1 t2 -> reciprocals_frame t2 t3 -> reciprocals_frame t1 t3.
Proof.
  unfold reciprocals_frame, same_scalars.
  intros ((?&?&?&?)&?&?&?&?&?&?) ((?&?&?&?)&?&?&?&?&?&?).
  repeat split; congruence.
Qed.

Lemma reciprocal_loop (cnt : nat) :
  forall (i : Z) w w',
    0 <= i ->
    for_loop cnt i (reciprocal cfg) w = Normal tt w' ->
    f w' = f w /\ errors w' = errors w /\ reciprocals_frame (table w) (table w')
    /\ extent (recip (table w')) = extent (recip (table w))
    /\ (forall k, ~ (i <= k < i + Z.of_nat cnt) ->
          elem (recip (table w')) k = elem (recip (table w)) k)
    /\ (forall k, i <= k < i + Z.of_nat cnt ->
          elem (recip (table w')) k = Some (reciprocal_of (Float cfg) k)).
Proof.
  induction cnt as [|cnt IH]; intros i w w' Hi H.
  - cbn in H. inversion H; subst.
    repeat split; try reflexivity. intros k Hk. lia.
  - cbn [for_loop] in H. inv_bind H as u w1 Hrun. destruct u.
    apply reciprocal_step in Hrun; [|exact Hi].
    destruct Hrun as (Hf1 & He1 & Hfr1 & Hx1 & Hsame1 & Hi1).
    apply IH in H; [|lia].
    destruct H as (Hf2 & He2 & Hfr2 & Hx2 & Hsame2 & Hk2).
    split; [congruence|]. split; [congruence|].
    split; [eapply reciprocals_frame_trans; eassumption|].
    split; [congruence|].
    split.
    + intros k Hk. rewrite Hsame2 by lia. apply Hsame1. lia.
    + intros k Hk. destruct (Z.eq_dec k i) as [->|Hne].
      * rewrite Hsame2 by lia. exact Hi1.
      * apply Hk2. lia.
Qed.

End Loops.


(* ================================================================== *)
(** * The loops neither jump nor throw *)

Lemma quiet_bind {A B} (c : M A) (k : A -> M B) w :
  quiet (c w) -> (forall x w1, c w = Normal x w1 -> quiet (k x w1)) ->
  quiet (bind c k w).
Proof.
  unfold bind. destruct (c w) as [x w1| | |]; cbn; auto.
Qed.

Lemma quiet_value_of c w : quiet (value_of c w).
Proof. destruct c; exact I. Qed.

Lemma quiet_load arr i w : quiet (load arr i w).
Proof. unfold load. destruct (in_bounds arr i); exact I. Qed.

Lemma quiet_store_member get set i c w : quiet (store_member get set i c w).
Proof.
  unfold store_member, bind, get_table, deref, store, modify_table, ret, undefined.
  destruct (get (table w)) as [arr|]; [|exact I].
  destruct (in_bounds arr i); exact I.
Qed.

Lemma quiet_derive_pair cfg ol i w : quiet (derive_pair cfg ol i w).
Proof.
  unfold derive_pair.
  apply quiet_bind; [apply quiet_load|intros c1 w1 _].
  apply quiet_bind; [apply quiet_value_of|intros offset w2 _].
  apply quiet_bind; [apply quiet_load|intros c2 w3 _].
  apply quiet_bind; [apply quiet_value_of|intros len w4 _].
  apply quiet_bind; [apply quiet_store_member|intros u1 w5 _].
  apply quiet_bind; [apply quiet_store_member|intros u2 w6 _].
  apply quiet_bind; [|intros; apply quiet_store_member].
  destruct (0 <? len); [|exact I].
  apply quiet_bind; [exact I|intros t w7 _].
  apply quiet_bind; [|intros; apply quiet_load].
  unfold deref. destruct (a t); exact I.
Qed.

Lemma quiet_for_loop (body : Z -> M unit) :
  (forall i w, quiet (body i w)) ->
  forall cnt i w, quiet (for_loop cnt i body w).
Proof.
  intros Hb. induction cnt as [|cnt IH]; intros i w; cbn [for_loop]; [exact I|].
  apply quiet_bind; [apply Hb|intros; apply IH].
Qed.

Lemma quiet_int_mul x y w : quiet (int_mul x y w).
Proof. rewrite int_mul_run. destruct (_ && _); exact I. Qed.

Lemma quiet_derive cfg ol w : quiet (derive cfg ol w).
Proof.
  unfold derive. apply quiet_bind.
  - unfold nMu_nMu. apply quiet_bind; [exact I|intros].
    apply quiet_bind; [apply quiet_value_of|intros; apply quiet_int_mul].
  - intros. apply quiet_for_loop. intros. apply quiet_derive_pair.
Qed.

(* ================================================================== *)
(** * The tail of the body: fourier.cpp:169-181 *)

Section Tail.
Variable cfg : Config.

Lemma derive_Normal (ol : array) (n : Z) w w' :
  nMu (table w) = Some n -> 0 <= n ->
  derive cfg ol w = Normal tt w' ->
  f w' = f w /\ errors w' = errors w /\ derive_frame (table w) (table w')
  /\ (forall k, 0 <= k < n * n -> pair_derived (Float cfg) ol (table w') k).
Proof.
  intros Hn Hn0 H. unfold derive in H.
  inv_bind H as nn w1 R. rewrite (nMu_nMu_run _ n Hn) in R.
  destruct ((INT_MIN <=? n * n) && (n * n <=? INT_MAX)); [|discriminate].
  inversion R; subst nn w1. clear R.
  apply derive_loop in H; [|lia].
  destruct H as (Hf & He & Hfr & _ & Hp).
  repeat split; try assumption; try apply Hfr.
  intros k Hk. apply Hp. rewrite Z2Nat.id by nia. lia.
Qed.

Lemma reciprocals_run (mx : Z) w :
  mMax (table w) = Some mx ->
  match reciprocals cfg w with
  | Normal _ w' =>
      0 <= mx /\ f w' = f w /\ errors w' = errors w
      /\ reciprocals_frame (table w) (table w')
      /\ extent (recip (table w')) = Some mx
      /\ (forall k, 0 <= k < mx -> elem (recip (table w')) k = Some (reciprocal_of (Float cfg) k))
  | GotoFail _ => False
  | Throw e w' => mx < 0 /\ w' = w
  | Undefined => True
  end.
Proof.
  intros Hmx. unfold reciprocals.
  unfold bind at 1. unfold get_table at 1.
  unfold bind at 1. rewrite Hmx. cbn [value_of ret].
  unfold bind at 1. unfold alloc_member, bind, new_array.
  destruct (mx <? 0) eqn:E.
  - apply Z.ltb_lt in E. cbn. auto.
  - apply Z.ltb_ge in E. cbn [ret modify_table].
    pose proof (quiet_for_loop (reciprocal cfg)
                  (fun i w => quiet_store_member recip set_recip i _ w)
                  (Z.to_nat mx) 0
                  (with_table (set_recip (Some (repeat None (Z.to_nat mx))) (table w)) w)) as Hq.
    destruct (for_loop (Z.to_nat mx) 0 (reciprocal cfg) _) as [u w'| | |] eqn:Hl;
      try exact I; try contradiction.
    destruct u. apply reciprocal_loop in Hl; [|lia].
    destruct Hl as (Hf & He & Hfr & Hx & _ & Hk).
    proj_simpl in Hf. proj_simpl in He. proj_simpl in Hx. proj_simpl in Hfr.
    split; [exact E|]. split; [exact Hf|]. split; [exact He|].
    split; [exact Hfr|].
    split.
    + rewrite Hx. unfold extent. rewrite repeat_length, Z2Nat.id by lia. reflexivity.
    + intros k Hk'. apply Hk. rewrite Z2Nat.id by lia. lia.
Qed.

End Tail.


(* ================================================================== *)
(** * Every run of the body, by cases *)

Lemma extent_fresh (n : Z) : 0 <= n -> extent (fresh n) = Some n.
Proof.
  intros H. unfold extent, fresh. rewrite repeat_length, Z2Nat.id by lia. reflexivity.
Qed.

Section Body.
Variable cfg : Config.
Variable content : list byte.

Lemma Read_body_cases t e :
  match Read_body cfg {| f := Some content; table := t; errors := e |} with
  | Normal _ w' =>
      header_ok content = true /\ header_supported content = true
      /\ f w' <> None /\ errors w' = e
      /\ loaded (Float cfg) content (table w')
  | GotoFail w' =>
      f w' <> None /\ errors w' = e
      /\ ((header_ok content = false /\ same_pointers t (table w'))
          \/ (header_ok content = true /\ header_supported content = false
              /\ table w' = header_table (Float cfg) content t)
          \/ (header_ok content = true /\ header_supported content = true
              /\ sizes_ok content /\ ~ sections_whole content
              /\ same_scalars (header_table (Float cfg) content t) (table w')
              /\ arrays_allocated (table w') /\ recip (table w') = recip t))
  | Throw _ w' =>
      header_ok content = true /\ header_supported content = true
      /\ f w' <> None /\ errors w' = e
      /\ (header_nMu content < 0
          \/ (0 <= header_nMu content /\ header_nCoeffs content < 0)
          \/ (sizes_ok content /\ sections_whole content /\ header_mMax content < 0))
  | Undefined =>
      header_ok content = true /\ header_supported content = true
      /\ 0 <= header_nMu content
      /\ (INT_MAX < header_nMu content * header_nMu content * 2
          \/ (sizes_ok content /\ sections_whole content))
  end.
Proof.
  unfold Read_body.
  destruct (header_ok content) eqn:Hok.
  - (* a whole header behind the magic bytes *)
    pose proof Hok as Hok'. unfold header_ok in Hok'.
    apply andb_true_iff in Hok'. destruct Hok' as (Hlen & Hmagic).
    apply Nat.leb_le in Hlen.
    erewrite bind_Normal.
    2:{ rewrite check_magic_run.
        replace (8 <=? length content)%nat with true by (symmetry; apply Nat.leb_le; lia).
        rewrite Hmagic. reflexivity. }
    erewrite bind_Normal by (apply read_header_whole; exact Hlen).
    cbv beta iota.
    unfold bind at 1.
    rewrite (validate_run _ _ _ (header_nChannels content)) by reflexivity.
    fold (header_supported content).
    destruct (header_supported content) eqn:Hsup.
    2:{ cbn [f errors table].
        split; [discriminate|]. split; [reflexivity|].
        right. left. auto. }
    set (n := header_nMu content). set (nCoeffs := header_nCoeffs content).
    set (mx := header_mMax content).
    set (th := header_table (Float cfg) content t).
    assert (Hn : nMu th = Some n) by reflexivity.
    assert (HnC : nCoeffs <= INT_MAX) by (apply sint32_range).
    unfold bind at 1.
    rewrite (allocate_run nCoeffs _ n) by exact Hn.
    destruct (n <? 0) eqn:En.
    { apply Z.ltb_lt in En. cbn [f errors].
      split; [reflexivity|]. split; [reflexivity|]. split; [discriminate|].
      split; [reflexivity|]. left. exact En. }
    apply Z.ltb_ge in En.
    destruct (n * n * 2 <=? INT_MAX) eqn:Eov.
    2:{ apply Z.leb_gt in Eov.
        split; [reflexivity|]. split; [reflexivity|]. split; [exact En|].
        left. exact Eov. }
    apply Z.leb_le in Eov.
    destruct (nCoeffs <? 0) eqn:EnC.
    { apply Z.ltb_lt in EnC. cbn [f errors with_table].
      split; [reflexivity|]. split; [reflexivity|]. split; [discriminate|].
      split; [reflexivity|]. right. left. auto. }
    apply Z.ltb_ge in EnC.
    assert (Hsizes : sizes_ok content) by (unfold sizes_ok; auto).
    unfold with_table. cbn [f table errors].
    destruct (le_lt_dec (off_end n nCoeffs) (length content)) as [Hwhole|Hshort].
    2:{ destruct (read_sections_truncated cfg content n nCoeffs th e Hn En Eov
                    (conj EnC HnC) Hlen Hshort) as (s' & t' & Hrun & Hsc & Hall & Hrc).
        erewrite bind_GotoFail by exact Hrun. cbn [f errors table].
        split; [discriminate|]. split; [reflexivity|].
        right. right.
        split; [reflexivity|]. split; [reflexivity|]. split; [exact Hsizes|].
        split; [unfold sections_whole; fold n nCoeffs; lia|].
        split; [exact Hsc|]. split; [exact Hall|exact Hrc]. }
    erewrite bind_Normal
      by (apply (read_sections_whole cfg content n nCoeffs th e Hn En Eov (conj EnC HnC) Hwhole)).
    set (ts := sections_table (Float cfg) content n nCoeffs (allocated n nCoeffs th)).
    set (ws := {| f := Some (skipn (off_end n nCoeffs) content); table := ts; errors := e |}).
    pose proof (quiet_derive cfg (pairs_read content n) ws) as Hq.
    unfold bind at 1.
    destruct (derive cfg (pairs_read content n) ws) as [u wd| | |] eqn:Hd;
      try contradiction.
    2:{ split; [reflexivity|]. split; [reflexivity|]. split; [exact En|].
        right. split; [exact Hsizes|exact Hwhole]. }
    destruct u.
    apply (derive_Normal cfg _ n) in Hd; [|reflexivity|exact En].
    destruct Hd as (Hfd & Hed & Hfr & Hpairs).
    destruct Hfr as (Hsc & Hmu & Ha & Hcdf & Hrc & Xo & Xm & X0).
    destruct Hsc as (Seta & SmMax & SnCh & SnMu).
    pose proof (reciprocals_run cfg mx wd) as Hr.
    rewrite SmMax in Hr. specialize (Hr eq_refl).
    destruct (reciprocals cfg wd) as [u wr| wr | ex wr |] eqn:Hrr.
    + destruct Hr as (Hmx & Hfr' & Her' & Hfrm & Hxr & Hrecip).
      destruct Hfrm as (Hsc' & Hmu' & Hm' & Hao' & Ha' & Ha0' & Hcdf').
      destruct Hsc' as (Seta' & SmMax' & SnCh' & SnMu').
      split; [reflexivity|]. split; [reflexivity|].
      split; [rewrite Hfr', Hfd; discriminate|].
      split; [rewrite Her', Hed; reflexivity|].
      constructor; fold n nCoeffs mx; try assumption.
      * rewrite Seta', Seta. reflexivity.
      * rewrite SmMax', SmMax. reflexivity.
      * rewrite SnCh', SnCh. reflexivity.
      * rewrite SnMu', SnMu. reflexivity.
      * rewrite Hmu', Hmu. reflexivity.
      * rewrite Hcdf', Hcdf. reflexivity.
      * rewrite Ha', Ha. reflexivity.
      * rewrite Hao', Xo. change (aOffset ts) with (fresh (n * n)).
        apply extent_fresh. nia.
      * rewrite Hm', Xm. change (m ts) with (fresh (n * n)).
        apply extent_fresh. nia.
      * rewrite Ha0', X0. change (a0 ts) with (fresh (n * n)).
        apply extent_fresh. nia.
      * intros k Hk.
        eapply pair_derived_preserved; [exact Ha'| |apply Hpairs; exact Hk].
        unfold same_pair. rewrite Hao', Hm', Ha0'. repeat split.
    + contradiction.
    + destruct Hr as (Hmx & ->).
      split; [reflexivity|]. split; [reflexivity|].
      split; [rewrite Hfd; discriminate|].
      split; [exact Hed|].
      right. right. split; [exact Hsizes|]. split; [exact Hwhole|exact Hmx].
    + split; [reflexivity|]. split; [reflexivity|]. split; [exact En|].
      right. split; [exact Hsizes|exact Hwhole].
  - (* no whole header *)
    unfold bind at 1. rewrite check_magic_run.
    destruct ((8 <=? length content)%nat && memcmp_eq (firstn 8 content) header_exp) eqn:Em.
    + apply andb_true_iff in Em. destruct Em as (E8 & Emagic).
      unfold header_ok in Hok. rewrite Emagic, andb_true_r in Hok.
      apply Nat.leb_gt in Hok.
      destruct (read_header_truncated cfg content t e Hok) as (s' & t' & Hrun & Hptr).
      erewrite bind_GotoFail by exact Hrun. cbn [f errors table].
      split; [discriminate|]. split; [reflexivity|]. left. auto.
    + cbn [f errors table].
      split; [destruct (8 <=? length content)%nat; discriminate|].
      split; [reflexivity|]. left. split; [reflexivity|apply same_pointers_refl].
Qed.

End Body.


(* ================================================================== *)
(** * The same bytes on hosts of either byte order *)

Lemma agree_refl {A} (r : result A) : agree r r.
Proof. destruct r; cbn; auto. Qed.

Lemma agree_bind {A B} (c1 c2 : M A) (k1 k2 : A -> M B) w :
  agree (c1 w) (c2 w) ->
  (forall x w', agree (k1 x w') (k2 x w')) ->
  agree (bind c1 k1 w) (bind c2 k2 w).
Proof.
  intros Hc Hk. unfold bind.
  destruct (c1 w) as [x w1|w1|e1 w1|], (c2 w) as [y w2|w2|e2 w2|]; cbn in Hc;
    try contradiction; try exact Hc.
  destruct Hc as (-> & ->). apply Hk.
Qed.

Section Hosts.
Variable r : real_type.

Lemma read32_agree (count : nat) w : read_agree (read32 (little_endian_host r) count) (read32 (big_endian_host r) count) w.
Proof.
  destruct (f w) as [s|] eqn:Hf.
  - destruct (le_lt_dec (4 * count) (length s)) as [H|H].
    + left. now rewrite !(read32_enough _ count w s Hf H).
    + right.
      destruct (read32_short (little_endian_host r) count w s Hf H) as (c1 & H1).
      destruct (read32_short (big_endian_host r) count w s Hf H) as (c2 & H2).
      eauto.
  - left. now rewrite !read32_closed.
Qed.

Lemma readfloat_agree (count : nat) w :
  read_agree (readfloat (little_endian_host r) count) (readfloat (big_endian_host r) count) w.
Proof.
  destruct (f w) as [s|] eqn:Hf.
  - destruct (le_lt_dec (4 * count) (length s)) as [H|H].
    + left. now rewrite !(readfloat_enough _ count w s Hf H).
    + right.
      destruct (readfloat_short (little_endian_host r) count w s Hf H) as (c1 & H1).
      destruct (readfloat_short (big_endian_host r) count w s Hf H) as (c2 & H2).
      eauto.
  - left. unfold readfloat. cbn [Float little_endian_host big_endian_host].
    destruct r; unfold bind; now rewrite !read32_closed.
Qed.

Lemma read32_local_agree w : agree (read32_local (little_endian_host r) w) (read32_local (big_endian_host r) w).
Proof.
  unfold read32_local, bind.
  destruct (read32_agree 1 w) as [E|(c1 & c2 & w' & E1 & E2)].
  - rewrite E. apply agree_refl.
  - rewrite E1, E2. cbn. auto.
Qed.

Lemma read32_unused_agree n w : agree (read32_unused (little_endian_host r) n w) (read32_unused (big_endian_host r) n w).
Proof.
  unfold read32_unused, bind.
  destruct (read32_agree n w) as [E|(c1 & c2 & w' & E1 & E2)].
  - rewrite E. apply agree_refl.
  - rewrite E1, E2. cbn. auto.
Qed.

Lemma read_member_agree rd1 rd2 get set w :
  read_agree (rd1 1%nat) (rd2 1%nat) w ->
  agree (read_member rd1 get set w) (read_member rd2 get set w).
Proof.
  intros [E|(c1 & c2 & w' & E1 & E2)]; unfold read_member; unfold bind at 1 3.
  - rewrite E. apply agree_refl.
  - rewrite E1, E2. cbn. auto.
Qed.

Lemma read_array_agree rd1 rd2 get set count w :
  (forall n w', read_agree (rd1 n) (rd2 n) w') ->
  agree (read_array rd1 get set count w) (read_array rd2 get set count w).
Proof.
  intros Hrd. unfold read_array.
  apply agree_bind; [apply agree_refl|]. intros t w1.
  apply agree_bind; [apply agree_refl|]. intros arr w2.
  unfold bind at 1 3.
  destruct (Hrd (to_size_t count) w2) as [E|(c1 & c2 & w' & E1 & E2)].
  - rewrite E. apply agree_refl.
  - rewrite E1, E2. cbn. auto.
Qed.

Lemma read_header_agree w : agree (read_header (little_endian_host r) w) (read_header (big_endian_host r) w).
Proof.
  unfold read_header.
  apply agree_bind; [apply read32_local_agree|]. intros flags w1.
  apply agree_bind; [apply read_member_agree, read32_agree|]. intros _ w2.
  apply agree_bind; [apply read32_local_agree|]. intros nCoeffs w3.
  apply agree_bind; [apply read_member_agree, read32_agree|]. intros _ w4.
  apply agree_bind; [apply read_member_agree, read32_agree|]. intros _ w5.
  apply agree_bind; [apply read32_local_agree|]. intros nBases w6.
  apply agree_bind; [apply read32_unused_agree|]. intros _ w7.
  apply agree_bind; [apply read_member_agree, readfloat_agree|]. intros _ w8.
  apply agree_bind; [apply read32_unused_agree|]. intros _ w9.
  apply agree_refl.
Qed.

Lemma read_sections_agree nCoeffs ol w :
  agree (read_sections (little_endian_host r) nCoeffs ol w) (read_sections (big_endian_host r) nCoeffs ol w).
Proof.
  unfold read_sections.
  apply agree_bind; [apply agree_refl|]. intros t w1.
  apply agree_bind; [apply agree_refl|]. intros n w2.
  apply agree_bind; [apply read_array_agree; intros; apply readfloat_agree|]. intros _ w3.
  apply agree_bind; [apply agree_refl|]. intros nn w4.
  apply agree_bind; [apply read_array_agree; intros; apply readfloat_agree|]. intros _ w5.
  apply agree_bind; [apply agree_refl|]. intros nn' w6.
  apply agree_bind; [apply agree_refl|]. intros nn2 w7.
  unfold bind at 1 4.
  destruct (read32_agree (to_size_t nn2) w7) as [E|(c1 & c2 & w' & E1 & E2)].
  - rewrite E. destruct (read32 (big_endian_host r) (to_size_t nn2) w7) as [[b cells] w8| | |]; cbn; auto.
    apply agree_bind; [apply agree_refl|]. intros _ w9.
    apply agree_bind; [apply read_array_agree; intros; apply readfloat_agree|]. intros _ w10.
    apply agree_refl.
  - rewrite E1, E2. cbn. auto.
Qed.

Lemma Read_body_agree w : agree (Read_body (little_endian_host r) w) (Read_body (big_endian_host r) w).
Proof.
  unfold Read_body.
  apply agree_bind; [apply agree_refl|]. intros _ w1.
  apply agree_bind; [apply read_header_agree|]. intros [[flags nCoeffs] nBases] w2.
  apply agree_bind; [apply agree_refl|]. intros _ w3.
  apply agree_bind; [apply agree_refl|]. intros ol w4.
  apply agree_bind; [apply read_sections_agree|]. intros ol' w5.
  apply agree_refl.
Qed.

End Hosts.


(* ================================================================== *)
(** * Every call of [Read], by cases *)

Lemma memcmp_eq_true (x y : list byte) : memcmp_eq x y = true -> x = y.
Proof.
  revert y. induction x as [|b x IH]; intros [|c y] H; cbn in H;
    try discriminate; [reflexivity|].
  apply andb_true_iff in H. destruct H as (Hb & Hr).
  apply Byte.byte_dec_bl in Hb. subst c. f_equal. now apply IH.
Qed.

Lemma header_ok_magic (content : list byte) :
  header_ok content = true -> firstn 8 content = header_exp.
Proof.
  unfold header_ok. intros H. apply andb_true_iff in H. apply memcmp_eq_true, H.
Qed.

Lemma supported_true (flags c nb : Z) :
  supported flags c nb = true <-> flags = 1 /\ (c = 1 \/ c = 3) /\ nb = 1.
Proof.
  unfold supported.
  rewrite !andb_true_iff, orb_true_iff, !Z.eqb_eq. tauto.
Qed.

Section Calls.
Variable cfg : Config.
Variable fs : filesystem.
Variable name : string.
Variable t0 : FourierBSDFTable.

Lemma Read_true_inv (w : world) :
  Read cfg fs name t0 = Returns true w ->
  exists content,
    fs (c_str name) = Some content
    /\ header_ok content = true /\ header_supported content = true
    /\ f w = None /\ errors w = []
    /\ loaded (Float cfg) content (table w).
Proof.
  unfold Read. destruct (fs (c_str name)) as [content|]; [|discriminate].
  pose proof (Read_body_cases cfg content (reset_pointers t0) []) as H.
  destruct (Read_body cfg _) as [u w1|w1|e1 w1|]; try discriminate.
  intros E. inversion E; subst w. clear E.
  destruct H as (H1 & H2 & H3 & H4 & H5).
  exists content. unfold fclose. cbn [f errors table with_f]. auto 10.
Qed.

Lemma Read_false_inv (w : world) :
  Read cfg fs name t0 = Returns false w ->
  f w = None
  /\ ((fs (c_str name) = None /\ table w = reset_pointers t0
       /\ errors w = [format_s open_failed_fmt (c_str name)])
      \/ exists content,
           fs (c_str name) = Some content
           /\ errors w = [format_s incompatible_fmt (c_str name)]
           /\ ((header_ok content = false
                /\ same_pointers (reset_pointers t0) (table w))
               \/ (header_ok content = true /\ header_supported content = false
                   /\ table w = header_table (Float cfg) content (reset_pointers t0))
               \/ (header_ok content = true /\ header_supported content = true
                   /\ sizes_ok content /\ ~ sections_whole content
                   /\ same_scalars (header_table (Float cfg) content (reset_pointers t0))
                        (table w)
                   /\ arrays_allocated (table w) /\ recip (table w) = recip t0))).
Proof.
  unfold Read. destruct (fs (c_str name)) as [content|].
  - pose proof (Read_body_cases cfg content (reset_pointers t0) []) as H.
    destruct (Read_body cfg _) as [u w1|w1|e1 w1|]; try discriminate.
    intros E. inversion E; subst w. clear E.
    destruct H as (H1 & H2 & H3).
    unfold Error, fclose. cbn [f errors table with_f with_errors].
    split; [reflexivity|]. right. exists content.
    split; [reflexivity|]. split; [rewrite H2; reflexivity|].
    exact H3.
  - intros E. inversion E; subst w. clear E.
    unfold Error. cbn [f errors table with_errors].
    split; [reflexivity|]. left. auto.
Qed.

(** A file without a whole supported header is rejected. *)
Lemma Read_rejects_header (content : list byte) :
  fs (c_str name) = Some content ->
  header_ok content = false \/ header_supported content = false ->
  exists w, Read cfg fs name t0 = Returns false w.
Proof.
  intros Hfs Hbad. unfold Read. rewrite Hfs.
  pose proof (Read_body_cases cfg content (reset_pointers t0) []) as H.
  destruct (Read_body cfg _) as [u w1|w1|e1 w1|].
  - destruct H as (H1 & H2 & _). destruct Hbad; congruence.
  - eauto.
  - destruct H as (H1 & H2 & _). destruct Hbad; congruence.
  - destruct H as (H1 & H2 & _). destruct Hbad; congruence.
Qed.

(** A file whose data sections are cut short is rejected. *)
Lemma Read_rejects_truncated (content : list byte) :
  fs (c_str name) = Some content ->
  sizes_ok content -> ~ sections_whole content ->
  exists w, Read cfg fs name t0 = Returns false w.
Proof.
  intros Hfs (Hs1 & Hs2 & Hs3) Hcut. unfold Read. rewrite Hfs.
  pose proof (Read_body_cases cfg content (reset_pointers t0) []) as H.
  destruct (Read_body cfg _) as [u w1|w1|e1 w1|].
  - destruct H as (_ & _ & _ & _ & Hl). exfalso. apply Hcut. apply Hl.
  - eauto.
  - destruct H as (_ & _ & _ & _ & [H|[(_ & H)|(_ & H & _)]]); try lia.
    contradiction.
  - destruct H as (_ & _ & _ & [H|(_ & H)]); [lia|contradiction].
Qed.

(** Whenever [Read] returns, the stream is closed. *)
Lemma Read_returns_closed (b : bool) (w : world) :
  Read cfg fs name t0 = Returns b w -> f w = None.
Proof.
  destruct b; intros H.
  - apply Read_true_inv in H. destruct H as (content & H). apply H.
  - apply Read_false_inv in H. apply H.
Qed.

End Calls.


(* ================================================================== *)
(** * Elements of the arrays read from the file *)

Lemma elem_map_Some {A} (g : A -> Z) (l : list A) (d : A) (i : Z) :
  0 <= i < Z.of_nat (length l) ->
  elem (Some (map (fun e => Some (g e)) l)) i = Some (g (nth (Z.to_nat i) l d)).
Proof.
  intros H. unfold elem. rewrite length_map.
  replace ((0 <=? i) && (i <? Z.of_nat (length l))) with true
    by (symmetry; apply andb_true_iff; rewrite Z.leb_le, Z.ltb_lt; exact H).
  rewrite (nth_indep _ None (Some (g d))) by (rewrite length_map; lia).
  apply (map_nth (fun e => Some (g e))).
Qed.

Lemma elem_int_cells (count : nat) (content : list byte) (off : nat) (i : Z) :
  0 <= i < Z.of_nat count ->
  elem (Some (int_cells count (skipn off content))) i
  = Some (int_at content (off + 4 * Z.to_nat i)).
Proof.
  intros H. unfold int_cells.
  rewrite (elem_map_Some (fun e => sint32 (le_decode e)) _ [])
    by (rewrite split_elems_length; exact H).
  rewrite split_elems_nth by lia. rewrite skipn_skipn.
  unfold int_at. do 5 f_equal. lia.
Qed.

Lemma elem_Float_cells (r : real_type) (count : nat) (content : list byte)
    (off : nat) (i : Z) :
  0 <= i < Z.of_nat count ->
  elem (Some (Float_cells r count (skipn off content))) i
  = Some (Float_at r content (off + 4 * Z.to_nat i)).
Proof.
  intros H. unfold Float_cells.
  rewrite (elem_map_Some (fun e => Float_of_word r (sint32 (le_decode e))) _ [])
    by (rewrite split_elems_length; exact H).
  rewrite split_elems_nth by lia. rewrite skipn_skipn.
  unfold Float_at, int_at. do 6 f_equal. lia.
Qed.

Lemma of_int_zero (r : real_type) : IEEE.of_int (Float_format r) 0 = 0.
Proof. destruct r; reflexivity. Qed.

(* ================================================================== *)
(** * The loaded table *)

Section Loaded.
Variable cfg : Config.
Variable content : list byte.
Variable T : FourierBSDFTable.
Hypothesis HT : loaded (Float cfg) content T.

Lemma loaded_pair (k : Z) :
  0 <= k < header_nMu content * header_nMu content ->
  elem (aOffset T) k = Some (int_at content (off_pairs (header_nMu content) + 8 * Z.to_nat k))
  /\ elem (m T) k = Some (int_at content (off_pairs (header_nMu content) + 8 * Z.to_nat k + 4))
  /\ (0 < int_at content (off_pairs (header_nMu content) + 8 * Z.to_nat k + 4) ->
      0 <= int_at content (off_pairs (header_nMu content) + 8 * Z.to_nat k) < header_nCoeffs content
      /\ elem (a0 T) k = elem (a T) (int_at content (off_pairs (header_nMu content) + 8 * Z.to_nat k))
      /\ exists v, elem (a T) (int_at content (off_pairs (header_nMu content) + 8 * Z.to_nat k)) = Some v)
  /\ (int_at content (off_pairs (header_nMu content) + 8 * Z.to_nat k + 4) <= 0 -> elem (a0 T) k = Some 0).
Proof.
  intros Hk.
  destruct (ld_pairs _ _ _ HT k Hk) as (off & len & H1 & H2 & H3 & H4 & H5 & H6).
  pose proof (ld_nMu_pos _ _ _ HT) as Hn.
  pose proof (ld_nCoeffs_pos _ _ _ HT) as HnC.
  unfold pairs_read in H1, H2.
  rewrite elem_int_cells in H1 by nia.
  rewrite elem_int_cells in H2 by nia.
  replace (off_pairs (header_nMu content) + 4 * Z.to_nat (2 * k))%nat
    with (off_pairs (header_nMu content) + 8 * Z.to_nat k)%nat in H1 by lia.
  replace (off_pairs (header_nMu content) + 4 * Z.to_nat (2 * k + 1))%nat
    with (off_pairs (header_nMu content) + 8 * Z.to_nat k + 4)%nat in H2 by lia.
  assert (E1 : off = int_at content (off_pairs (header_nMu content) + 8 * Z.to_nat k))
    by congruence.
  assert (E2 : len = int_at content (off_pairs (header_nMu content) + 8 * Z.to_nat k + 4))
    by congruence.
  clear H1 H2. subst off len.
  split; [exact H3|]. split; [exact H4|]. split.
  - intros Hpos. destruct (H5 Hpos) as ((x & Hx & Hr) & Ha0).
    rewrite (ld_a _ _ _ HT) in Hx. cbn [extent] in Hx.
    rewrite Float_cells_length, Z2Nat.id in Hx by exact HnC.
    assert (x = header_nCoeffs content) by congruence. subst x.
    split; [exact Hr|]. split; [exact Ha0|].
    rewrite (ld_a _ _ _ HT). rewrite elem_Float_cells by lia. eauto.
  - intros Hle. rewrite (H6 Hle), of_int_zero. reflexivity.
Qed.

End Loaded.


(* ================================================================== *)
(** * Offsets and lengths of the series (C1) *)

(** C1, as stated, fails: this file is loaded although its first pair
    has [coeffOffset + coeffCount = 5 > 1 = nCoeffs] and its second pair
    has [coeffOffset = -1]. *)
Lemma pairs_out_of_range_loaded :
  Read_file host unchecked_pairs_file
  = Returns true (final_world (Read_file host unchecked_pairs_file))
  /\ header_nCoeffs unchecked_pairs_file = 1
  /\ nMu (table (final_world (Read_file host unchecked_pairs_file))) = Some 2
  /\ aOffset (table (final_world (Read_file host unchecked_pairs_file)))
     = Some [Some 0; Some (-1); Some 7; Some 0]
  /\ m (table (final_world (Read_file host unchecked_pairs_file)))
     = Some [Some 5; Some 0; Some 0; Some 1]
  /\ ~ (0 + 5 <= 1)
  /\ ~ (0 <= -1).
Proof.
  do 5 (split; [vm_compute; reflexivity|]). lia.
Qed.

(** C1, amended.  In every table the loader returns, [coeffOffset[k]] and
    [coeffCount[k]] are the [k]-th (offset, length) pair of the file's
    offset/length section as stored, for every [k] in [0, nMu*nMu); and
    when [coeffCount[k] > 0], the offset, which the loader has then used
    as an index, is in [0, nCoeffs).  Nothing relates
    [coeffOffset[k] + coeffCount[k]] to [nCoeffs]. *)
Theorem pairs_copied_unchecked (cfg : Config) (fs : filesystem) (name : string)
    (t0 : FourierBSDFTable) (content : list byte) (w : world) (n k : Z) :
  fs (c_str name) = Some content ->
  Read cfg fs name t0 = Returns true w ->
  nMu (table w) = Some n ->
  0 <= k < n * n ->
  elem (aOffset (table w)) k = Some (int_at content (off_pairs n + 8 * Z.to_nat k))
  /\ elem (m (table w)) k = Some (int_at content (off_pairs n + 8 * Z.to_nat k + 4))
  /\ (0 < int_at content (off_pairs n + 8 * Z.to_nat k + 4) ->
      0 <= int_at content (off_pairs n + 8 * Z.to_nat k) < header_nCoeffs content).
Proof.
  intros Hfs Hrun Hn Hk.
  apply Read_true_inv in Hrun.
  destruct Hrun as (content' & Hfs' & _ & _ & _ & _ & Hl).
  assert (content' = content) by congruence. subst content'.
  assert (n = header_nMu content) by (pose proof (ld_nMu _ _ _ Hl); congruence).
  subst n.
  destruct (loaded_pair cfg content (table w) Hl k Hk) as (H1 & H2 & H3 & _).
  split; [exact H1|]. split; [exact H2|].
  intros Hpos. apply (H3 Hpos).
Qed.

Lemma pairs_copied_unchecked_witness :
  only_file "table.bsdf" sample_file (c_str "table.bsdf") = Some sample_file
  /\ Read host (only_file "table.bsdf" sample_file) "table.bsdf" indeterminate_table
     = Returns true (final_world (Read_file host sample_file))
  /\ nMu (table (final_world (Read_file host sample_file))) = Some 2
  /\ 0 <= 1 < 2 * 2
  /\ (elem (aOffset (table (final_world (Read_file host sample_file)))) 1
      = Some (int_at sample_file (off_pairs 2 + 8 * Z.to_nat 1))
      /\ elem (m (table (final_world (Read_file host sample_file)))) 1
         = Some (int_at sample_file (off_pairs 2 + 8 * Z.to_nat 1 + 4))
      /\ (0 < int_at sample_file (off_pairs 2 + 8 * Z.to_nat 1 + 4) ->
          0 <= int_at sample_file (off_pairs 2 + 8 * Z.to_nat 1) < header_nCoeffs sample_file)).
Proof.
  refine (conj _ (conj _ (conj _ (conj _
            (pairs_copied_unchecked host (only_file "table.bsdf" sample_file) "table.bsdf"
               indeterminate_table sample_file
               (final_world (Read_file host sample_file)) 2 1 _ _ _ _)))));
    first [lia | vm_compute; reflexivity].
Defined.

(* ================================================================== *)
(** * What a failed load leaves behind (C2, C10) *)

(** C2 at its failing input: a whole, supported header with no data
    after it.  [Read] returns [false], yet the table keeps
    [nChannels = 1] and six allocated, unfilled arrays, and
    [ComputeScatteringFunctions] builds a [FourierBSDF] over it. *)
Lemma truncated_load_leaves_arrays :
  Read_file host header_only_file
  = Returns false (final_world (Read_file host header_only_file))
  /\ nChannels (table (final_world (Read_file host header_only_file))) = Some 1
  /\ mu (table (final_world (Read_file host header_only_file))) = Some [None]
  /\ cdf (table (final_world (Read_file host header_only_file))) = Some [None]
  /\ a0 (table (final_world (Read_file host header_only_file))) = Some [None]
  /\ aOffset (table (final_world (Read_file host header_only_file))) = Some [None]
  /\ m (table (final_world (Read_file host header_only_file))) = Some [None]
  /\ a (table (final_world (Read_file host header_only_file))) = Some [None]
  /\ scattering_of (table (final_world (Read_file host header_only_file))) Radiance
     = Some [FourierBSDF (table (final_world (Read_file host header_only_file))) Radiance].
Proof.
  do 8 (split; [vm_compute; reflexivity|]). vm_compute. reflexivity.
Qed.

(** What [ComputeScatteringFunctions] does with a table. *)
Lemma ComputeScatteringFunctions_adds (Texture Geometry : Type)
    (Bump : Texture -> Geometry -> Geometry) (mat : FourierMaterial Texture)
    (si : SurfaceInteraction Geometry) (mode : TransportMode) (lobes : bool) (c : Z) :
  nChannels (bsdfTable mat) = Some c ->
  exists si',
    ComputeScatteringFunctions Bump mat si mode lobes = Some si'
    /\ option_map bxdfs (bsdf si')
       = Some (if 0 <? c then [FourierBSDF (bsdfTable mat) mode] else []).
Proof.
  intros H. unfold ComputeScatteringFunctions. rewrite H.
  eexists. split; [reflexivity|]. cbn. destruct (0 <? c); reflexivity.
Qed.

(** C10, as stated, fails: the header of this file is read whole, the
    load fails (on [nChannels = 0]), and [nChannels] keeps the header's
    value, which is not positive; [ComputeScatteringFunctions] adds
    nothing. *)
Lemma rejected_header_keeps_zero_channels :
  header_ok no_channel_file = true
  /\ Read_file host no_channel_file
     = Returns false (final_world (Read_file host no_channel_file))
  /\ nChannels (table (final_world (Read_file host no_channel_file))) = Some 0
  /\ scattering_of (table (final_world (Read_file host no_channel_file))) Radiance
     = Some [].
Proof.
  do 3 (split; [vm_compute; reflexivity|]). vm_compute. reflexivity.
Qed.

(** C10, amended.  If the loader fails after the whole header was read,
    [nChannels] keeps the value of the file header.  Whenever that value
    is positive, [ComputeScatteringFunctions] adds a [FourierBSDF] built
    from the failed table; it is positive (1 or 3) whenever the failure
    is a short read in a data section, that is, whenever the header
    passed the test of fourier.cpp:151. *)
Theorem failed_load_keeps_nChannels (Texture Geometry : Type)
    (Bump : Texture -> Geometry -> Geometry)
    (cfg : Config) (fs : filesystem) (name : string) (t0 : FourierBSDFTable)
    (content : list byte) (bump : option Texture) (mat : FourierMaterial Texture)
    (w : world) (si : SurfaceInteraction Geometry) (mode : TransportMode)
    (lobes : bool) :
  fs (c_str name) = Some content ->
  header_ok content = true ->
  Read cfg fs name t0 = Returns false w ->
  FourierMaterial_ctor cfg fs name bump t0 = Some (mat, w) ->
  nChannels (bsdfTable mat) = Some (header_nChannels content)
  /\ (0 < header_nChannels content ->
      exists si',
        ComputeScatteringFunctions Bump mat si mode lobes = Some si'
        /\ option_map bxdfs (bsdf si') = Some [FourierBSDF (bsdfTable mat) mode])
  /\ (header_supported content = true -> 0 < header_nChannels content).
Proof.
  intros Hfs Hok Hrun Hctor.
  unfold FourierMaterial_ctor in Hctor. rewrite Hrun in Hctor.
  inversion Hctor; subst mat. clear Hctor. cbn [bsdfTable].
  apply Read_false_inv in Hrun. destruct Hrun as (_ & [(Hnone & _)|Hrun]);
    [congruence|].
  destruct Hrun as (content' & Hfs' & _ & Hcases).
  assert (content' = content) by congruence. subst content'.
  assert (Hch : nChannels (table w) = Some (header_nChannels content)).
  { destruct Hcases as [(H & _)|[(_ & _ & ->)|(_ & _ & _ & _ & Hsc & _)]].
    - congruence.
    - reflexivity.
    - destruct Hsc as (_ & _ & -> & _). reflexivity. }
  split; [exact Hch|]. split.
  - intros Hpos.
    destruct (ComputeScatteringFunctions_adds Texture Geometry Bump
                {| bsdfTable := table w; bumpMap := bump |} si mode lobes _ Hch)
      as (si' & H1 & H2).
    exists si'. split; [exact H1|].
    rewrite H2. cbn [bsdfTable].
    replace (0 <? header_nChannels content) with true by (symmetry; apply Z.ltb_lt; exact Hpos).
    reflexivity.
  - intros Hsup. unfold header_supported in Hsup. apply supported_true in Hsup. lia.
Qed.

Lemma failed_load_keeps_nChannels_witness :
  only_file "table.bsdf" header_only_file (c_str "table.bsdf") = Some header_only_file
  /\ header_ok header_only_file = true
  /\ Read host (only_file "table.bsdf" header_only_file) "table.bsdf" indeterminate_table
     = Returns false (final_world (Read_file host header_only_file))
  /\ FourierMaterial_ctor host (only_file "table.bsdf" header_only_file) "table.bsdf"
       None indeterminate_table
     = Some (truncated_material, final_world (Read_file host header_only_file))
  /\ (nChannels (bsdfTable truncated_material) = Some (header_nChannels header_only_file)
      /\ (0 < header_nChannels header_only_file ->
          exists si',
            ComputeScatteringFunctions (fun (_ : unit) (g : unit) => g)
              truncated_material {| geometry := tt; bsdf := None |} Radiance true
            = Some si'
            /\ option_map bxdfs (bsdf si')
               = Some [FourierBSDF (bsdfTable truncated_material) Radiance])
      /\ (header_supported header_only_file = true
          -> 0 < header_nChannels header_only_file)).
Proof.
  refine (conj _ (conj _ (conj _ (conj _
            (failed_load_keeps_nChannels unit unit (fun _ g => g) host
               (only_file "table.bsdf" header_only_file) "table.bsdf"
               indeterminate_table header_only_file None truncated_material
               (final_world (Read_file host header_only_file))
               {| geometry := tt; bsdf := None |} Radiance true _ _ _ _)))));
    vm_compute; reflexivity.
Defined.


(* ================================================================== *)
(** * Rejection of unsupported files (C3) *)

(** C3 at its failing inputs: a file with [nBases = 2] and a file with
    flags bit 1 set.  [Read] returns [false] for both, but it has
    constructed part of a table: [nMu], [mMax], [nChannels] and [eta],
    indeterminate before the call, hold the values of the rejected
    header, while the arrays are null.  [nChannels] is 1, so the test of
    fourier.cpp:208 passes and [ComputeScatteringFunctions] builds a
    [FourierBSDF] over the rejected table. *)
Lemma rejected_header_leaves_table :
  header_nBases two_bases_file = 2
  /\ Read_file host two_bases_file
     = Returns false (final_world (Read_file host two_bases_file))
  /\ nMu (table (final_world (Read_file host two_bases_file))) = Some 1
  /\ mMax (table (final_world (Read_file host two_bases_file))) = Some 1
  /\ nChannels (table (final_world (Read_file host two_bases_file))) = Some 1
  /\ eta (table (final_world (Read_file host two_bases_file))) = Some 0x3F800000
  /\ mu (table (final_world (Read_file host two_bases_file))) = nullptr
  /\ cdf (table (final_world (Read_file host two_bases_file))) = nullptr
  /\ a (table (final_world (Read_file host two_bases_file))) = nullptr
  /\ scattering_of (table (final_world (Read_file host two_bases_file))) Radiance
     = Some [FourierBSDF (table (final_world (Read_file host two_bases_file))) Radiance]
  /\ Z.testbit (header_flags extrapolated_file) 1 = true
  /\ Read_file host extrapolated_file
     = Returns false (final_world (Read_file host extrapolated_file))
  /\ nChannels (table (final_world (Read_file host extrapolated_file))) = Some 1
  /\ mu (table (final_world (Read_file host extrapolated_file))) = nullptr
  /\ scattering_of (table (final_world (Read_file host extrapolated_file))) Radiance
     = Some [FourierBSDF (table (final_world (Read_file host extrapolated_file)))
               Radiance].
Proof.
  do 14 (split; [vm_compute; reflexivity|]). vm_compute. reflexivity.
Qed.

(** The rejection itself.  A file whose first 8 bytes are not the magic
    bytes, or whose header has [flags <> 1] (in particular bit 1 set),
    [nChannels] other than 1 and 3, or [nBases <> 1] (in particular 2),
    is rejected: [Read] returns [false] with the stream closed and has
    allocated no array (the five pointers it resets are null, [a0] and
    [recip] are as the caller left them). *)
Theorem unsupported_file_rejected (cfg : Config) (fs : filesystem) (name : string)
    (t0 : FourierBSDFTable) (content : list byte) :
  fs (c_str name) = Some content ->
  firstn 8 content <> header_exp
  \/ header_flags content <> 1
  \/ Z.testbit (header_flags content) 1 = true
  \/ (header_nChannels content <> 1 /\ header_nChannels content <> 3)
  \/ header_nBases content <> 1
  \/ header_nBases content = 2 ->
  exists w,
    Read cfg fs name t0 = Returns false w
    /\ f w = None
    /\ mu (table w) = nullptr /\ cdf (table w) = nullptr /\ a (table w) = nullptr
    /\ aOffset (table w) = nullptr /\ m (table w) = nullptr
    /\ a0 (table w) = a0 t0 /\ recip (table w) = recip t0.
Proof.
  intros Hfs Hbad.
  assert (Hhdr : header_ok content = false \/ header_supported content = false).
  { destruct (header_ok content) eqn:Hok; [right|left; reflexivity].
    destruct (header_supported content) eqn:Hsup; [exfalso|reflexivity].
    unfold header_supported in Hsup. apply supported_true in Hsup.
    destruct Hsup as (Hf & Hc & Hb).
    destruct Hbad as [H|[H|[H|[H|[H|H]]]]].
    - apply H. now apply header_ok_magic.
    - contradiction.
    - rewrite Hf in H. discriminate H.
    - lia.
    - contradiction.
    - lia. }
  destruct (Read_rejects_header cfg fs name t0 content Hfs Hhdr) as (w & Hrun).
  exists w. split; [exact Hrun|].
  apply Read_false_inv in Hrun. destruct Hrun as (Hclosed & [(Hnone & _)|Hrun]);
    [congruence|].
  destruct Hrun as (content' & Hfs' & _ & Hcases).
  assert (content' = content) by congruence. subst content'.
  split; [exact Hclosed|].
  destruct Hcases as [(_ & Hp)|[(_ & _ & ->)|(Hok & Hsup & _)]].
  - destruct Hp as (P1 & P2 & P3 & P4 & P5 & P6 & P7).
    rewrite P1, P2, P3, P4, P5, P6, P7. cbn. auto 10.
  - cbn. auto 10.
  - destruct Hhdr; congruence.
Qed.

Lemma unsupported_file_rejected_witness :
  only_file "table.bsdf" two_bases_file (c_str "table.bsdf") = Some two_bases_file
  /\ (firstn 8 two_bases_file <> header_exp
      \/ header_flags two_bases_file <> 1
      \/ Z.testbit (header_flags two_bases_file) 1 = true
      \/ (header_nChannels two_bases_file <> 1 /\ header_nChannels two_bases_file <> 3)
      \/ header_nBases two_bases_file <> 1
      \/ header_nBases two_bases_file = 2)
  /\ exists w,
       Read host (only_file "table.bsdf" two_bases_file) "table.bsdf" indeterminate_table
       = Returns false w
       /\ f w = None
       /\ mu (table w) = nullptr /\ cdf (table w) = nullptr /\ a (table w) = nullptr
       /\ aOffset (table w) = nullptr /\ m (table w) = nullptr
       /\ a0 (table w) = a0 indeterminate_table
       /\ recip (table w) = recip indeterminate_table.
Proof.
  refine (conj _ (conj _
            (unsupported_file_rejected host (only_file "table.bsdf" two_bases_file)
               "table.bsdf" indeterminate_table two_bases_file _ _))).
  - vm_compute. reflexivity.
  - do 5 right. vm_compute. reflexivity.
  - vm_compute. reflexivity.
  - do 5 right. vm_compute. reflexivity.
Defined.

(* ================================================================== *)
(** * The zeroth coefficients (C4) *)

(** C4.  In every table the loader returns, for every pair index [k]:
    when [coeffCount[k] > 0], [dcTerm[k]] is
    [coefficients[coeffOffset[k]]] (a value that is there); when
    [coeffCount[k] = 0], [dcTerm[k]] is 0 (the pattern of +0.0). *)
Theorem dc_term_is_first_coefficient (cfg : Config) (fs : filesystem) (name : string)
    (t0 : FourierBSDFTable) (w : world) (n k : Z) :
  Read cfg fs name t0 = Returns true w ->
  nMu (table w) = Some n ->
  0 <= k < n * n ->
  exists off cnt,
    elem (aOffset (table w)) k = Some off
    /\ elem (m (table w)) k = Some cnt
    /\ (0 < cnt ->
        exists v, elem (a (table w)) off = Some v /\ elem (a0 (table w)) k = Some v)
    /\ (cnt = 0 -> elem (a0 (table w)) k = Some 0).
Proof.
  intros Hrun Hn Hk.
  apply Read_true_inv in Hrun.
  destruct Hrun as (content & _ & _ & _ & _ & _ & Hl).
  assert (n = header_nMu content) by (pose proof (ld_nMu _ _ _ Hl); congruence).
  subst n.
  destruct (loaded_pair cfg content (table w) Hl k Hk) as (H1 & H2 & H3 & H4).
  eexists. eexists. split; [exact H1|]. split; [exact H2|]. split.
  - intros Hpos. destruct (H3 Hpos) as (_ & Ha0 & v & Hv).
    exists v. split; [exact Hv|]. rewrite Ha0. exact Hv.
  - intros Hz. apply H4. lia.
Qed.

Lemma dc_term_is_first_coefficient_witness :
  Read host (only_file "table.bsdf" sample_file) "table.bsdf" indeterminate_table
  = Returns true (final_world (Read_file host sample_file))
  /\ nMu (table (final_world (Read_file host sample_file))) = Some 2
  /\ 0 <= 1 < 2 * 2
  /\ exists off cnt,
       elem (aOffset (table (final_world (Read_file host sample_file)))) 1 = Some off
       /\ elem (m (table (final_world (Read_file host sample_file)))) 1 = Some cnt
       /\ (0 < cnt ->
           exists v,
             elem (a (table (final_world (Read_file host sample_file)))) off = Some v
             /\ elem (a0 (table (final_world (Read_file host sample_file)))) 1 = Some v)
       /\ (cnt = 0 ->
           elem (a0 (table (final_world (Read_file host sample_file)))) 1 = Some 0).
Proof.
  refine (conj _ (conj _ (conj _
            (dc_term_is_first_coefficient host (only_file "table.bsdf" sample_file)
               "table.bsdf" indeterminate_table
               (final_world (Read_file host sample_file)) 2 1 _ _ _))));
    first [lia | vm_compute; reflexivity].
Defined.

(** The scenario of the specification: [dcTerm] is [coefficients[0]],
    [coefficients[2]], 0, 0, and [recip] is +inf, 1, 1/2, 1/3 rounded. *)
Example sample_file_loaded :
  Read_file host sample_file
  = Returns true (final_world (Read_file host sample_file))
  /\ a (table (final_world (Read_file host sample_file)))
     = Some [Some 0x40000000; Some 0x40400000; Some 0x40800000]
  /\ a0 (table (final_world (Read_file host sample_file)))
     = Some [Some 0x40000000; Some 0x40800000; Some 0; Some 0]
  /\ recip (table (final_world (Read_file host sample_file)))
     = Some [Some 0x7F800000; Some 0x3F800000; Some 0x3F000000; Some 0x3EAAAAAB].
Proof.
  do 3 (split; [vm_compute; reflexivity|]). vm_compute. reflexivity.
Qed.


(* ================================================================== *)
(** * Short reads and the stream (C5) *)

(** A file whose header is whole and declares sizes that can be
    allocated, and whose data sections are cut short, is rejected, and
    the stream is closed when [Read] returns. *)
Theorem truncated_file_rejected (cfg : Config) (fs : filesystem) (name : string)
    (t0 : FourierBSDFTable) (content : list byte) :
  fs (c_str name) = Some content ->
  sizes_ok content ->
  ~ sections_whole content ->
  exists w, Read cfg fs name t0 = Returns false w /\ f w = None.
Proof.
  intros Hfs Hsz Hcut.
  destruct (Read_rejects_truncated cfg fs name t0 content Hfs Hsz Hcut) as (w & Hrun).
  exists w. split; [exact Hrun|]. eapply Read_returns_closed, Hrun.
Qed.

Lemma truncated_file_rejected_witness :
  only_file "table.bsdf" (firstn 100 sample_file) (c_str "table.bsdf")
  = Some (firstn 100 sample_file)
  /\ sizes_ok (firstn 100 sample_file)
  /\ ~ sections_whole (firstn 100 sample_file)
  /\ exists w,
       Read host (only_file "table.bsdf" (firstn 100 sample_file)) "table.bsdf"
         indeterminate_table = Returns false w
       /\ f w = None.
Proof.
  refine (conj _ (conj _ (conj _
            (truncated_file_rejected host (only_file "table.bsdf" (firstn 100 sample_file))
               "table.bsdf" indeterminate_table (firstn 100 sample_file) _ _ _)))).
  - vm_compute. reflexivity.
  - vm_compute. intuition discriminate.
  - vm_compute. lia.
  - vm_compute. reflexivity.
  - vm_compute. intuition discriminate.
  - vm_compute. lia.
Defined.

(** Whenever [Read] returns, with either value, no stream is left
    open. *)
Theorem returns_with_stream_closed (cfg : Config) (fs : filesystem) (name : string)
    (t0 : FourierBSDFTable) (b : bool) (w : world) :
  Read cfg fs name t0 = Returns b w -> f w = None.
Proof.
  intros H. destruct b.
  - apply Read_true_inv in H. destruct H as (content & H). apply H.
  - apply Read_false_inv in H. apply H.
Qed.

Lemma returns_with_stream_closed_witness :
  Read host (only_file "table.bsdf" sample_file) "table.bsdf" indeterminate_table
  = Returns true (final_world (Read_file host sample_file))
  /\ f (final_world (Read_file host sample_file)) = None.
Proof.
  refine (conj _
            (returns_with_stream_closed host (only_file "table.bsdf" sample_file)
               "table.bsdf" indeterminate_table true
               (final_world (Read_file host sample_file)) _));
    vm_compute; reflexivity.
Defined.

(** C5 at its failing input: the header declares [nMu = -1], the first
    [new] throws, and the exception leaves [Read] with the stream still
    open. *)
Lemma allocation_failure_leaves_stream_open :
  Read_file host negative_nMu_file
  = Throws bad_array_new_length (final_world (Read_file host negative_nMu_file))
  /\ f (final_world (Read_file host negative_nMu_file)) = Some []
  /\ errors (final_world (Read_file host negative_nMu_file)) = [].
Proof.
  do 2 (split; [vm_compute; reflexivity|]). vm_compute. reflexivity.
Qed.

(* ================================================================== *)
(** * The error message (C6) *)

Lemma format_open_failed (p : string) :
  format_s open_failed_fmt p = open_failed_message p.
Proof. reflexivity. Qed.

Lemma format_incompatible (p : string) :
  format_s incompatible_fmt p = incompatible_message p.
Proof. reflexivity. Qed.

(** C6, as stated, fails: a file with [nBases = 2], a file with flags
    bit 1 set, a file with the wrong magic bytes and a truncated file all
    make [Read] report the same message, which names no constraint. *)
Lemma failures_share_one_message :
  errors (final_world (Read_file host two_bases_file))
  = [incompatible_message "table.bsdf"]
  /\ errors (final_world (Read_file host extrapolated_file))
     = errors (final_world (Read_file host two_bases_file))
  /\ errors (final_world (Read_file host bad_magic_file))
     = errors (final_world (Read_file host two_bases_file))
  /\ errors (final_world (Read_file host header_only_file))
     = errors (final_world (Read_file host two_bases_file)).
Proof.
  do 3 (split; [vm_compute; reflexivity|]). vm_compute. reflexivity.
Qed.

(** C6, amended.  Every failure of the loader reports exactly one
    message, which names the file path and depends only on whether the
    file could be opened: "Unable to open tabulated BSDF file <path>"
    when it could not, and otherwise, whatever went wrong, "Tabulated
    BSDF file <path> has an incompatible file format or version." *)
Theorem failure_message (cfg : Config) (fs : filesystem) (name : string)
    (t0 : FourierBSDFTable) (w : world) :
  Read cfg fs name t0 = Returns false w ->
  errors w
  = [match fs (c_str name) with
     | None => open_failed_message (c_str name)
     | Some _ => incompatible_message (c_str name)
     end].
Proof.
  intros H. apply Read_false_inv in H.
  destruct H as (_ & [(Hnone & _ & He)|(content & Hfs & He & _)]).
  - rewrite Hnone, He, format_open_failed. reflexivity.
  - rewrite Hfs, He, format_incompatible. reflexivity.
Qed.

Lemma failure_message_witness :
  Read host (only_file "table.bsdf" two_bases_file) "table.bsdf" indeterminate_table
  = Returns false (final_world (Read_file host two_bases_file))
  /\ errors (final_world (Read_file host two_bases_file))
     = [match only_file "table.bsdf" two_bases_file (c_str "table.bsdf") with
        | None => open_failed_message (c_str "table.bsdf")
        | Some _ => incompatible_message (c_str "table.bsdf")
        end].
Proof.
  refine (conj _
            (failure_message host (only_file "table.bsdf" two_bases_file) "table.bsdf"
               indeterminate_table (final_world (Read_file host two_bases_file)) _));
    vm_compute; reflexivity.
Defined.

(* ================================================================== *)
(** * The reciprocals (C7) *)

(** C7.  In every table the loader returns, [recip] has exactly [mMax]
    elements and, for every [k] in [1, mMax), [recip[k]] is
    [1 / (Float)k], the IEEE quotient; as long as [k] is below [2^p],
    [p] the precision of [Float], so that [(Float)k] is [k] itself, this
    is the number of the format nearest to [1 / k]. *)
Theorem reciprocals_table (cfg : Config) (fs : filesystem) (name : string)
    (t0 : FourierBSDFTable) (w : world) :
  Read cfg fs name t0 = Returns true w ->
  exists mx,
    mMax (table w) = Some mx
    /\ extent (recip (table w)) = Some mx
    /\ forall k, 1 <= k < mx ->
         elem (recip (table w)) k = Some (reciprocal_of (Float cfg) k)
         /\ (k < 2 ^ IEEE.prec (Float_format (Float cfg)) ->
             nearest_reciprocal (Float_format (Float cfg))
               (reciprocal_of (Float cfg) k) k).
Proof.
  intros Hrun. apply Read_true_inv in Hrun.
  destruct Hrun as (content & _ & _ & _ & _ & _ & Hl).
  exists (header_mMax content).
  split; [apply (ld_mMax _ _ _ Hl)|].
  split; [apply (ld_recip_extent _ _ _ Hl)|].
  intros k Hk. split.
  - apply (ld_recip _ _ _ Hl). lia.
  - intros Hp. apply reciprocal_of_nearest. lia.
Qed.

Lemma reciprocals_table_witness :
  Read host (only_file "table.bsdf" sample_file) "table.bsdf" indeterminate_table
  = Returns true (final_world (Read_file host sample_file))
  /\ exists mx,
       mMax (table (final_world (Read_file host sample_file))) = Some mx
       /\ extent (recip (table (final_world (Read_file host sample_file)))) = Some mx
       /\ forall k, 1 <= k < mx ->
            elem (recip (table (final_world (Read_file host sample_file)))) k
            = Some (reciprocal_of (Float host) k)
            /\ (k < 2 ^ IEEE.prec (Float_format (Float host)) ->
                nearest_reciprocal (Float_format (Float host))
                  (reciprocal_of (Float host) k) k).
Proof.
  refine (conj _
            (reciprocals_table host (only_file "table.bsdf" sample_file) "table.bsdf"
               indeterminate_table (final_world (Read_file host sample_file)) _));
    vm_compute; reflexivity.
Defined.

(* ================================================================== *)
(** * Byte order (C8) *)

(** C8, as stated, fails: [sample_file] is loaded on a little-endian
    host, and the same file written most significant byte first is
    rejected on a big-endian host. *)
Lemma opposite_order_file_rejected :
  Read_file (little_endian_host Single) sample_file
  = Returns true (final_world (Read_file (little_endian_host Single) sample_file))
  /\ Read_file (big_endian_host Single) sample_file_big_endian
     = Returns false
         (final_world (Read_file (big_endian_host Single) sample_file_big_endian))
  /\ int_at sample_file_big_endian 8 = 0x01000000.
Proof.
  do 2 (split; [vm_compute; reflexivity|]). vm_compute. reflexivity.
Qed.

(** C8, amended.  The words of a file are always read least significant
    byte first: for the same bytes, the loader ends the same way on a
    little-endian and on a big-endian host (same return value, same
    messages, stream closed on both), and when it returns [true] the two
    tables are identical. *)
Theorem same_bytes_same_table (r : real_type) (fs : filesystem) (name : string)
    (t0 : FourierBSDFTable) :
  same_outcome (Read (little_endian_host r) fs name t0)
               (Read (big_endian_host r) fs name t0).
Proof.
  unfold Read. destruct (fs (c_str name)) as [content|]; [|cbn; auto].
  pose proof (Read_body_agree r
                {| f := Some content; table := reset_pointers t0; errors := [] |}) as H.
  destruct (Read_body (little_endian_host r) _) as [x w1|w1|e1 w1|],
           (Read_body (big_endian_host r) _) as [y w2|w2|e2 w2|];
    cbn in H; try contradiction; cbn.
  - destruct H as (_ & ->). reflexivity.
  - destruct H as (H1 & H2). unfold Error, fclose. cbn. now rewrite H2.
  - exact H.
  - exact I.
Qed.

(* ================================================================== *)
(** * The number of angles (C9) *)

(** C9, as stated, fails: a header that declares [nMu = 0] is loaded. *)
Lemma zero_angles_loaded :
  header_nMu empty_table_file = 0
  /\ Read_file host empty_table_file
     = Returns true (final_world (Read_file host empty_table_file))
  /\ nMu (table (final_world (Read_file host empty_table_file))) = Some 0
  /\ mu (table (final_world (Read_file host empty_table_file))) = Some [].
Proof.
  do 3 (split; [vm_compute; reflexivity|]). vm_compute. reflexivity.
Qed.

(** C9, amended.  Every table the loader returns has the [nMu] of the
    file header, and [nMu >= 0]: a file whose header declares [nMu < 0]
    does not produce a loaded table. *)
Theorem loaded_nMu_nonnegative (cfg : Config) (fs : filesystem) (name : string)
    (t0 : FourierBSDFTable) (w : world) :
  Read cfg fs name t0 = Returns true w ->
  exists content,
    fs (c_str name) = Some content
    /\ nMu (table w) = Some (header_nMu content)
    /\ 0 <= header_nMu content.
Proof.
  intros Hrun. apply Read_true_inv in Hrun.
  destruct Hrun as (content & Hfs & _ & _ & _ & _ & Hl).
  exists content. split; [exact Hfs|].
  split; [apply (ld_nMu _ _ _ Hl)|apply (ld_nMu_pos _ _ _ Hl)].
Qed.

Lemma loaded_nMu_nonnegative_witness :
  Read host (only_file "table.bsdf" empty_table_file) "table.bsdf" indeterminate_table
  = Returns true (final_world (Read_file host empty_table_file))
  /\ exists content,
       only_file "table.bsdf" empty_table_file (c_str "table.bsdf") = Some content
       /\ nMu (table (final_world (Read_file host empty_table_file)))
          = Some (header_nMu content)
       /\ 0 <= header_nMu content.
Proof.
  refine (conj _
            (loaded_nMu_nonnegative host (only_file "table.bsdf" empty_table_file)
               "table.bsdf" indeterminate_table
               (final_world (Read_file host empty_table_file)) _));
    vm_compute; reflexivity.
Defined.


(* ================================================================== *)
(** * The arrays and scalars of a loaded table *)

(** In every table the loader returns, [mu], [cdf] and [a] hold the
    floats of their sections of the file, in file order, and have
    exactly [nMu], [nMu * nMu] and [nCoeffs] elements. *)
Theorem loaded_arrays_are_file_sections (cfg : Config) (fs : filesystem)
    (name : string) (t0 : FourierBSDFTable) (content : list byte) (w : world) :
  fs (c_str name) = Some content ->
  Read cfg fs name t0 = Returns true w ->
  extent (mu (table w)) = Some (header_nMu content)
  /\ extent (cdf (table w)) = Some (header_nMu content * header_nMu content)
  /\ extent (a (table w)) = Some (header_nCoeffs content)
  /\ (forall i, 0 <= i < header_nMu content ->
        elem (mu (table w)) i
        = Some (Float_at (Float cfg) content (off_mu + 4 * Z.to_nat i)))
  /\ (forall i, 0 <= i < header_nMu content * header_nMu content ->
        elem (cdf (table w)) i
        = Some (Float_at (Float cfg) content (off_cdf (header_nMu content) + 4 * Z.to_nat i)))
  /\ (forall i, 0 <= i < header_nCoeffs content ->
        elem (a (table w)) i
        = Some (Float_at (Float cfg) content (off_a (header_nMu content) + 4 * Z.to_nat i))).
Proof.
  intros Hfs Hrun. apply Read_true_inv in Hrun.
  destruct Hrun as (content' & Hfs' & _ & _ & _ & _ & Hl).
  assert (content' = content) by congruence. subst content'.
  pose proof (ld_nMu_pos _ _ _ Hl) as Hn.
  pose proof (ld_nCoeffs_pos _ _ _ Hl) as HnC.
  rewrite (ld_mu _ _ _ Hl), (ld_cdf _ _ _ Hl), (ld_a _ _ _ Hl).
  cbn [extent]. rewrite !Float_cells_length, !Z2Nat.id by nia.
  split; [reflexivity|]. split; [reflexivity|]. split; [reflexivity|].
  split; [|split]; intros i Hi; apply elem_Float_cells; lia.
Qed.

Lemma loaded_arrays_are_file_sections_witness :
  only_file "table.bsdf" sample_file (c_str "table.bsdf") = Some sample_file
  /\ Read host (only_file "table.bsdf" sample_file) "table.bsdf" indeterminate_table
     = Returns true (final_world (Read_file host sample_file))
  /\ (extent (mu (table (final_world (Read_file host sample_file))))
      = Some (header_nMu sample_file)
      /\ extent (cdf (table (final_world (Read_file host sample_file))))
         = Some (header_nMu sample_file * header_nMu sample_file)
      /\ extent (a (table (final_world (Read_file host sample_file))))
         = Some (header_nCoeffs sample_file)
      /\ (forall i, 0 <= i < header_nMu sample_file ->
            elem (mu (table (final_world (Read_file host sample_file)))) i
            = Some (Float_at (Float host) sample_file (off_mu + 4 * Z.to_nat i)))
      /\ (forall i, 0 <= i < header_nMu sample_file * header_nMu sample_file ->
            elem (cdf (table (final_world (Read_file host sample_file)))) i
            = Some (Float_at (Float host) sample_file
                      (off_cdf (header_nMu sample_file) + 4 * Z.to_nat i)))
      /\ (forall i, 0 <= i < header_nCoeffs sample_file ->
            elem (a (table (final_world (Read_file host sample_file)))) i
            = Some (Float_at (Float host) sample_file
                      (off_a (header_nMu sample_file) + 4 * Z.to_nat i)))).
Proof.
  refine (conj _ (conj _
            (loaded_arrays_are_file_sections host (only_file "table.bsdf" sample_file)
               "table.bsdf" indeterminate_table sample_file
               (final_world (Read_file host sample_file)) _ _)));
    vm_compute; reflexivity.
Defined.

(** In every table the loader returns, the scalars are those of the
    file header, and [nChannels] is 1 or 3. *)
Theorem loaded_scalars_are_header_fields (cfg : Config) (fs : filesystem)
    (name : string) (t0 : FourierBSDFTable) (content : list byte) (w : world) :
  fs (c_str name) = Some content ->
  Read cfg fs name t0 = Returns true w ->
  nMu (table w) = Some (header_nMu content)
  /\ mMax (table w) = Some (header_mMax content)
  /\ nChannels (table w) = Some (header_nChannels content)
  /\ eta (table w) = Some (Float_at (Float cfg) content 44)
  /\ (header_nChannels content = 1 \/ header_nChannels content = 3)
  /\ header_flags content = 1 /\ header_nBases content = 1
  /\ firstn 8 content = header_exp.
Proof.
  intros Hfs Hrun. apply Read_true_inv in Hrun.
  destruct Hrun as (content' & Hfs' & Hok & Hsup & _ & _ & Hl).
  assert (content' = content) by congruence. subst content'.
  unfold header_supported in Hsup. apply supported_true in Hsup.
  destruct Hsup as (Hf & Hc & Hb).
  split; [apply (ld_nMu _ _ _ Hl)|]. split; [apply (ld_mMax _ _ _ Hl)|].
  split; [apply (ld_nChannels _ _ _ Hl)|]. split; [apply (ld_eta _ _ _ Hl)|].
  split; [exact Hc|]. split; [exact Hf|]. split; [exact Hb|].
  now apply header_ok_magic.
Qed.

Lemma loaded_scalars_are_header_fields_witness :
  only_file "table.bsdf" sample_file (c_str "table.bsdf") = Some sample_file
  /\ Read host (only_file "table.bsdf" sample_file) "table.bsdf" indeterminate_table
     = Returns true (final_world (Read_file host sample_file))
  /\ (nMu (table (final_world (Read_file host sample_file)))
      = Some (header_nMu sample_file)
      /\ mMax (table (final_world (Read_file host sample_file)))
         = Some (header_mMax sample_file)
      /\ nChannels (table (final_world (Read_file host sample_file)))
         = Some (header_nChannels sample_file)
      /\ eta (table (final_world (Read_file host sample_file)))
         = Some (Float_at (Float host) sample_file 44)
      /\ (header_nChannels sample_file = 1 \/ header_nChannels sample_file = 3)
      /\ header_flags sample_file = 1 /\ header_nBases sample_file = 1
      /\ firstn 8 sample_file = header_exp).
Proof.
  refine (conj _ (conj _
            (loaded_scalars_are_header_fields host (only_file "table.bsdf" sample_file)
               "table.bsdf" indeterminate_table sample_file
               (final_world (Read_file host sample_file)) _ _)));
    vm_compute; reflexivity.
Defined.


(* ================================================================== *)
(** * The two loops run to their end *)

Lemma load_run (arr : array) (i : Z) (w : world) :
  in_bounds arr i = true -> load arr i w = Normal (elem (Some arr) i) w.
Proof.
  intros H. unfold load. rewrite H. rewrite elem_in_bounds by exact H. reflexivity.
Qed.

Lemma store_member_run get set (i : Z) (c : cell) (w : world) (arr : array) :
  get (table w) = Some arr -> in_bounds arr i = true ->
  store_member get set i c w
  = Normal tt (with_table (set (Some (update arr (Z.to_nat i) c)) (table w)) w).
Proof.
  intros Hg Hb. unfold store_member, bind, get_table, deref, store, modify_table, ret.
  rewrite Hg, Hb. reflexivity.
Qed.

Lemma extent_in_bounds (p : ptr) (n i : Z) :
  extent p = Some n -> 0 <= i < n ->
  exists arr, p = Some arr /\ in_bounds arr i = true.
Proof.
  intros He Hi. destruct p as [arr|]; [|discriminate].
  exists arr. split; [reflexivity|]. cbn in He.
  apply in_bounds_spec. assert (Z.of_nat (length arr) = n) by congruence. lia.
Qed.

Lemma elem_Some_load (arr : array) (i v : Z) :
  elem (Some arr) i = Some v -> in_bounds arr i = true.
Proof.
  unfold elem, in_bounds. destruct ((0 <=? i) && (i <? Z.of_nat (length arr)));
    [reflexivity|discriminate].
Qed.

Section Forward.
Variable cfg : Config.

Lemma derive_pair_defined (ol : array) (i : Z) (w : world) (N na off len : Z) :
  0 <= i < N ->
  extent (aOffset (table w)) = Some N -> extent (m (table w)) = Some N ->
  extent (a0 (table w)) = Some N -> extent (a (table w)) = Some na ->
  elem (Some ol) (2 * i) = Some off -> elem (Some ol) (2 * i + 1) = Some len ->
  (0 < len -> 0 <= off < na) ->
  exists w', derive_pair cfg ol i w = Normal tt w'.
Proof.
  intros Hi HO HM H0 HA E1 E2 Hsafe.
  destruct (extent_in_bounds _ _ _ HO Hi) as (arrO & EO & BO).
  destruct (extent_in_bounds _ _ _ HM Hi) as (arrM & EM & BM).
  destruct (extent_in_bounds _ _ _ H0 Hi) as (arr0 & E0 & B0).
  unfold derive_pair.
  erewrite bind_Normal by (apply load_run; eapply elem_Some_load; exact E1).
  rewrite E1. erewrite bind_Normal by reflexivity.
  erewrite bind_Normal by (apply load_run; eapply elem_Some_load; exact E2).
  rewrite E2. erewrite bind_Normal by reflexivity.
  erewrite bind_Normal by (apply (store_member_run aOffset set_aOffset _ _ _ arrO); assumption).
  erewrite bind_Normal
    by (apply (store_member_run m set_m _ _ _ arrM); [exact EM|exact BM]).
  destruct (0 <? len) eqn:Epos.
  - apply Z.ltb_lt in Epos.
    destruct (extent_in_bounds _ _ _ HA (Hsafe Epos)) as (arrA & EA & BA).
    erewrite bind_Normal.
    2:{ unfold bind at 1. unfold get_table. proj_simpl.
        unfold bind, deref. rewrite EA. unfold ret. apply load_run. exact BA. }
    eexists. apply (store_member_run a0 set_a0 _ _ _ arr0); [exact E0|exact B0].
  - erewrite bind_Normal by reflexivity.
    eexists. apply (store_member_run a0 set_a0 _ _ _ arr0); [exact E0|exact B0].
Qed.

Lemma derive_loop_defined (ol : array) (N na : Z) (cnt : nat) :
  forall (i : Z) (w : world),
    0 <= i -> i + Z.of_nat cnt <= N ->
    extent (aOffset (table w)) = Some N -> extent (m (table w)) = Some N ->
    extent (a0 (table w)) = Some N -> extent (a (table w)) = Some na ->
    (forall k, i <= k < i + Z.of_nat cnt ->
       exists off len,
         elem (Some ol) (2 * k) = Some off /\ elem (Some ol) (2 * k + 1) = Some len
         /\ (0 < len -> 0 <= off < na)) ->
    exists w', for_loop cnt i (derive_pair cfg ol) w = Normal tt w'.
Proof.
  induction cnt as [|cnt IH]; intros i w Hi Hle HO HM H0 HA Hpairs.
  - eexists. reflexivity.
  - cbn [for_loop].
    destruct (Hpairs i ltac:(lia)) as (off & len & E1 & E2 & Hsafe).
    destruct (derive_pair_defined ol i w N na off len ltac:(lia) HO HM H0 HA E1 E2 Hsafe)
      as (w1 & Hstep).
    erewrite bind_Normal by exact Hstep.
    destruct (derive_pair_step cfg ol i w w1 Hi Hstep) as (_ & _ & Hfr & _ & _).
    destruct Hfr as (_ & _ & Ha & _ & _ & XO & XM & X0).
    apply IH; try lia.
    + rewrite XO. exact HO.
    + rewrite XM. exact HM.
    + rewrite X0. exact H0.
    + rewrite Ha. exact HA.
    + intros k Hk. apply Hpairs. lia.
Qed.

Lemma derive_defined (ol : array) (n na : Z) (w : world) :
  nMu (table w) = Some n -> 0 <= n -> n * n <= INT_MAX ->
  extent (aOffset (table w)) = Some (n * n) -> extent (m (table w)) = Some (n * n) ->
  extent (a0 (table w)) = Some (n * n) -> extent (a (table w)) = Some na ->
  (forall k, 0 <= k < n * n ->
     exists off len,
       elem (Some ol) (2 * k) = Some off /\ elem (Some ol) (2 * k + 1) = Some len
       /\ (0 < len -> 0 <= off < na)) ->
  exists w', derive cfg ol w = Normal tt w'.
Proof.
  intros Hn Hn0 Hov HO HM H0 HA Hpairs. unfold derive.
  erewrite bind_Normal.
  2:{ rewrite (nMu_nMu_run w n Hn).
      replace ((INT_MIN <=? n * n) && (n * n <=? INT_MAX)) with true; [reflexivity|].
      symmetry. apply andb_true_iff. rewrite Z.leb_le, Z.leb_le.
      unfold INT_MIN. split; [nia|exact Hov]. }
  assert (Hnn : 0 <= n * n) by nia.
  apply (derive_loop_defined ol (n * n) na); try assumption; try lia.
  intros k Hk. apply Hpairs. lia.
Qed.

Lemma reciprocal_loop_defined (N : Z) (cnt : nat) :
  forall (i : Z) (w : world),
    0 <= i -> i + Z.of_nat cnt <= N ->
    extent (recip (table w)) = Some N ->
    exists w', for_loop cnt i (reciprocal cfg) w = Normal tt w'.
Proof.
  induction cnt as [|cnt IH]; intros i w Hi Hle HR.
  - eexists. reflexivity.
  - cbn [for_loop].
    destruct (extent_in_bounds _ N i HR ltac:(lia)) as (arr & ER & BR).
    assert (Hstep : reciprocal cfg i w
                    = Normal tt (with_table (set_recip (Some (update arr (Z.to_nat i)
                        (Some (reciprocal_of (Float cfg) i)))) (table w)) w))
      by (apply (store_member_run recip set_recip _ _ _ arr); assumption).
    erewrite bind_Normal by exact Hstep.
    apply IH; try lia.
    proj_simpl. rewrite extent_update. rewrite <- ER. exact HR.
Qed.

Lemma reciprocals_defined (mx : Z) (w : world) :
  mMax (table w) = Some mx -> 0 <= mx ->
  exists w', reciprocals cfg w = Normal tt w'.
Proof.
  intros Hmx H0. unfold reciprocals.
  unfold bind at 1. unfold get_table. rewrite Hmx.
  unfold bind at 1. unfold value_of, ret.
  unfold bind at 1. unfold alloc_member, bind, new_array, modify_table, ret.
  replace (mx <? 0) with false by (symmetry; apply Z.ltb_ge; exact H0).
  apply (reciprocal_loop_defined mx); try lia.
  proj_simpl. cbn [extent]. rewrite repeat_length, Z2Nat.id by lia. reflexivity.
Qed.

End Forward.

(* ================================================================== *)
(** * The run of [Read] on a file with whole sections *)

Section Accepts.
Variable cfg : Config.
Variable content : list byte.

(** After the reads of fourier.cpp:163-166 succeeded, what is left of
    [Read] are the two loops. *)
Lemma Read_body_tail t e :
  header_ok content = true -> header_supported content = true ->
  sizes_ok content -> sections_whole content ->
  Read_body cfg {| f := Some content; table := t; errors := e |}
  = (derive cfg (pairs_read content (header_nMu content)) ;;; reciprocals cfg)
      {| f := Some (skipn (off_end (header_nMu content) (header_nCoeffs content)) content);
         table := sections_table (Float cfg) content (header_nMu content)
                    (header_nCoeffs content)
                    (allocated (header_nMu content) (header_nCoeffs content)
                       (header_table (Float cfg) content t));
         errors := e |}.
Proof.
  intros Hok Hsup (Hn & Hov & HnC) Hwhole. unfold Read_body.
  pose proof Hok as Hok'. unfold header_ok in Hok'.
  apply andb_true_iff in Hok'. destruct Hok' as (Hlen & Hmagic).
  apply Nat.leb_le in Hlen.
  erewrite bind_Normal.
  2:{ rewrite check_magic_run.
      replace (8 <=? length content)%nat with true by (symmetry; apply Nat.leb_le; lia).
      rewrite Hmagic. reflexivity. }
  erewrite bind_Normal by (apply read_header_whole; exact Hlen).
  cbv beta iota.
  unfold bind at 1.
  rewrite (validate_run _ _ _ (header_nChannels content)) by reflexivity.
  fold (header_supported content). rewrite Hsup.
  unfold bind at 1.
  rewrite (allocate_run (header_nCoeffs content) _ (header_nMu content)) by reflexivity.
  replace (header_nMu content <? 0) with false by (symmetry; apply Z.ltb_ge; exact Hn).
  replace (header_nMu content * header_nMu content * 2 <=? INT_MAX) with true
    by (symmetry; apply Z.leb_le; exact Hov).
  replace (header_nCoeffs content <? 0) with false by (symmetry; apply Z.ltb_ge; exact HnC).
  unfold with_table. cbn [f table errors].
  erewrite bind_Normal.
  2:{ apply (read_sections_whole cfg content); try assumption; try reflexivity.
      split; [exact HnC|apply sint32_range]. }
  reflexivity.
Qed.

Lemma pairs_read_elems (k : Z) :
  0 <= k < header_nMu content * header_nMu content ->
  elem (Some (pairs_read content (header_nMu content))) (2 * k)
  = Some (pair_offset content k)
  /\ elem (Some (pairs_read content (header_nMu content))) (2 * k + 1)
     = Some (pair_length content k).
Proof.
  intros Hk. unfold pairs_read, pair_offset, pair_length.
  rewrite !elem_int_cells by nia.
  split; do 2 f_equal; lia.
Qed.

(** The first loop runs into an out-of-bounds index, or to its end. *)
Lemma derive_sections t e :
  sizes_ok content ->
  let ws := {| f := Some (skipn (off_end (header_nMu content) (header_nCoeffs content)) content);
               table := sections_table (Float cfg) content (header_nMu content)
                          (header_nCoeffs content)
                          (allocated (header_nMu content) (header_nCoeffs content)
                             (header_table (Float cfg) content t));
               errors := e |} in
  (offsets_in_bounds content ->
   exists w', derive cfg (pairs_read content (header_nMu content)) ws = Normal tt w'
              /\ f w' = f ws /\ errors w' = e
              /\ mMax (table w') = Some (header_mMax content))
  /\ (~ offsets_in_bounds content ->
      derive cfg (pairs_read content (header_nMu content)) ws = Undefined).
Proof.
  intros (Hn & Hov & HnC) ws.
  assert (Hext : extent (a (table ws)) = Some (header_nCoeffs content)).
  { cbn. rewrite Float_cells_length, Z2Nat.id by lia. reflexivity. }
  split.
  - intros Hsafe.
    destruct (derive_defined cfg (pairs_read content (header_nMu content))
                (header_nMu content) (header_nCoeffs content) ws) as (w' & Hrun);
      try reflexivity; try assumption.
    + unfold INT_MAX in *. nia.
    + apply extent_fresh. nia.
    + apply extent_fresh. nia.
    + apply extent_fresh. nia.
    + intros k Hk. destruct (pairs_read_elems k Hk) as (E1 & E2).
      exists (pair_offset content k), (pair_length content k).
      split; [exact E1|]. split; [exact E2|]. apply Hsafe. exact Hk.
    + exists w'. split; [exact Hrun|].
      apply (derive_Normal cfg _ (header_nMu content)) in Hrun; [|reflexivity|exact Hn].
      destruct Hrun as (Hf & He & ((_ & HmMax & _) & _) & _).
      split; [exact Hf|]. split; [exact He|]. rewrite HmMax. reflexivity.
  - intros Hunsafe.
    pose proof (quiet_derive cfg (pairs_read content (header_nMu content)) ws) as Hq.
    destruct (derive cfg (pairs_read content (header_nMu content)) ws)
      as [u wd| | |] eqn:Hd; try contradiction; [|reflexivity].
    exfalso. apply Hunsafe. destruct u.
    apply (derive_Normal cfg _ (header_nMu content)) in Hd; [|reflexivity|exact Hn].
    destruct Hd as (_ & _ & Hfr & Hpairs).
    intros k Hk Hpos.
    destruct (Hpairs k Hk) as (off & len & H1 & H2 & _ & _ & H5 & _).
    destruct (pairs_read_elems k Hk) as (E1 & E2).
    assert (off = pair_offset content k) by congruence.
    assert (len = pair_length content k) by congruence. subst off len.
    destruct (H5 Hpos) as ((x & Hx & Hr) & _).
    destruct Hfr as (_ & _ & Ha & _).
    rewrite Ha, Hext in Hx. assert (x = header_nCoeffs content) by congruence.
    subst x. exact Hr.
Qed.

Lemma reciprocals_throws (mx : Z) (w : world) :
  mMax (table w) = Some mx -> mx < 0 ->
  reciprocals cfg w = Throw bad_array_new_length w.
Proof.
  intros Hmx Hneg. unfold reciprocals.
  unfold bind at 1. unfold get_table. rewrite Hmx.
  unfold bind at 1. unfold value_of, ret.
  unfold bind at 1. unfold alloc_member, bind, new_array, throw.
  replace (mx <? 0) with true by (symmetry; apply Z.ltb_lt; exact Hneg).
  reflexivity.
Qed.

(** What is left of [Read] after the header passed the test of
    fourier.cpp:151 are the allocations and what follows them. *)
Lemma Read_body_sizes t e :
  header_ok content = true -> header_supported content = true ->
  Read_body cfg {| f := Some content; table := t; errors := e |}
  = (offsetAndLength <- allocate (header_nCoeffs content) ;;
     offsetAndLength <- read_sections cfg (header_nCoeffs content) offsetAndLength ;;
     derive cfg offsetAndLength ;;; reciprocals cfg)
      {| f := Some (skipn 64 content);
         table := header_table (Float cfg) content t; errors := e |}.
Proof.
  intros Hok Hsup. unfold Read_body.
  pose proof Hok as Hok'. unfold header_ok in Hok'.
  apply andb_true_iff in Hok'. destruct Hok' as (Hlen & Hmagic).
  apply Nat.leb_le in Hlen.
  erewrite bind_Normal.
  2:{ rewrite check_magic_run.
      replace (8 <=? length content)%nat with true by (symmetry; apply Nat.leb_le; lia).
      rewrite Hmagic. reflexivity. }
  erewrite bind_Normal by (apply read_header_whole; exact Hlen).
  cbv beta iota.
  unfold bind at 1.
  rewrite (validate_run _ _ _ (header_nChannels content)) by reflexivity.
  fold (header_supported content). rewrite Hsup. reflexivity.
Qed.

End Accepts.

(* ================================================================== *)
(** * How a call of [Read] on a supported header ends *)

Section Outcomes.
Variable cfg : Config.
Variable fs : filesystem.
Variable name : string.
Variable t0 : FourierBSDFTable.

Lemma loaded_well_formed (content : list byte) (T : FourierBSDFTable) :
  header_ok content = true -> header_supported content = true ->
  loaded (Float cfg) content T -> well_formed content.
Proof.
  intros Hok Hsup Hl.
  split; [exact Hok|]. split; [exact Hsup|].
  split; [split; [apply (ld_nMu_pos _ _ _ Hl)|
                  split; [apply (ld_no_overflow _ _ _ Hl)|apply (ld_nCoeffs_pos _ _ _ Hl)]]|].
  split; [apply (ld_mMax_pos _ _ _ Hl)|].
  split; [apply (ld_whole _ _ _ Hl)|].
  intros k Hk Hpos. apply (loaded_pair cfg content T Hl k Hk). exact Hpos.
Qed.

Lemma Read_accepts (content : list byte) :
  fs (c_str name) = Some content -> well_formed content ->
  exists w, Read cfg fs name t0 = Returns true w.
Proof.
  intros Hfs (Hok & Hsup & Hsz & Hmx & Hwhole & Hsafe). unfold Read. rewrite Hfs.
  rewrite (Read_body_tail cfg content _ _ Hok Hsup Hsz Hwhole).
  destruct (derive_sections cfg content (reset_pointers t0) [] Hsz) as (Hrun & _).
  destruct (Hrun Hsafe) as (w1 & Hd & _ & _ & HmMax).
  erewrite bind_Normal by exact Hd.
  destruct (reciprocals_defined cfg (header_mMax content) w1 HmMax Hmx) as (w2 & Hr).
  rewrite Hr. eauto.
Qed.

End Outcomes.

(* ================================================================== *)
(** * The loaded table is a function of the file *)

Lemma ptr_ext (p q : ptr) (n : Z) :
  extent p = Some n -> extent q = Some n ->
  (forall k, 0 <= k < n -> elem p k = elem q k) -> p = q.
Proof.
  intros Hp Hq Hel. destruct p as [l1|], q as [l2|]; try discriminate.
  cbn in Hp, Hq. f_equal.
  assert (L1 : Z.of_nat (length l1) = n) by congruence.
  assert (L2 : Z.of_nat (length l2) = n) by congruence.
  apply (nth_ext l1 l2 None None); [lia|].
  intros i Hi. specialize (Hel (Z.of_nat i) ltac:(lia)).
  rewrite !elem_in_bounds in Hel by (apply in_bounds_spec; lia).
  rewrite Nat2Z.id in Hel. exact Hel.
Qed.

Lemma loaded_unique (r : real_type) (content : list byte) (T T' : FourierBSDFTable) :
  loaded r content T -> loaded r content T' -> T = T'.
Proof.
  intros H H'.
  set (cfg := {| big_endian := false; Float := r |}).
  assert (Ha : a T = a T') by (rewrite (ld_a _ _ _ H), (ld_a _ _ _ H'); reflexivity).
  assert (HO : aOffset T = aOffset T').
  { apply (ptr_ext _ _ _ (ld_aOffset_extent _ _ _ H) (ld_aOffset_extent _ _ _ H')).
    intros k Hk.
    destruct (loaded_pair cfg content T H k Hk) as (E & _).
    destruct (loaded_pair cfg content T' H' k Hk) as (E' & _). congruence. }
  assert (HM : m T = m T').
  { apply (ptr_ext _ _ _ (ld_m_extent _ _ _ H) (ld_m_extent _ _ _ H')).
    intros k Hk.
    destruct (loaded_pair cfg content T H k Hk) as (_ & E & _).
    destruct (loaded_pair cfg content T' H' k Hk) as (_ & E' & _). congruence. }
  assert (H0 : a0 T = a0 T').
  { apply (ptr_ext _ _ _ (ld_a0_extent _ _ _ H) (ld_a0_extent _ _ _ H')).
    intros k Hk.
    destruct (loaded_pair cfg content T H k Hk) as (_ & _ & Ep & Ez).
    destruct (loaded_pair cfg content T' H' k Hk) as (_ & _ & Ep' & Ez').
    destruct (Z_lt_le_dec 0 (int_at content
                (off_pairs (header_nMu content) + 8 * Z.to_nat k + 4))) as [Hpos|Hle].
    - destruct (Ep Hpos) as (_ & E & _). destruct (Ep' Hpos) as (_ & E' & _).
      rewrite E, E', Ha. reflexivity.
    - rewrite (Ez Hle), (Ez' Hle). reflexivity. }
  assert (HR : recip T = recip T').
  { apply (ptr_ext _ _ _ (ld_recip_extent _ _ _ H) (ld_recip_extent _ _ _ H')).
    intros k Hk. rewrite (ld_recip _ _ _ H k Hk), (ld_recip _ _ _ H' k Hk). reflexivity. }
  pose proof (ld_eta _ _ _ H) as E1. pose proof (ld_eta _ _ _ H') as E1'.
  pose proof (ld_mMax _ _ _ H) as E2. pose proof (ld_mMax _ _ _ H') as E2'.
  pose proof (ld_nChannels _ _ _ H) as E3. pose proof (ld_nChannels _ _ _ H') as E3'.
  pose proof (ld_nMu _ _ _ H) as E4. pose proof (ld_nMu _ _ _ H') as E4'.
  pose proof (ld_mu _ _ _ H) as E5. pose proof (ld_mu _ _ _ H') as E5'.
  pose proof (ld_cdf _ _ _ H) as E6. pose proof (ld_cdf _ _ _ H') as E6'.
  clear H H'.
  destruct T, T'. cbn in *. congruence.
Qed.

Lemma Read_true_unique (cfg : Config) (fs fs' : filesystem) (name name' : string)
    (t0 t0' : FourierBSDFTable) (content : list byte) (w w' : world) :
  fs (c_str name) = Some content -> fs' (c_str name') = Some content ->
  Read cfg fs name t0 = Returns true w ->
  Read cfg fs' name' t0' = Returns true w' -> w = w'.
Proof.
  intros Hfs Hfs' H H'.
  apply Read_true_inv in H. destruct H as (c & Hc & _ & _ & Hf & He & Hl).
  apply Read_true_inv in H'. destruct H' as (c' & Hc' & _ & _ & Hf' & He' & Hl').
  assert (c = content) by congruence. assert (c' = content) by congruence. subst c c'.
  pose proof (loaded_unique _ _ _ _ Hl Hl') as HT.
  destruct w, w'. cbn in *. congruence.
Qed.

(* ================================================================== *)
(** * The bytes that [Read] does not look at *)

Lemma split_elems_firstn (size count : nat) :
  forall (N : nat) (s : list byte),
    (size * count <= N)%nat ->
    split_elems size count (firstn N s) = split_elems size count s.
Proof.
  induction count as [|c IH]; intros N s H; [reflexivity|].
  cbn [split_elems]. rewrite firstn_firstn, Nat.min_l by lia.
  rewrite skipn_firstn_comm, IH by lia. reflexivity.
Qed.

Lemma split_elems_prefix (size count d N : nat) (s s' : list byte) :
  firstn N s' = firstn N s -> (d + size * count <= N)%nat ->
  split_elems size count (skipn d s') = split_elems size count (skipn d s).
Proof.
  intros H Hle.
  rewrite <- (split_elems_firstn size count (N - d) (skipn d s')) by lia.
  rewrite <- (split_elems_firstn size count (N - d) (skipn d s)) by lia.
  rewrite <- !skipn_firstn_comm, H. reflexivity.
Qed.

Lemma int_at_prefix (N off : nat) (c c' : list byte) :
  firstn N c' = firstn N c -> (off + 4 <= N)%nat -> int_at c' off = int_at c off.
Proof.
  intros H Hle. unfold int_at. do 2 f_equal.
  assert (E : forall x : list byte, firstn 4 x = firstn 4 (firstn (N - off) x))
    by (intros x; rewrite firstn_firstn, Nat.min_l by lia; reflexivity).
  rewrite (E (skipn off c')), (E (skipn off c)).
  rewrite <- !skipn_firstn_comm, H. reflexivity.
Qed.

Lemma int_at_data (N off : nat) (c c' : list byte) :
  firstn N (skipn 64 c') = firstn N (skipn 64 c) -> (off + 4 <= N)%nat ->
  int_at c' (64 + off) = int_at c (64 + off).
Proof.
  intros H Hle.
  assert (E : forall x : list byte, int_at x (64 + off) = int_at (skipn 64 x) off).
  { intros x. unfold int_at. rewrite skipn_skipn. do 4 f_equal. lia. }
  rewrite !E. apply (int_at_prefix N); assumption.
Qed.

Lemma split_elems_data (size count d N : nat) (c c' : list byte) :
  firstn N (skipn 64 c') = firstn N (skipn 64 c) -> (d + size * count <= N)%nat ->
  split_elems size count (skipn (64 + d) c') = split_elems size count (skipn (64 + d) c).
Proof.
  intros H Hle.
  replace (64 + d)%nat with (d + 64)%nat by lia. rewrite <- !skipn_skipn.
  apply (split_elems_prefix _ _ _ N); assumption.
Qed.

Section Relevant.
Variables c c' : list byte.
Hypothesis Hsame : same_relevant_bytes c c'.
Hypothesis Hwhole : sections_whole c.

Lemma relevant_head (off : nat) : (off + 4 <= 32)%nat -> int_at c' off = int_at c off.
Proof. intros H. apply (int_at_prefix 32); [apply Hsame|exact H]. Qed.

Lemma relevant_nMu : header_nMu c' = header_nMu c.
Proof. apply relevant_head. lia. Qed.

Lemma relevant_nCoeffs : header_nCoeffs c' = header_nCoeffs c.
Proof. apply relevant_head. lia. Qed.

Lemma relevant_mMax : header_mMax c' = header_mMax c.
Proof. apply relevant_head. lia. Qed.

Lemma relevant_nChannels : header_nChannels c' = header_nChannels c.
Proof. apply relevant_head. lia. Qed.

Lemma relevant_flags : header_flags c' = header_flags c.
Proof. apply relevant_head. lia. Qed.

Lemma relevant_nBases : header_nBases c' = header_nBases c.
Proof. apply relevant_head. lia. Qed.

Lemma relevant_eta (r : real_type) : Float_at r c' 44 = Float_at r c 44.
Proof.
  destruct Hsame as (_ & _ & H & _). unfold Float_at, int_at. rewrite H. reflexivity.
Qed.

Lemma relevant_header_ok : header_ok c = true -> header_ok c' = true.
Proof.
  destruct Hsame as (H64 & H32 & _). unfold header_ok. intros H.
  apply andb_true_iff in H. destruct H as (_ & Hm).
  apply andb_true_iff. split; [apply Nat.leb_le; lia|].
  replace (firstn 8 c') with (firstn 8 c); [exact Hm|].
  assert (E : forall x : list byte, firstn 8 x = firstn 8 (firstn 32 x))
    by (intros x; rewrite firstn_firstn, Nat.min_l by lia; reflexivity).
  rewrite (E c), (E c'), H32. reflexivity.
Qed.

Lemma relevant_whole : sections_whole c'.
Proof.
  destruct Hsame as (H64 & _ & _ & Hd). unfold sections_whole in *.
  rewrite relevant_nMu, relevant_nCoeffs.
  apply (f_equal (@length byte)) in Hd. rewrite !length_firstn, !length_skipn in Hd.
  lia.
Qed.

Lemma relevant_pair (k : Z) :
  0 <= header_nMu c ->
  0 <= k < header_nMu c * header_nMu c ->
  pair_offset c' k = pair_offset c k /\ pair_length c' k = pair_length c k.
Proof.
  intros Hn Hk. unfold pair_offset, pair_length. rewrite relevant_nMu.
  destruct Hsame as (_ & _ & _ & Hd).
  set (N := (off_end (header_nMu c) (header_nCoeffs c) - 64)%nat) in *.
  assert (Hb : (off_pairs (header_nMu c) + 8 * Z.to_nat k + 8
                <= off_end (header_nMu c) (header_nCoeffs c))%nat).
  { unfold off_end, off_a.
    assert (Z.to_nat k < Z.to_nat (header_nMu c * header_nMu c))%nat
      by (apply Z2Nat.inj_lt; lia).
    assert (Z.to_nat (header_nMu c * header_nMu c * 2)
            = (2 * Z.to_nat (header_nMu c * header_nMu c))%nat)
      by (rewrite Z2Nat.inj_mul by nia; lia).
    lia. }
  assert (H64 : (64 <= off_pairs (header_nMu c))%nat)
    by (unfold off_pairs, off_cdf, off_mu; lia).
  replace (off_pairs (header_nMu c) + 8 * Z.to_nat k)%nat
    with (64 + (off_pairs (header_nMu c) - 64 + 8 * Z.to_nat k))%nat by lia.
  replace (64 + (off_pairs (header_nMu c) - 64 + 8 * Z.to_nat k) + 4)%nat
    with (64 + (off_pairs (header_nMu c) - 64 + 8 * Z.to_nat k + 4))%nat by lia.
  split; apply (int_at_data N); try exact Hd; unfold N; lia.
Qed.

Lemma relevant_well_formed : well_formed c -> well_formed c'.
Proof.
  intros (Hok & Hsup & (Hn & Hov & HnC) & Hmx & _ & Hsafe).
  split; [apply relevant_header_ok; exact Hok|].
  split; [unfold header_supported;
          rewrite relevant_flags, relevant_nChannels, relevant_nBases; exact Hsup|].
  split; [unfold sizes_ok; rewrite relevant_nMu, relevant_nCoeffs; auto|].
  split; [rewrite relevant_mMax; exact Hmx|].
  split; [exact relevant_whole|].
  intros k Hk. rewrite relevant_nMu in Hk. rewrite relevant_nCoeffs.
  destruct (relevant_pair k Hn Hk) as (-> & ->). apply Hsafe. exact Hk.
Qed.

Lemma relevant_loaded (r : real_type) (T : FourierBSDFTable) :
  loaded r c T -> loaded r c' T.
Proof.
  intros H. pose proof relevant_whole as Hwhole'.
  unfold sections_whole in Hwhole'. rewrite relevant_nMu, relevant_nCoeffs in Hwhole'.
  pose proof (ld_nMu_pos _ _ _ H) as Hn.
  pose proof (ld_no_overflow _ _ _ H) as Hov.
  pose proof (ld_nCoeffs_pos _ _ _ H) as HnC.
  destruct Hsame as (_ & _ & _ & Hd).
  set (N := (off_end (header_nMu c) (header_nCoeffs c) - 64)%nat) in *.
  assert (E2 : Z.to_nat (header_nMu c * header_nMu c * 2)
               = (2 * Z.to_nat (header_nMu c * header_nMu c))%nat)
    by (rewrite Z2Nat.inj_mul by nia; lia).
  assert (Emu : Float_cells r (Z.to_nat (header_nMu c)) (skipn off_mu c')
                = Float_cells r (Z.to_nat (header_nMu c)) (skipn off_mu c)).
  { unfold Float_cells. f_equal. change off_mu with (64 + 0)%nat.
    apply (split_elems_data _ _ _ N); [exact Hd|].
    unfold N, off_end, off_a, off_pairs, off_cdf, off_mu. lia. }
  assert (Ecdf : Float_cells r (Z.to_nat (header_nMu c * header_nMu c))
                   (skipn (off_cdf (header_nMu c)) c')
                 = Float_cells r (Z.to_nat (header_nMu c * header_nMu c))
                     (skipn (off_cdf (header_nMu c)) c)).
  { unfold Float_cells. f_equal. unfold off_cdf, off_mu.
    apply (split_elems_data _ _ _ N); [exact Hd|].
    unfold N, off_end, off_a, off_pairs, off_cdf, off_mu. lia. }
  assert (Ea : Float_cells r (Z.to_nat (header_nCoeffs c)) (skipn (off_a (header_nMu c)) c')
               = Float_cells r (Z.to_nat (header_nCoeffs c)) (skipn (off_a (header_nMu c)) c)).
  { unfold Float_cells. f_equal. unfold off_a, off_pairs, off_cdf, off_mu.
    rewrite <- !Nat.add_assoc.
    apply (split_elems_data _ _ _ N); [exact Hd|].
    unfold N, off_end, off_a, off_pairs, off_cdf, off_mu. lia. }
  assert (Ep : pairs_read c' (header_nMu c) = pairs_read c (header_nMu c)).
  { unfold pairs_read, int_cells. f_equal. unfold off_pairs, off_cdf, off_mu.
    rewrite <- !Nat.add_assoc.
    apply (split_elems_data _ _ _ N); [exact Hd|].
    unfold N, off_end, off_a, off_pairs, off_cdf, off_mu. lia. }
  constructor; rewrite ?relevant_nMu, ?relevant_nCoeffs, ?relevant_mMax,
                 ?relevant_nChannels, ?relevant_eta, ?Emu, ?Ecdf, ?Ea, ?Ep;
    try apply H.
  exact Hwhole'.
Qed.

End Relevant.

(* ================================================================== *)
(** * Nothing in a loaded table is indeterminate *)

Lemma filled_map_Some {A} (g : A -> Z) (l : list A) (d : A) (n : Z) :
  n = Z.of_nat (length l) -> filled (Some (map (fun e => Some (g e)) l)) n.
Proof.
  intros ->. split; [cbn; rewrite length_map; reflexivity|].
  intros k Hk. rewrite (elem_map_Some g l d k Hk). eauto.
Qed.

Lemma loaded_filled (cfg : Config) (content : list byte) (T : FourierBSDFTable) :
  loaded (Float cfg) content T ->
  filled (mu T) (header_nMu content)
  /\ filled (cdf T) (header_nMu content * header_nMu content)
  /\ filled (a T) (header_nCoeffs content)
  /\ filled (aOffset T) (header_nMu content * header_nMu content)
  /\ filled (m T) (header_nMu content * header_nMu content)
  /\ filled (a0 T) (header_nMu content * header_nMu content)
  /\ filled (recip T) (header_mMax content).
Proof.
  intros H.
  pose proof (ld_nMu_pos _ _ _ H) as Hn.
  pose proof (ld_nCoeffs_pos _ _ _ H) as HnC.
  split; [rewrite (ld_mu _ _ _ H); apply (filled_map_Some _ _ []);
          rewrite split_elems_length, Z2Nat.id by lia; reflexivity|].
  split; [rewrite (ld_cdf _ _ _ H); apply (filled_map_Some _ _ []);
          rewrite split_elems_length, Z2Nat.id by nia; reflexivity|].
  split; [rewrite (ld_a _ _ _ H); apply (filled_map_Some _ _ []);
          rewrite split_elems_length, Z2Nat.id by lia; reflexivity|].
  split; [split; [apply (ld_aOffset_extent _ _ _ H)|];
          intros k Hk; destruct (loaded_pair cfg content T H k Hk) as (E & _); eauto|].
  split; [split; [apply (ld_m_extent _ _ _ H)|];
          intros k Hk; destruct (loaded_pair cfg content T H k Hk) as (_ & E & _); eauto|].
  split.
  - split; [apply (ld_a0_extent _ _ _ H)|]. intros k Hk.
    destruct (loaded_pair cfg content T H k Hk) as (_ & _ & Ep & Ez).
    destruct (Z_lt_le_dec 0 (int_at content
                (off_pairs (header_nMu content) + 8 * Z.to_nat k + 4))) as [Hpos|Hle].
    + destruct (Ep Hpos) as (_ & E & v & Hv). exists v. rewrite E. exact Hv.
    + rewrite (Ez Hle). eauto.
  - split; [apply (ld_recip_extent _ _ _ H)|].
    intros k Hk. rewrite (ld_recip _ _ _ H k Hk). eauto.
Qed.


(* ================================================================== *)
(** * The conversion of a stored [float] to [Float] is exact *)

Section Widening.
Variable fmt : IEEE.format.
Hypothesis Hp : 1 <= IEEE.mbits fmt.
Hypothesis HX : IEEE.mbits fmt + 2 <= IEEE.emax fmt.
Hypothesis HW : 2 ^ IEEE.ewidth fmt = 2 * IEEE.emax fmt + 2.

(** A scaled integer of at most [prec] bits whose exponent is in range
    is rounded to itself. *)
Lemma round_mag_exact (mt a b : Z) :
  1 <= mt -> 0 <= a -> 0 <= b ->
  Z.log2 mt <= IEEE.mbits fmt ->
  IEEE.emin fmt <= Z.log2 mt + a - b <= IEEE.emax fmt ->
  IEEE.round_mag fmt (mt * 2 ^ a) (2 ^ b)
  = (Z.log2 mt + a - b - IEEE.emin fmt) * 2 ^ IEEE.mbits fmt
    + mt * 2 ^ (IEEE.mbits fmt - Z.log2 mt)
  /\ 2 ^ IEEE.mbits fmt <= mt * 2 ^ (IEEE.mbits fmt - Z.log2 mt)
     < 2 ^ (IEEE.mbits fmt + 1).
Proof.
  intros Hm Ha Hb HL He.
  pose proof (pow_mbits_pos fmt Hp) as Hpp.
  set (p := IEEE.mbits fmt) in *. set (X := IEEE.emax fmt) in *.
  assert (Hemin : IEEE.emin fmt = 1 - X) by reflexivity.
  rewrite Hemin in *.
  pose proof (Z.log2_spec mt ltac:(lia)) as Hspec.
  pose proof (Z.log2_nonneg mt) as HL0.
  set (L := Z.log2 mt) in *.
  replace (Z.succ L) with (L + 1) in Hspec by lia.
  rewrite pow2_succ in Hspec by lia.
  assert (H2a : 0 < 2 ^ a) by (apply Z.pow_pos_nonneg; lia).
  assert (H2b : 0 < 2 ^ b) by (apply Z.pow_pos_nonneg; lia).
  assert (H2L : 0 < 2 ^ L) by (apply Z.pow_pos_nonneg; lia).
  assert (H2q : 0 < 2 ^ (p - L)) by (apply Z.pow_pos_nonneg; lia).
  assert (Hsplit : 2 ^ p = 2 ^ L * 2 ^ (p - L))
    by (rewrite <- Z.pow_add_r by lia; f_equal; lia).
  assert (Hsig : 2 ^ p <= mt * 2 ^ (p - L) < 2 ^ (p + 1)).
  { rewrite pow2_succ, Hsplit by lia. nia. }
  split; [|exact Hsig].
  unfold IEEE.round_mag. fold p. rewrite Hemin.
  replace (mt * 2 ^ a =? 0) with false by (symmetry; apply Z.eqb_neq; nia).
  rewrite Z.log2_mul_pow2, Z.log2_pow2 by lia. fold L.
  replace (a + L - b) with (L + a - b) by lia.
  set (e0 := L + a - b) in *.
  replace (mt * 2 ^ a * 2 ^ Z.max 0 (- e0) <? 2 ^ b * 2 ^ Z.max 0 e0) with false.
  2:{ symmetry. apply Z.ltb_ge.
      destruct (Z_lt_le_dec e0 0) as [Hneg|Hpos].
      - rewrite (Z.max_r 0 (- e0)), (Z.max_l 0 e0) by lia.
        rewrite Z.pow_0_r, Z.mul_1_r.
        replace (2 ^ b) with (2 ^ L * (2 ^ a * 2 ^ (- e0)))
          by (rewrite <- !Z.pow_add_r by lia; f_equal; lia).
        nia.
      - rewrite (Z.max_l 0 (- e0)), (Z.max_r 0 e0) by lia.
        rewrite Z.pow_0_r, Z.mul_1_r.
        replace (2 ^ b * 2 ^ e0) with (2 ^ L * 2 ^ a)
          by (rewrite <- !Z.pow_add_r by lia; f_equal; lia).
        nia. }
  rewrite (Z.max_l e0 (1 - X)) by lia.
  rewrite (rne_exact _ _ (mt * 2 ^ (p - L))).
  - replace (IEEE.inf_bits fmt <=? (e0 - (1 - X)) * 2 ^ p + mt * 2 ^ (p - L)) with false;
      [reflexivity|].
    symmetry. apply Z.leb_gt. unfold IEEE.inf_bits. fold p. rewrite HW.
    rewrite pow2_succ in Hsig by lia. nia.
  - assert (0 < 2 ^ Z.max 0 (- (p - e0))) by (apply Z.pow_pos_nonneg; lia). nia.
  - destruct (Z_lt_le_dec (p - e0) 0) as [Hneg|Hpos].
    + rewrite (Z.max_l 0 (p - e0)), (Z.max_r 0 (- (p - e0))) by lia.
      rewrite Z.pow_0_r, Z.mul_1_r.
      replace (2 ^ a) with (2 ^ (p - L) * (2 ^ b * 2 ^ (- (p - e0))))
        by (rewrite <- !Z.pow_add_r by lia; f_equal; lia).
      ring.
    + rewrite (Z.max_r 0 (p - e0)), (Z.max_l 0 (- (p - e0))) by lia.
      rewrite Z.pow_0_r, Z.mul_1_r.
      replace (mt * 2 ^ a * 2 ^ (p - e0)) with (mt * (2 ^ a * 2 ^ (p - e0))) by ring.
      replace (2 ^ a * 2 ^ (p - e0)) with (2 ^ (p - L) * 2 ^ b)
        by (rewrite <- !Z.pow_add_r by lia; f_equal; lia).
      ring.
Qed.

(** The sign bit of a pattern only sets the sign of what it decodes
    to. *)
Lemma decode_sign (mag : Z) :
  0 <= mag < IEEE.sign_bit fmt ->
  IEEE.decode fmt (IEEE.sign_bit fmt + mag)
  = match IEEE.decode fmt mag with
    | IEEE.NaN _ pl => IEEE.NaN true pl
    | IEEE.Inf _ => IEEE.Inf true
    | IEEE.Fin _ mt e => IEEE.Fin true mt e
    end.
Proof.
  intros Hmag.
  pose proof (pow_mbits_pos fmt Hp) as Hpp.
  assert (Hw0 : 0 <= IEEE.ewidth fmt) by (eapply ewidth_pos; eassumption).
  unfold IEEE.sign_bit in *. set (p := IEEE.mbits fmt) in *.
  set (w := IEEE.ewidth fmt) in *.
  assert (Hsb : 2 ^ (w + p) = 2 ^ w * 2 ^ p) by (apply Z.pow_add_r; lia).
  assert (H2w : 0 < 2 ^ w) by (apply Z.pow_pos_nonneg; lia).
  unfold IEEE.decode. fold p w.
  assert (Hbit : Z.testbit (2 ^ (w + p) + mag) (w + p) = true).
  { rewrite Z.testbit_true by lia.
    rewrite Z.add_comm.
    replace (mag + 2 ^ (w + p)) with (mag + 1 * 2 ^ (w + p)) by lia.
    rewrite Z.div_add, Z.div_small by lia. reflexivity. }
  assert (Hex : ((2 ^ (w + p) + mag) / 2 ^ p) mod 2 ^ w = (mag / 2 ^ p) mod 2 ^ w).
  { rewrite Hsb, Z.add_comm, Z.div_add by lia.
    rewrite Z.add_comm.
    replace (2 ^ w + mag / 2 ^ p) with (mag / 2 ^ p + 1 * 2 ^ w) by lia.
    apply Z.mod_add. lia. }
  assert (Hma : (2 ^ (w + p) + mag) mod 2 ^ p = mag mod 2 ^ p).
  { rewrite Hsb, Z.add_comm. apply Z.mod_add. lia. }
  rewrite Hbit, Hex, Hma.
  destruct ((mag / 2 ^ p) mod 2 ^ w =? 2 ^ w - 1).
  - destruct (mag mod 2 ^ p =? 0); reflexivity.
  - destruct ((mag / 2 ^ p) mod 2 ^ w =? 0); reflexivity.
Qed.

End Widening.

Lemma decode32_cases (x : Z) :
  match IEEE.decode IEEE.binary32 x with
  | IEEE.Fin s mt e =>
      (e = -149 /\ 0 <= mt < 2 ^ 23) \/ (2 ^ 23 <= mt < 2 ^ 24 /\ -149 <= e <= 104)
  | _ => True
  end.
Proof.
  unfold IEEE.decode.
  change (IEEE.mbits IEEE.binary32) with 23.
  change (IEEE.ewidth IEEE.binary32) with 8.
  change (IEEE.emin IEEE.binary32) with (-126).
  change (IEEE.emax IEEE.binary32) with 127.
  pose proof (Z.mod_pos_bound (x / 2 ^ 23) (2 ^ 8) ltac:(lia)) as Hex.
  pose proof (Z.mod_pos_bound x (2 ^ 23) ltac:(lia)) as Hma.
  set (ex := (x / 2 ^ 23) mod 2 ^ 8) in *. set (ma := x mod 2 ^ 23) in *.
  destruct (ex =? 2 ^ 8 - 1) eqn:E1; [destruct (ma =? 0); exact I|].
  apply Z.eqb_neq in E1.
  destruct (ex =? 0) eqn:E2.
  - left. lia.
  - apply Z.eqb_neq in E2. right. lia.
Qed.

Lemma same_number_refl (v : IEEE.value) :
  match v with IEEE.NaN _ _ => False | _ => True end -> same_number v v.
Proof. destruct v; cbn; intros H; auto. Qed.

(** The widening of a stored [float] to [double] keeps the number. *)
Lemma of_binary32_exact (x : Z) :
  is_number x ->
  same_number (IEEE.decode IEEE.binary32 x)
              (IEEE.decode IEEE.binary64 (IEEE.of_binary32 IEEE.binary64 x)).
Proof.
  unfold is_number, IEEE.of_binary32. intros Hnum.
  pose proof (decode32_cases x) as Hc.
  destruct (IEEE.decode IEEE.binary32 x) as [s pl|s|s mt e]; [contradiction| |].
  - destruct s; reflexivity.
  - assert (Hp : 1 <= IEEE.mbits IEEE.binary64) by (cbv; discriminate).
    assert (HX : IEEE.mbits IEEE.binary64 + 2 <= IEEE.emax IEEE.binary64)
      by (cbv; discriminate).
    assert (HW : 2 ^ IEEE.ewidth IEEE.binary64 = 2 * IEEE.emax IEEE.binary64 + 2)
      by reflexivity.
    destruct (Z.eq_dec mt 0) as [->|Hnz].
    + rewrite Z.mul_0_l.
      change (IEEE.round_mag IEEE.binary64 0 (2 ^ Z.max 0 (- e))) with 0.
      destruct s.
      * change (IEEE.decode IEEE.binary64 (IEEE.with_sign IEEE.binary64 true 0))
          with (IEEE.Fin true 0 (-1074)).
        cbn [same_number]. split; [reflexivity|]. rewrite !Z.mul_0_l. reflexivity.
      * change (IEEE.decode IEEE.binary64 (IEEE.with_sign IEEE.binary64 false 0))
          with (IEEE.Fin false 0 (-1074)).
        cbn [same_number]. split; [reflexivity|]. rewrite !Z.mul_0_l. reflexivity.
    + assert (Hm : 1 <= mt < 2 ^ 24) by lia.
      pose proof (Z.log2_nonneg mt) as HL0.
      assert (HL : Z.log2 mt < 24) by (apply Z.log2_lt_pow2; lia).
      assert (HLe : -149 <= Z.log2 mt + e <= 127).
      { destruct Hc as [(-> & Hs)|(Hn & He)].
        - assert (Z.log2 mt < 23) by (apply Z.log2_lt_pow2; lia). lia.
        - assert (23 <= Z.log2 mt) by (apply Z.log2_le_pow2; lia). lia. }
      assert (Hemin : IEEE.emin IEEE.binary64 = -1022) by reflexivity.
      assert (Hemax : IEEE.emax IEEE.binary64 = 1023) by reflexivity.
      assert (Hmb : IEEE.mbits IEEE.binary64 = 52) by reflexivity.
      destruct (round_mag_exact IEEE.binary64 Hp HX HW mt (Z.max 0 e) (Z.max 0 (- e)))
        as (Hr & Hsig); try lia.
      rewrite Hr. clear Hr.
      replace (Z.log2 mt + Z.max 0 e - Z.max 0 (- e)) with (Z.log2 mt + e) by lia.
      set (sig := mt * 2 ^ (IEEE.mbits IEEE.binary64 - Z.log2 mt)) in *.
      assert (D : IEEE.decode IEEE.binary64
                    ((Z.log2 mt + e - IEEE.emin IEEE.binary64)
                     * 2 ^ IEEE.mbits IEEE.binary64 + sig)
                  = IEEE.Fin false sig (Z.log2 mt + e - IEEE.mbits IEEE.binary64))
        by (apply (decode_normal IEEE.binary64 Hp HX HW); [exact Hsig|lia]).
      assert (Hsame : mt * 2 ^ (e - Z.min e (Z.log2 mt + e - IEEE.mbits IEEE.binary64))
                      = sig * 2 ^ (Z.log2 mt + e - IEEE.mbits IEEE.binary64
                                   - Z.min e (Z.log2 mt + e - IEEE.mbits IEEE.binary64))).
      { rewrite Z.min_r by lia. rewrite Z.sub_diag, Z.pow_0_r, Z.mul_1_r.
        unfold sig. do 2 f_equal. lia. }
      destruct s; unfold IEEE.with_sign.
      * rewrite (decode_sign IEEE.binary64 Hp HX HW).
        -- rewrite D. cbn [same_number]. split; [reflexivity|exact Hsame].
        -- rewrite Hmb, Hemin in *. change (IEEE.sign_bit IEEE.binary64) with (2 ^ 63).
           change (2 ^ (52 + 1)) with (2 * 2 ^ 52) in Hsig.
           change (2 ^ 63) with (2048 * 2 ^ 52).
           assert (0 < 2 ^ 52) by reflexivity. nia.
      * rewrite D. cbn [same_number]. split; [reflexivity|exact Hsame].
Qed.

Lemma Float_of_word_exact (r : real_type) (x : Z) :
  is_number (float_bits x) ->
  same_number (IEEE.decode IEEE.binary32 (float_bits x))
              (IEEE.decode (Float_format r) (Float_of_word r x)).
Proof.
  intros H. destruct r; cbn [Float_format Float_of_word].
  - apply same_number_refl. exact H.
  - apply of_binary32_exact. exact H.
Qed.

(** The widening of a NaN is a NaN of the same sign. *)
Lemma of_binary32_nan (x : Z) (s : bool) (pl : Z) :
  IEEE.decode IEEE.binary32 x = IEEE.NaN s pl ->
  exists pl', IEEE.decode IEEE.binary64 (IEEE.of_binary32 IEEE.binary64 x)
              = IEEE.NaN s pl'.
Proof.
  intros Hd. unfold IEEE.of_binary32. rewrite Hd.
  assert (Hpl : 0 < pl < 2 ^ 23).
  { revert Hd. unfold IEEE.decode.
    change (IEEE.mbits IEEE.binary32) with 23.
    pose proof (Z.mod_pos_bound x (2 ^ 23) ltac:(lia)) as Hma.
    destruct ((x / 2 ^ 23) mod 2 ^ IEEE.ewidth IEEE.binary32
              =? 2 ^ IEEE.ewidth IEEE.binary32 - 1).
    - destruct (x mod 2 ^ 23 =? 0) eqn:E; [discriminate|].
      apply Z.eqb_neq in E. intros H. inversion H. lia.
    - destruct ((x / 2 ^ 23) mod 2 ^ IEEE.ewidth IEEE.binary32 =? 0); discriminate. }
  change (IEEE.mbits IEEE.binary64 - IEEE.mbits IEEE.binary32) with 29.
  change (IEEE.quiet_bit IEEE.binary64) with (2 ^ 51).
  set (q := Z.lor (2 ^ 51) (pl * 2 ^ 29)).
  assert (Hq : 2 ^ 51 <= q < 2 ^ 52).
  { assert (Hlog : Z.log2 q = 51).
    { unfold q. rewrite Z.log2_lor by lia. rewrite Z.log2_pow2 by lia.
      apply Z.max_l. rewrite Z.log2_mul_pow2 by lia.
      assert (Z.log2 pl < 23) by (apply Z.log2_lt_pow2; lia). lia. }
    assert (Hpos : 0 < q).
    { destruct (Z_lt_le_dec 0 q) as [H|H]; [exact H|].
      rewrite (Z.log2_nonpos q H) in Hlog. discriminate. }
    pose proof (Z.log2_spec q Hpos) as Hs. rewrite Hlog in Hs.
    change (Z.succ 51) with 52 in Hs. exact Hs. }
  assert (D : IEEE.decode IEEE.binary64 (IEEE.inf_bits IEEE.binary64 + q)
              = IEEE.NaN false q).
  { unfold IEEE.decode.
    change (IEEE.mbits IEEE.binary64) with 52.
    change (IEEE.ewidth IEEE.binary64) with 11.
    change (IEEE.inf_bits IEEE.binary64) with (2047 * 2 ^ 52).
    assert (Hbit : Z.testbit (2047 * 2 ^ 52 + q) (11 + 52) = false).
    { apply Z.bits_above_log2; [lia|]. apply Z.log2_lt_pow2; lia. }
    rewrite Hbit.
    rewrite (Z.add_comm (2047 * 2 ^ 52) q), Z.div_add, Z.mod_add by lia.
    rewrite (Z.div_small q) by lia. rewrite (Z.mod_small q) by lia.
    change ((0 + 2047) mod 2 ^ 11 =? 2 ^ 11 - 1) with true. cbv iota.
    replace (q =? 0) with false by (symmetry; apply Z.eqb_neq; lia).
    reflexivity. }
  assert (Hp : 1 <= IEEE.mbits IEEE.binary64) by (cbv; discriminate).
  assert (HX : IEEE.mbits IEEE.binary64 + 2 <= IEEE.emax IEEE.binary64)
    by (cbv; discriminate).
  assert (HW : 2 ^ IEEE.ewidth IEEE.binary64 = 2 * IEEE.emax IEEE.binary64 + 2)
    by reflexivity.
  destruct s; unfold IEEE.with_sign.
  - rewrite (decode_sign IEEE.binary64 Hp HX HW).
    + rewrite D. eauto.
    + change (IEEE.sign_bit IEEE.binary64) with (2048 * 2 ^ 52).
      change (IEEE.inf_bits IEEE.binary64) with (2047 * 2 ^ 52). lia.
  - rewrite D. eauto.
Qed.

Lemma Float_of_word_nan (r : real_type) (x : Z) :
  is_nan IEEE.binary32 (float_bits x) ->
  is_nan (Float_format r) (Float_of_word r x).
Proof.
  unfold is_nan. intros H. destruct r; cbn [Float_format Float_of_word]; [exact H|].
  destruct (IEEE.decode IEEE.binary32 (float_bits x)) as [s pl| |] eqn:E;
    try contradiction.
  destruct (of_binary32_nan _ _ _ E) as (pl' & ->). exact I.
Qed.


(* ================================================================== *)
(** * Which files are loaded, which are rejected, and what else can
      happen *)

(** [Read] returns [true] exactly for the well-formed files: magic
    bytes and a whole header, [flags = 1], [nChannels] 1 or 3,
    [nBases = 1], sizes that are not negative and whose products fit an
    [int], whole data sections, and every offset that is used as an
    index inside the coefficients. *)
Theorem well_formed_files_are_loaded (cfg : Config) (fs : filesystem) (name : string)
    (t0 : FourierBSDFTable) :
  (exists w, Read cfg fs name t0 = Returns true w)
  <-> (exists content, fs (c_str name) = Some content /\ well_formed content).
Proof.
  split.
  - intros (w & H). apply Read_true_inv in H.
    destruct H as (content & Hfs & Hok & Hsup & _ & _ & Hl).
    exists content. split; [exact Hfs|].
    exact (loaded_well_formed cfg content (table w) Hok Hsup Hl).
  - intros (content & Hfs & Hwf). exact (Read_accepts cfg fs name t0 content Hfs Hwf).
Qed.

(** [Read] returns [false] exactly when the file cannot be opened, has
    no whole header behind the magic bytes, fails the test of
    fourier.cpp:151, or declares sizes that can be allocated and ends
    before its data sections do. *)
Theorem rejected_files (cfg : Config) (fs : filesystem) (name : string)
    (t0 : FourierBSDFTable) :
  (exists w, Read cfg fs name t0 = Returns false w)
  <-> (fs (c_str name) = None
       \/ exists content,
            fs (c_str name) = Some content
            /\ (header_ok content = false
                \/ header_supported content = false
                \/ (sizes_ok content /\ ~ sections_whole content))).
Proof.
  split.
  - intros (w & H). apply Read_false_inv in H.
    destruct H as (_ & [(Hfs & _)|(content & Hfs & _ & Hc)]); [left; exact Hfs|].
    right. exists content. split; [exact Hfs|].
    destruct Hc as [(H1 & _)|[(_ & H2 & _)|(_ & _ & H3 & H4 & _)]]; auto.
  - intros [Hfs|(content & Hfs & [H|[H|(H1 & H2)]])].
    + unfold Read. rewrite Hfs. eauto.
    + apply (Read_rejects_header cfg fs name t0 content Hfs). left. exact H.
    + apply (Read_rejects_header cfg fs name t0 content Hfs). right. exact H.
    + exact (Read_rejects_truncated cfg fs name t0 content Hfs H1 H2).
Qed.

(** The offset of a pair is used as an index into the coefficients
    without a check (fourier.cpp:176): a file that is otherwise
    well-formed and has a pair with a positive length and an offset
    outside [0, nCoeffs) makes [Read] index out of bounds. *)
Theorem unchecked_offset_is_undefined (cfg : Config) (fs : filesystem) (name : string)
    (t0 : FourierBSDFTable) (content : list byte) (k : Z) :
  fs (c_str name) = Some content ->
  header_ok content = true -> header_supported content = true ->
  sizes_ok content -> sections_whole content ->
  0 <= k < header_nMu content * header_nMu content ->
  0 < pair_length content k ->
  ~ (0 <= pair_offset content k < header_nCoeffs content) ->
  Read cfg fs name t0 = UndefinedBehaviour.
Proof.
  intros Hfs Hok Hsup Hsz Hwhole Hk Hpos Hout.
  assert (Hunsafe : ~ offsets_in_bounds content)
    by (intros Hsafe; apply Hout; apply Hsafe; assumption).
  unfold Read. rewrite Hfs.
  rewrite (Read_body_tail cfg content _ _ Hok Hsup Hsz Hwhole).
  destruct (derive_sections cfg content (reset_pointers t0) [] Hsz) as (_ & Hrun).
  erewrite bind_Undefined by (apply Hrun; exact Hunsafe). reflexivity.
Qed.

Lemma unchecked_offset_is_undefined_witness :
  only_file "table.bsdf" unchecked_offset_file (c_str "table.bsdf")
  = Some unchecked_offset_file
  /\ header_ok unchecked_offset_file = true
  /\ header_supported unchecked_offset_file = true
  /\ sizes_ok unchecked_offset_file
  /\ sections_whole unchecked_offset_file
  /\ 0 <= 0 < header_nMu unchecked_offset_file * header_nMu unchecked_offset_file
  /\ 0 < pair_length unchecked_offset_file 0
  /\ ~ (0 <= pair_offset unchecked_offset_file 0 < header_nCoeffs unchecked_offset_file)
  /\ Read host (only_file "table.bsdf" unchecked_offset_file) "table.bsdf"
       indeterminate_table = UndefinedBehaviour.
Proof.
  refine (conj _ (conj _ (conj _ (conj _ (conj _ (conj _ (conj _ (conj _
            (unchecked_offset_is_undefined host
               (only_file "table.bsdf" unchecked_offset_file) "table.bsdf"
               indeterminate_table unchecked_offset_file 0 _ _ _ _ _ _ _ _)))))))));
    first [ vm_compute; reflexivity | vm_compute; lia
          | vm_compute; intuition discriminate ].
Defined.

(** The sizes [nMu * nMu] and [nMu * nMu * 2] are computed in [int]
    (fourier.cpp:156-160): a supported header whose [nMu] makes
    [nMu * nMu * 2] exceed [INT_MAX] overflows a signed [int]. *)
Theorem size_overflow_is_undefined (cfg : Config) (fs : filesystem) (name : string)
    (t0 : FourierBSDFTable) (content : list byte) :
  fs (c_str name) = Some content ->
  header_ok content = true -> header_supported content = true ->
  0 <= header_nMu content ->
  INT_MAX < header_nMu content * header_nMu content * 2 ->
  Read cfg fs name t0 = UndefinedBehaviour.
Proof.
  intros Hfs Hok Hsup Hn Hov. unfold Read. rewrite Hfs.
  rewrite (Read_body_sizes cfg content _ _ Hok Hsup).
  unfold bind at 1.
  rewrite (allocate_run (header_nCoeffs content) _ (header_nMu content)) by reflexivity.
  replace (header_nMu content <? 0) with false by (symmetry; apply Z.ltb_ge; exact Hn).
  replace (header_nMu content * header_nMu content * 2 <=? INT_MAX) with false
    by (symmetry; apply Z.leb_gt; exact Hov).
  reflexivity.
Qed.

Lemma size_overflow_is_undefined_witness :
  only_file "table.bsdf" overflow_file (c_str "table.bsdf") = Some overflow_file
  /\ header_ok overflow_file = true
  /\ header_supported overflow_file = true
  /\ 0 <= header_nMu overflow_file
  /\ INT_MAX < header_nMu overflow_file * header_nMu overflow_file * 2
  /\ Read host (only_file "table.bsdf" overflow_file) "table.bsdf" indeterminate_table
     = UndefinedBehaviour.
Proof.
  refine (conj _ (conj _ (conj _ (conj _ (conj _
            (size_overflow_is_undefined host (only_file "table.bsdf" overflow_file)
               "table.bsdf" indeterminate_table overflow_file _ _ _ _ _))))));
    first [ vm_compute; reflexivity | vm_compute; intuition discriminate ].
Defined.

(** A supported header with a negative [nMu], [nCoeffs] or [mMax] makes
    a [new] throw [std::bad_array_new_length] (for [nCoeffs] after the
    five arrays before it were allocated, for [mMax] after the whole
    file was read): the exception leaves [Read] with the stream still
    open and no message reported. *)
Theorem negative_size_throws (cfg : Config) (fs : filesystem) (name : string)
    (t0 : FourierBSDFTable) (content : list byte) :
  fs (c_str name) = Some content ->
  header_ok content = true -> header_supported content = true ->
  header_nMu content < 0
  \/ (0 <= header_nMu content
      /\ header_nMu content * header_nMu content * 2 <= INT_MAX
      /\ header_nCoeffs content < 0)
  \/ (sizes_ok content /\ sections_whole content /\ offsets_in_bounds content
      /\ header_mMax content < 0) ->
  exists w, Read cfg fs name t0 = Throws bad_array_new_length w
            /\ f w <> None /\ errors w = [].
Proof.
  intros Hfs Hok Hsup [Hn|[(Hn & Hov & HnC)|(Hsz & Hwhole & Hsafe & Hmx)]];
    unfold Read; rewrite Hfs.
  - rewrite (Read_body_sizes cfg content _ _ Hok Hsup).
    unfold bind at 1.
    rewrite (allocate_run (header_nCoeffs content) _ (header_nMu content)) by reflexivity.
    replace (header_nMu content <? 0) with true by (symmetry; apply Z.ltb_lt; exact Hn).
    eexists. split; [reflexivity|]. cbn. split; [discriminate|reflexivity].
  - rewrite (Read_body_sizes cfg content _ _ Hok Hsup).
    unfold bind at 1.
    rewrite (allocate_run (header_nCoeffs content) _ (header_nMu content)) by reflexivity.
    replace (header_nMu content <? 0) with false by (symmetry; apply Z.ltb_ge; exact Hn).
    replace (header_nMu content * header_nMu content * 2 <=? INT_MAX) with true
      by (symmetry; apply Z.leb_le; exact Hov).
    replace (header_nCoeffs content <? 0) with true by (symmetry; apply Z.ltb_lt; exact HnC).
    eexists. split; [reflexivity|]. cbn. split; [discriminate|reflexivity].
  - rewrite (Read_body_tail cfg content _ _ Hok Hsup Hsz Hwhole).
    destruct (derive_sections cfg content (reset_pointers t0) [] Hsz) as (Hrun & _).
    destruct (Hrun Hsafe) as (w1 & Hd & Hf & He & HmMax).
    erewrite bind_Normal by exact Hd.
    rewrite (reciprocals_throws cfg (header_mMax content) w1 HmMax Hmx).
    exists w1. split; [reflexivity|]. split; [rewrite Hf; discriminate|exact He].
Qed.

Lemma negative_size_throws_witness :
  only_file "table.bsdf" negative_mMax_file (c_str "table.bsdf") = Some negative_mMax_file
  /\ header_ok negative_mMax_file = true
  /\ header_supported negative_mMax_file = true
  /\ (header_nMu negative_mMax_file < 0
      \/ (0 <= header_nMu negative_mMax_file
          /\ header_nMu negative_mMax_file * header_nMu negative_mMax_file * 2 <= INT_MAX
          /\ header_nCoeffs negative_mMax_file < 0)
      \/ (sizes_ok negative_mMax_file /\ sections_whole negative_mMax_file
          /\ offsets_in_bounds negative_mMax_file
          /\ header_mMax negative_mMax_file < 0))
  /\ exists w,
       Read host (only_file "table.bsdf" negative_mMax_file) "table.bsdf"
         indeterminate_table = Throws bad_array_new_length w
       /\ f w <> None /\ errors w = [].
Proof.
  assert (H : header_nMu negative_mMax_file < 0
      \/ (0 <= header_nMu negative_mMax_file
          /\ header_nMu negative_mMax_file * header_nMu negative_mMax_file * 2 <= INT_MAX
          /\ header_nCoeffs negative_mMax_file < 0)
      \/ (sizes_ok negative_mMax_file /\ sections_whole negative_mMax_file
          /\ offsets_in_bounds negative_mMax_file
          /\ header_mMax negative_mMax_file < 0)).
  { right. right.
    split; [vm_compute; intuition discriminate|].
    split; [vm_compute; lia|].
    split; [|vm_compute; reflexivity].
    intros k Hk.
    assert (E : header_nMu negative_mMax_file = 0) by (vm_compute; reflexivity).
    rewrite E in Hk. lia. }
  refine (conj _ (conj _ (conj _ (conj H
            (negative_size_throws host (only_file "table.bsdf" negative_mMax_file)
               "table.bsdf" indeterminate_table negative_mMax_file _ _ _ H)))));
    vm_compute; reflexivity.
Defined.

(* ================================================================== *)
(** * What a failed call leaves in the table *)

(** A file shorter than its 64-byte header, the empty file included, is
    rejected, whatever its bytes: [Read] returns [false] with the stream
    closed and one message, and has allocated nothing. *)
Theorem short_header_rejected (cfg : Config) (fs : filesystem) (name : string)
    (t0 : FourierBSDFTable) (content : list byte) :
  fs (c_str name) = Some content ->
  (length content < 64)%nat ->
  exists w,
    Read cfg fs name t0 = Returns false w
    /\ f w = None
    /\ errors w = [incompatible_message (c_str name)]
    /\ mu (table w) = nullptr /\ cdf (table w) = nullptr /\ a (table w) = nullptr
    /\ aOffset (table w) = nullptr /\ m (table w) = nullptr
    /\ a0 (table w) = a0 t0 /\ recip (table w) = recip t0.
Proof.
  intros Hfs Hlen.
  assert (Hok : header_ok content = false).
  { unfold header_ok. replace (64 <=? length content)%nat with false; [reflexivity|].
    symmetry. apply Nat.leb_gt. exact Hlen. }
  destruct (Read_rejects_header cfg fs name t0 content Hfs (or_introl Hok)) as (w & Hrun).
  exists w. split; [exact Hrun|].
  apply Read_false_inv in Hrun.
  destruct Hrun as (Hf & [(Hnone & _)|(c & Hc & He & Hcases)]); [congruence|].
  assert (c = content) by congruence. subst c.
  split; [exact Hf|].
  split; [rewrite He; f_equal; unfold incompatible_fmt, incompatible_message;
          generalize (c_str name); intros p; reflexivity|].
  destruct Hcases as [(_ & Hp)|[(H1 & _)|(H1 & _)]]; try congruence.
  destruct Hp as (Pmu & Pm & PO & Pa & P0 & Pcdf & Pr). auto 10.
Qed.

Lemma short_header_rejected_witness :
  only_file "table.bsdf" (firstn 40 sample_file) (c_str "table.bsdf")
  = Some (firstn 40 sample_file)
  /\ (length (firstn 40 sample_file) < 64)%nat
  /\ exists w,
       Read host (only_file "table.bsdf" (firstn 40 sample_file)) "table.bsdf"
         (table (final_world (Read_file host sample_file))) = Returns false w
       /\ f w = None
       /\ errors w = [incompatible_message (c_str "table.bsdf")]
       /\ mu (table w) = nullptr /\ cdf (table w) = nullptr /\ a (table w) = nullptr
       /\ aOffset (table w) = nullptr /\ m (table w) = nullptr
       /\ a0 (table w) = a0 (table (final_world (Read_file host sample_file)))
       /\ recip (table w) = recip (table (final_world (Read_file host sample_file))).
Proof.
  refine (conj _ (conj _
            (short_header_rejected host (only_file "table.bsdf" (firstn 40 sample_file))
               "table.bsdf" (table (final_world (Read_file host sample_file)))
               (firstn 40 sample_file) _ _)));
    first [ vm_compute; reflexivity | vm_compute; lia ].
Defined.

(** When the file cannot be opened, or does not start with the magic
    bytes, [Read] has written nothing but the five null pointers of
    fourier.cpp:99-100: [nMu], [mMax], [nChannels], [eta], [a0] and
    [recip] are what they were before the call.  In particular
    [nChannels], which [ComputeScatteringFunctions] tests, is not set to
    zero. *)
Theorem unread_header_keeps_table (cfg : Config) (fs : filesystem) (name : string)
    (t0 : FourierBSDFTable) :
  fs (c_str name) = None
  \/ (exists content, fs (c_str name) = Some content /\ firstn 8 content <> header_exp) ->
  exists w,
    Read cfg fs name t0 = Returns false w
    /\ table w = reset_pointers t0
    /\ nChannels (table w) = nChannels t0.
Proof.
  intros [Hfs|(content & Hfs & Hmagic)]; unfold Read; rewrite Hfs.
  - eexists. split; [reflexivity|]. split; reflexivity.
  - unfold Read_body. unfold bind at 1. rewrite check_magic_run.
    replace ((8 <=? length content)%nat && memcmp_eq (firstn 8 content) header_exp)
      with false.
    + eexists. split; [reflexivity|]. split; reflexivity.
    + symmetry. apply andb_false_iff. right.
      destruct (memcmp_eq (firstn 8 content) header_exp) eqn:E; [|reflexivity].
      apply memcmp_eq_true in E. contradiction.
Qed.

Lemma unread_header_keeps_table_witness :
  (only_file "table.bsdf" bad_magic_file (c_str "table.bsdf") = None
   \/ (exists content,
         only_file "table.bsdf" bad_magic_file (c_str "table.bsdf") = Some content
         /\ firstn 8 content <> header_exp))
  /\ exists w,
       Read host (only_file "table.bsdf" bad_magic_file) "table.bsdf"
         (table (final_world (Read_file host sample_file))) = Returns false w
       /\ table w = reset_pointers (table (final_world (Read_file host sample_file)))
       /\ nChannels (table w) = nChannels (table (final_world (Read_file host sample_file))).
Proof.
  assert (H : only_file "table.bsdf" bad_magic_file (c_str "table.bsdf") = None
              \/ (exists content,
                    only_file "table.bsdf" bad_magic_file (c_str "table.bsdf") = Some content
                    /\ firstn 8 content <> header_exp)).
  { right. exists bad_magic_file. split; [vm_compute; reflexivity|].
    vm_compute. intros E. discriminate E. }
  exact (conj H (unread_header_keeps_table host (only_file "table.bsdf" bad_magic_file)
                   "table.bsdf" (table (final_world (Read_file host sample_file))) H)).
Defined.

(** After every call that returns [false], [recip] is the pointer the
    caller passed in, and the six arrays of fourier.cpp:155-161 are
    either all unallocated ([mu], [cdf], [a], [aOffset], [m] null and
    [a0] the caller's) or all allocated; the latter happens only when
    the header was accepted and a data section was cut short, and then
    [nChannels] is 1 or 3. *)
Theorem failed_load_all_or_nothing (cfg : Config) (fs : filesystem) (name : string)
    (t0 : FourierBSDFTable) (w : world) :
  Read cfg fs name t0 = Returns false w ->
  recip (table w) = recip t0
  /\ ((mu (table w) = nullptr /\ cdf (table w) = nullptr /\ a (table w) = nullptr
       /\ aOffset (table w) = nullptr /\ m (table w) = nullptr
       /\ a0 (table w) = a0 t0)
      \/ (arrays_allocated (table w)
          /\ (nChannels (table w) = Some 1 \/ nChannels (table w) = Some 3)
          /\ exists content,
               fs (c_str name) = Some content
               /\ header_ok content = true /\ header_supported content = true
               /\ ~ sections_whole content)).
Proof.
  intros H. apply Read_false_inv in H.
  destruct H as (_ & [(_ & Ht & _)|(content & Hfs & _ & Hcases)]).
  - rewrite Ht. split; [reflexivity|]. left. repeat split.
  - destruct Hcases as [(_ & Hp)|[(_ & _ & Ht)|(Hok & Hsup & _ & Hcut & Hsc & Hall & Hr)]].
    + destruct Hp as (Pmu & Pm & PO & Pa & P0 & Pcdf & Pr).
      split; [exact Pr|]. left. auto 10.
    + rewrite Ht. split; [reflexivity|]. left. repeat split.
    + split; [exact Hr|]. right. split; [exact Hall|].
      split.
      * destruct Hsc as (_ & _ & SnCh & _). rewrite SnCh.
        change (nChannels (header_table (Float cfg) content (reset_pointers t0)))
          with (Some (header_nChannels content)).
        unfold header_supported in Hsup. apply supported_true in Hsup.
        destruct Hsup as (_ & [->| ->] & _); auto.
      * exists content. auto.
Qed.

Lemma failed_load_all_or_nothing_witness :
  Read host (only_file "table.bsdf" header_only_file) "table.bsdf" indeterminate_table
  = Returns false (final_world (Read_file host header_only_file))
  /\ recip (table (final_world (Read_file host header_only_file)))
     = recip indeterminate_table
  /\ ((mu (table (final_world (Read_file host header_only_file))) = nullptr
       /\ cdf (table (final_world (Read_file host header_only_file))) = nullptr
       /\ a (table (final_world (Read_file host header_only_file))) = nullptr
       /\ aOffset (table (final_world (Read_file host header_only_file))) = nullptr
       /\ m (table (final_world (Read_file host header_only_file))) = nullptr
       /\ a0 (table (final_world (Read_file host header_only_file)))
          = a0 indeterminate_table)
      \/ (arrays_allocated (table (final_world (Read_file host header_only_file)))
          /\ (nChannels (table (final_world (Read_file host header_only_file))) = Some 1
              \/ nChannels (table (final_world (Read_file host header_only_file))) = Some 3)
          /\ exists content,
               only_file "table.bsdf" header_only_file (c_str "table.bsdf") = Some content
               /\ header_ok content = true /\ header_supported content = true
               /\ ~ sections_whole content)).
Proof.
  refine (conj _
            (failed_load_all_or_nothing host (only_file "table.bsdf" header_only_file)
               "table.bsdf" indeterminate_table
               (final_world (Read_file host header_only_file)) _));
    vm_compute; reflexivity.
Defined.

(* ================================================================== *)
(** * What a successful call depends on *)

(** A call that returns [true] has overwritten every member of the
    table: the table it leaves does not depend on what the table held
    before the call. *)
Theorem loaded_table_independent_of_previous (cfg : Config) (fs : filesystem)
    (name : string) (t0 t0' : FourierBSDFTable) (w : world) :
  Read cfg fs name t0 = Returns true w ->
  Read cfg fs name t0' = Returns true w.
Proof.
  intros H. pose proof H as Hinv. apply Read_true_inv in Hinv.
  destruct Hinv as (content & Hfs & Hok & Hsup & _ & _ & Hl).
  pose proof (loaded_well_formed cfg content (table w) Hok Hsup Hl) as Hwf.
  destruct (Read_accepts cfg fs name t0' content Hfs Hwf) as (w' & H').
  rewrite H'. f_equal. symmetry.
  exact (Read_true_unique cfg fs fs name name t0 t0' content w w' Hfs Hfs H H').
Qed.

Lemma loaded_table_independent_of_previous_witness :
  Read host (only_file "table.bsdf" sample_file) "table.bsdf" indeterminate_table
  = Returns true (final_world (Read_file host sample_file))
  /\ Read host (only_file "table.bsdf" sample_file) "table.bsdf"
       (table (final_world (Read_file host header_only_file)))
     = Returns true (final_world (Read_file host sample_file)).
Proof.
  refine (conj _
            (loaded_table_independent_of_previous host (only_file "table.bsdf" sample_file)
               "table.bsdf" indeterminate_table
               (table (final_world (Read_file host header_only_file)))
               (final_world (Read_file host sample_file)) _));
    vm_compute; reflexivity.
Defined.

(** [Read] looks at the magic bytes, at the header fields [flags],
    [nMu], [nCoeffs], [mMax], [nChannels], [nBases] and [eta], and at the
    four data sections.  The header fields [nMetadataBytes],
    [nParameters], [nParameterValues], [alpha] and [unused] are read and
    dropped, and nothing after the coefficients is read: two files that
    differ only there are loaded to the same table. *)
Theorem unused_bytes_are_ignored (cfg : Config) (fs fs' : filesystem)
    (name name' : string) (t0 : FourierBSDFTable) (c c' : list byte) (w : world) :
  fs (c_str name) = Some c -> fs' (c_str name') = Some c' ->
  same_relevant_bytes c c' ->
  Read cfg fs name t0 = Returns true w ->
  Read cfg fs' name' t0 = Returns true w.
Proof.
  intros Hfs Hfs' Hsame H. pose proof H as Hinv. apply Read_true_inv in Hinv.
  destruct Hinv as (content & Hc & Hok & Hsup & Hf & He & Hl).
  assert (content = c) by congruence. subst content.
  pose proof (loaded_well_formed cfg c (table w) Hok Hsup Hl) as Hwf.
  assert (Hwhole : sections_whole c) by apply Hwf.
  pose proof (relevant_well_formed c c' Hsame Hwhole Hwf) as Hwf'.
  destruct (Read_accepts cfg fs' name' t0 c' Hfs' Hwf') as (w' & H').
  rewrite H'. f_equal.
  pose proof H' as Hinv'. apply Read_true_inv in Hinv'.
  destruct Hinv' as (content & Hc' & _ & _ & Hf' & He' & Hl').
  assert (content = c') by congruence. subst content.
  pose proof (relevant_loaded c c' Hsame Hwhole (Float cfg) (table w) Hl) as Hl2.
  pose proof (loaded_unique _ _ _ _ Hl' Hl2) as HT.
  destruct w, w'. cbn in *. congruence.
Qed.

Lemma unused_bytes_are_ignored_witness :
  only_file "table.bsdf" sample_file (c_str "table.bsdf") = Some sample_file
  /\ only_file "other.bsdf" sample_file_with_metadata (c_str "other.bsdf")
     = Some sample_file_with_metadata
  /\ same_relevant_bytes sample_file sample_file_with_metadata
  /\ Read host (only_file "table.bsdf" sample_file) "table.bsdf" indeterminate_table
     = Returns true (final_world (Read_file host sample_file))
  /\ Read host (only_file "other.bsdf" sample_file_with_metadata) "other.bsdf"
       indeterminate_table
     = Returns true (final_world (Read_file host sample_file)).
Proof.
  assert (Hsame : same_relevant_bytes sample_file sample_file_with_metadata).
  { split; [vm_compute; lia|]. split; [vm_compute; reflexivity|].
    split; vm_compute; reflexivity. }
  refine (conj _ (conj _ (conj Hsame (conj _
            (unused_bytes_are_ignored host (only_file "table.bsdf" sample_file)
               (only_file "other.bsdf" sample_file_with_metadata)
               "table.bsdf" "other.bsdf" indeterminate_table
               sample_file sample_file_with_metadata
               (final_world (Read_file host sample_file)) _ _ Hsame _)))));
    vm_compute; reflexivity.
Defined.

(* ================================================================== *)
(** * What a loaded table holds *)

(** A table that [Read] returned [true] for is initialised throughout:
    the four scalars are set, the seven arrays are allocated with
    [nMu], [nMu * nMu], [nCoeffs] and [mMax] elements, and no element of
    any of them is indeterminate. *)
Theorem loaded_table_initialised (cfg : Config) (fs : filesystem) (name : string)
    (t0 : FourierBSDFTable) (w : world) :
  Read cfg fs name t0 = Returns true w ->
  exists n nCoeffs mx nCh e,
    nMu (table w) = Some n /\ mMax (table w) = Some mx
    /\ nChannels (table w) = Some nCh /\ eta (table w) = Some e
    /\ filled (mu (table w)) n
    /\ filled (cdf (table w)) (n * n)
    /\ filled (a (table w)) nCoeffs
    /\ filled (aOffset (table w)) (n * n)
    /\ filled (m (table w)) (n * n)
    /\ filled (a0 (table w)) (n * n)
    /\ filled (recip (table w)) mx.
Proof.
  intros H. apply Read_true_inv in H.
  destruct H as (content & _ & _ & _ & _ & _ & Hl).
  exists (header_nMu content), (header_nCoeffs content), (header_mMax content),
         (header_nChannels content), (Float_at (Float cfg) content 44).
  split; [apply (ld_nMu _ _ _ Hl)|]. split; [apply (ld_mMax _ _ _ Hl)|].
  split; [apply (ld_nChannels _ _ _ Hl)|]. split; [apply (ld_eta _ _ _ Hl)|].
  exact (loaded_filled cfg content (table w) Hl).
Qed.

Lemma loaded_table_initialised_witness :
  Read host (only_file "table.bsdf" sample_file) "table.bsdf" indeterminate_table
  = Returns true (final_world (Read_file host sample_file))
  /\ exists n nCoeffs mx nCh e,
       nMu (table (final_world (Read_file host sample_file))) = Some n
       /\ mMax (table (final_world (Read_file host sample_file))) = Some mx
       /\ nChannels (table (final_world (Read_file host sample_file))) = Some nCh
       /\ eta (table (final_world (Read_file host sample_file))) = Some e
       /\ filled (mu (table (final_world (Read_file host sample_file)))) n
       /\ filled (cdf (table (final_world (Read_file host sample_file)))) (n * n)
       /\ filled (a (table (final_world (Read_file host sample_file)))) nCoeffs
       /\ filled (aOffset (table (final_world (Read_file host sample_file)))) (n * n)
       /\ filled (m (table (final_world (Read_file host sample_file)))) (n * n)
       /\ filled (a0 (table (final_world (Read_file host sample_file)))) (n * n)
       /\ filled (recip (table (final_world (Read_file host sample_file)))) mx.
Proof.
  refine (conj _
            (loaded_table_initialised host (only_file "table.bsdf" sample_file)
               "table.bsdf" indeterminate_table
               (final_world (Read_file host sample_file)) _));
    vm_compute; reflexivity.
Defined.

(** The second loop starts at [i = 0] (fourier.cpp:180-181): whenever
    [mMax >= 1], [recip[0]] is [1 / (Float)0], which is +infinity. *)
Theorem recip_zero_is_infinity (cfg : Config) (fs : filesystem) (name : string)
    (t0 : FourierBSDFTable) (w : world) (mx : Z) :
  Read cfg fs name t0 = Returns true w ->
  mMax (table w) = Some mx -> 0 < mx ->
  exists v,
    elem (recip (table w)) 0 = Some v
    /\ IEEE.decode (Float_format (Float cfg)) v = IEEE.Inf false.
Proof.
  intros H Hmx Hpos. apply Read_true_inv in H.
  destruct H as (content & _ & _ & _ & _ & _ & Hl).
  pose proof (ld_mMax _ _ _ Hl) as E.
  assert (mx = header_mMax content) by congruence. subst mx.
  exists (reciprocal_of (Float cfg) 0).
  split; [apply (ld_recip _ _ _ Hl); lia|].
  destruct (Float cfg); vm_compute; reflexivity.
Qed.

Lemma recip_zero_is_infinity_witness :
  Read host (only_file "table.bsdf" sample_file) "table.bsdf" indeterminate_table
  = Returns true (final_world (Read_file host sample_file))
  /\ mMax (table (final_world (Read_file host sample_file))) = Some 4
  /\ 0 < 4
  /\ exists v,
       elem (recip (table (final_world (Read_file host sample_file)))) 0 = Some v
       /\ IEEE.decode (Float_format (Float host)) v = IEEE.Inf false.
Proof.
  refine (conj _ (conj _ (conj _
            (recip_zero_is_infinity host (only_file "table.bsdf" sample_file)
               "table.bsdf" indeterminate_table
               (final_world (Read_file host sample_file)) 4 _ _ _))));
    first [ lia | vm_compute; reflexivity ].
Defined.

(* ================================================================== *)
(** * The reading lambda *)

(** [read32] (fourier.cpp:109-122, with [IsBigEndian] of lines 90-95)
    returns [true] exactly when the stream still holds [count] whole
    words.  It then has consumed exactly these [4 * count] bytes and
    delivers each word as the [int] whose least significant byte comes
    first in the file, on a little-endian and on a big-endian host
    alike.  On a short read it returns [false] and the stream is at its
    end. *)
Theorem read32_words (cfg : Config) (count : nat) (w : world) (s : list byte) :
  f w = Some s ->
  ((4 * count <= length s)%nat ->
   read32 cfg count w
   = Normal (true, map (fun e => Some (sint32 (le_decode e))) (split_elems 4 count s))
       (with_f (Some (skipn (4 * count) s)) w))
  /\ ((length s < 4 * count)%nat ->
      exists cells, read32 cfg count w = Normal (false, cells) (with_f (Some []) w)).
Proof.
  intros Hf. split; intros H.
  - exact (read32_enough cfg count w s Hf H).
  - exact (read32_short cfg count w s Hf H).
Qed.

Lemma read32_words_witness :
  f three_words_open = Some three_words
  /\ (((4 * 2 <= length three_words)%nat ->
       read32 (big_endian_host Single) 2 three_words_open
       = Normal (true, map (fun e => Some (sint32 (le_decode e)))
                         (split_elems 4 2 three_words))
           (with_f (Some (skipn (4 * 2) three_words)) three_words_open))
      /\ ((length three_words < 4 * 2)%nat ->
          exists cells,
            read32 (big_endian_host Single) 2 three_words_open
            = Normal (false, cells) (with_f (Some []) three_words_open))).
Proof.
  refine (conj _
            (read32_words (big_endian_host Single) 2 three_words_open three_words _));
    reflexivity.
Defined.

(* ================================================================== *)
(** * The material of a well-formed file *)

(** The constructor followed by [ComputeScatteringFunctions]: for a
    well-formed file the material holds the loaded table and the bump
    map it was given, and every call of [ComputeScatteringFunctions]
    installs a new [BSDF], built on the geometry after bump mapping when
    there is a bump map, that holds exactly one [BxDF]: the
    [FourierBSDF] over the loaded table, with the mode of the call. *)
Theorem loaded_material_scatters (Texture Geometry : Type)
    (Bump : Texture -> Geometry -> Geometry)
    (cfg : Config) (fs : filesystem) (name : string) (t0 : FourierBSDFTable)
    (content : list byte) (bump : option Texture) :
  fs (c_str name) = Some content -> well_formed content ->
  exists mat w,
    FourierMaterial_ctor cfg fs name bump t0 = Some (mat, w)
    /\ bumpMap mat = bump
    /\ loaded (Float cfg) content (bsdfTable mat)
    /\ forall (si : SurfaceInteraction Geometry) (mode : TransportMode) (lobes : bool),
         ComputeScatteringFunctions Bump mat si mode lobes
         = let g := match bump with
                    | Some tex => Bump tex (geometry si)
                    | None => geometry si
                    end in
           Some {| geometry := g;
                   bsdf := Some {| bsdf_si := g;
                                   bxdfs := [FourierBSDF (bsdfTable mat) mode] |} |}.
Proof.
  intros Hfs Hwf.
  destruct (Read_accepts cfg fs name t0 content Hfs Hwf) as (w & Hrun).
  exists {| bsdfTable := table w; bumpMap := bump |}, w.
  split; [unfold FourierMaterial_ctor; rewrite Hrun; reflexivity|].
  split; [reflexivity|].
  apply Read_true_inv in Hrun.
  destruct Hrun as (c & Hc & _ & Hsup & _ & _ & Hl).
  assert (c = content) by congruence. subst c.
  split; [exact Hl|].
  intros si mode lobes. unfold ComputeScatteringFunctions. cbn [bsdfTable bumpMap].
  rewrite (ld_nChannels _ _ _ Hl).
  unfold header_supported in Hsup. apply supported_true in Hsup.
  destruct Hsup as (_ & [->| ->] & _); reflexivity.
Qed.

Lemma loaded_material_scatters_witness :
  only_file "table.bsdf" sample_file (c_str "table.bsdf") = Some sample_file
  /\ well_formed sample_file
  /\ exists mat w,
       FourierMaterial_ctor host (only_file "table.bsdf" sample_file) "table.bsdf"
         (Some tt) indeterminate_table = Some (mat, w)
       /\ bumpMap mat = Some tt
       /\ loaded (Float host) sample_file (bsdfTable mat)
       /\ forall (si : SurfaceInteraction nat) (mode : TransportMode) (lobes : bool),
            ComputeScatteringFunctions (fun (_ : unit) (g : nat) => S g) mat si mode lobes
            = let g := match Some tt with
                       | Some tex => (fun (_ : unit) (g : nat) => S g) tex (geometry si)
                       | None => geometry si
                       end in
              Some {| geometry := g;
                      bsdf := Some {| bsdf_si := g;
                                      bxdfs := [FourierBSDF (bsdfTable mat) mode] |} |}.
Proof.
  assert (Hwf : well_formed sample_file).
  { split; [vm_compute; reflexivity|]. split; [vm_compute; reflexivity|].
    split; [vm_compute; intuition discriminate|].
    split; [vm_compute; discriminate|].
    split; [vm_compute; lia|].
    intros k Hk.
    assert (E : header_nMu sample_file = 2) by (vm_compute; reflexivity).
    rewrite E in Hk.
    assert (Hc : k = 0 \/ k = 1 \/ k = 2 \/ k = 3) by lia.
    destruct Hc as [->|[->|[->| ->]]]; vm_compute; intuition discriminate. }
  refine (conj _ (conj Hwf
            (loaded_material_scatters unit nat (fun (_ : unit) (g : nat) => S g) host
               (only_file "table.bsdf" sample_file) "table.bsdf" indeterminate_table
               sample_file (Some tt) _ Hwf)));
    vm_compute; reflexivity.
Defined.

(* ================================================================== *)
(** * The floats of a loaded table are those of the file *)

(** The file stores binary32 words; [Float] is [float] or [double].  In
    both builds, [eta] and every element of [mu], [cdf] and [a] of a
    loaded table is exactly the number its word of the file stands for:
    the conversion of fourier.cpp:128 loses nothing.  This is stated for
    the words that are numbers; which NaN pattern a converted NaN has is
    the platform's and is not described here. *)
Theorem loaded_floats_are_exact (cfg : Config) (fs : filesystem) (name : string)
    (t0 : FourierBSDFTable) (content : list byte) (w : world) :
  fs (c_str name) = Some content ->
  Read cfg fs name t0 = Returns true w ->
  (is_number (float_bits (int_at content 44)) ->
   stores_number (Float cfg) content 44 (eta (table w)))
  /\ (forall i, 0 <= i < header_nMu content ->
        is_number (float_bits (int_at content (off_mu + 4 * Z.to_nat i))) ->
        stores_number (Float cfg) content (off_mu + 4 * Z.to_nat i)
          (elem (mu (table w)) i))
  /\ (forall i, 0 <= i < header_nMu content * header_nMu content ->
        is_number (float_bits
                     (int_at content (off_cdf (header_nMu content) + 4 * Z.to_nat i))) ->
        stores_number (Float cfg) content (off_cdf (header_nMu content) + 4 * Z.to_nat i)
          (elem (cdf (table w)) i))
  /\ (forall i, 0 <= i < header_nCoeffs content ->
        is_number (float_bits
                     (int_at content (off_a (header_nMu content) + 4 * Z.to_nat i))) ->
        stores_number (Float cfg) content (off_a (header_nMu content) + 4 * Z.to_nat i)
          (elem (a (table w)) i)).
Proof.
  intros Hfs Hrun. apply Read_true_inv in Hrun.
  destruct Hrun as (c & Hc & _ & _ & _ & _ & Hl).
  assert (c = content) by congruence. subst c.
  pose proof (ld_nMu_pos _ _ _ Hl) as Hn.
  pose proof (ld_nCoeffs_pos _ _ _ Hl) as HnC.
  assert (Hcell : forall off, is_number (float_bits (int_at content off)) ->
            stores_number (Float cfg) content off (Some (Float_at (Float cfg) content off))).
  { intros off Hnum. eexists. split; [reflexivity|].
    apply Float_of_word_exact. exact Hnum. }
  split; [intros Hnum; rewrite (ld_eta _ _ _ Hl); apply Hcell; exact Hnum|].
  split; [|split]; intros i Hi Hnum.
  - rewrite (ld_mu _ _ _ Hl), elem_Float_cells by lia. apply Hcell. exact Hnum.
  - rewrite (ld_cdf _ _ _ Hl), elem_Float_cells by nia. apply Hcell. exact Hnum.
  - rewrite (ld_a _ _ _ Hl), elem_Float_cells by lia. apply Hcell. exact Hnum.
Qed.

Lemma loaded_floats_are_exact_witness :
  only_file "table.bsdf" sample_file (c_str "table.bsdf") = Some sample_file
  /\ Read (little_endian_host Double) (only_file "table.bsdf" sample_file) "table.bsdf"
       indeterminate_table
     = Returns true (final_world (Read_file (little_endian_host Double) sample_file))
  /\ ((is_number (float_bits (int_at sample_file 44)) ->
       stores_number (Float (little_endian_host Double)) sample_file 44
         (eta (table (final_world (Read_file (little_endian_host Double) sample_file)))))
      /\ (forall i, 0 <= i < header_nMu sample_file ->
            is_number (float_bits (int_at sample_file (off_mu + 4 * Z.to_nat i))) ->
            stores_number (Float (little_endian_host Double)) sample_file
              (off_mu + 4 * Z.to_nat i)
              (elem (mu (table (final_world
                                  (Read_file (little_endian_host Double) sample_file)))) i))
      /\ (forall i, 0 <= i < header_nMu sample_file * header_nMu sample_file ->
            is_number (float_bits
                         (int_at sample_file
                            (off_cdf (header_nMu sample_file) + 4 * Z.to_nat i))) ->
            stores_number (Float (little_endian_host Double)) sample_file
              (off_cdf (header_nMu sample_file) + 4 * Z.to_nat i)
              (elem (cdf (table (final_world
                                   (Read_file (little_endian_host Double) sample_file)))) i))
      /\ (forall i, 0 <= i < header_nCoeffs sample_file ->
            is_number (float_bits
                         (int_at sample_file
                            (off_a (header_nMu sample_file) + 4 * Z.to_nat i))) ->
            stores_number (Float (little_endian_host Double)) sample_file
              (off_a (header_nMu sample_file) + 4 * Z.to_nat i)
              (elem (a (table (final_world
                                 (Read_file (little_endian_host Double) sample_file)))) i))).
Proof.
  refine (conj _ (conj _
            (loaded_floats_are_exact (little_endian_host Double)
               (only_file "table.bsdf" sample_file) "table.bsdf" indeterminate_table
               sample_file
               (final_world (Read_file (little_endian_host Double) sample_file)) _ _)));
    vm_compute; reflexivity.
Defined.

Example sample_file_as_double :
  eta (table (final_world (Read_file (little_endian_host Double) sample_file)))
  = Some 0x3FF8000000000000
  /\ a (table (final_world (Read_file (little_endian_host Double) sample_file)))
     = Some [Some 0x4000000000000000; Some 0x4008000000000000; Some 0x4010000000000000].
Proof. split; vm_compute; reflexivity. Qed.

(** A NaN stored in the file stays a NaN in both builds: [eta] and the
    elements of [mu], [cdf] and [a] whose word of the file is a NaN are
    NaNs in the loaded table. *)
Theorem loaded_nans_stay_nans (cfg : Config) (fs : filesystem) (name : string)
    (t0 : FourierBSDFTable) (content : list byte) (w : world) :
  fs (c_str name) = Some content ->
  Read cfg fs name t0 = Returns true w ->
  (is_nan IEEE.binary32 (float_bits (int_at content 44)) ->
   exists v, eta (table w) = Some v /\ is_nan (Float_format (Float cfg)) v)
  /\ (forall i, 0 <= i < header_nMu content ->
        is_nan IEEE.binary32 (float_bits (int_at content (off_mu + 4 * Z.to_nat i))) ->
        exists v, elem (mu (table w)) i = Some v /\ is_nan (Float_format (Float cfg)) v)
  /\ (forall i, 0 <= i < header_nMu content * header_nMu content ->
        is_nan IEEE.binary32
          (float_bits (int_at content (off_cdf (header_nMu content) + 4 * Z.to_nat i))) ->
        exists v, elem (cdf (table w)) i = Some v /\ is_nan (Float_format (Float cfg)) v)
  /\ (forall i, 0 <= i < header_nCoeffs content ->
        is_nan IEEE.binary32
          (float_bits (int_at content (off_a (header_nMu content) + 4 * Z.to_nat i))) ->
        exists v, elem (a (table w)) i = Some v /\ is_nan (Float_format (Float cfg)) v).
Proof.
  intros Hfs Hrun. apply Read_true_inv in Hrun.
  destruct Hrun as (c & Hc & _ & _ & _ & _ & Hl).
  assert (c = content) by congruence. subst c.
  pose proof (ld_nMu_pos _ _ _ Hl) as Hn.
  pose proof (ld_nCoeffs_pos _ _ _ Hl) as HnC.
  assert (Hcell : forall off, is_nan IEEE.binary32 (float_bits (int_at content off)) ->
            exists v, Some (Float_at (Float cfg) content off) = Some v
                      /\ is_nan (Float_format (Float cfg)) v).
  { intros off Hnan. eexists. split; [reflexivity|].
    apply Float_of_word_nan. exact Hnan. }
  split; [intros Hnan; rewrite (ld_eta _ _ _ Hl); apply Hcell; exact Hnan|].
  split; [|split]; intros i Hi Hnan.
  - rewrite (ld_mu _ _ _ Hl), elem_Float_cells by lia. apply Hcell. exact Hnan.
  - rewrite (ld_cdf _ _ _ Hl), elem_Float_cells by nia. apply Hcell. exact Hnan.
  - rewrite (ld_a _ _ _ Hl), elem_Float_cells by lia. apply Hcell. exact Hnan.
Qed.

Lemma loaded_nans_stay_nans_witness :
  only_file "table.bsdf" nan_file (c_str "table.bsdf") = Some nan_file
  /\ Read (little_endian_host Double) (only_file "table.bsdf" nan_file) "table.bsdf"
       indeterminate_table
     = Returns true (final_world (Read_file (little_endian_host Double) nan_file))
  /\ ((is_nan IEEE.binary32 (float_bits (int_at nan_file 44)) ->
       exists v,
         eta (table (final_world (Read_file (little_endian_host Double) nan_file)))
         = Some v
         /\ is_nan (Float_format (Float (little_endian_host Double))) v)
      /\ (forall i, 0 <= i < header_nMu nan_file ->
            is_nan IEEE.binary32 (float_bits (int_at nan_file (off_mu + 4 * Z.to_nat i))) ->
            exists v,
              elem (mu (table (final_world
                                 (Read_file (little_endian_host Double) nan_file)))) i
              = Some v
              /\ is_nan (Float_format (Float (little_endian_host Double))) v)
      /\ (forall i, 0 <= i < header_nMu nan_file * header_nMu nan_file ->
            is_nan IEEE.binary32
              (float_bits (int_at nan_file (off_cdf (header_nMu nan_file) + 4 * Z.to_nat i))) ->
            exists v,
              elem (cdf (table (final_world
                                  (Read_file (little_endian_host Double) nan_file)))) i
              = Some v
              /\ is_nan (Float_format (Float (little_endian_host Double))) v)
      /\ (forall i, 0 <= i < header_nCoeffs nan_file ->
            is_nan IEEE.binary32
              (float_bits (int_at nan_file (off_a (header_nMu nan_file) + 4 * Z.to_nat i))) ->
            exists v,
              elem (a (table (final_world
                                (Read_file (little_endian_host Double) nan_file)))) i
              = Some v
              /\ is_nan (Float_format (Float (little_endian_host Double))) v)).
Proof.
  refine (conj _ (conj _
            (loaded_nans_stay_nans (little_endian_host Double)
               (only_file "table.bsdf" nan_file) "table.bsdf" indeterminate_table
               nan_file
               (final_world (Read_file (little_endian_host Double) nan_file)) _ _)));
    vm_compute; reflexivity.
Defined.

Example nan_file_as_double :
  a (table (final_world (Read_file (little_endian_host Double) nan_file)))
  = Some [Some 0x7FF8000000000000; Some 0xFFF8000020000000; Some 0x7FF8000020000000]
  /\ a (table (final_world (Read_file (little_endian_host Single) nan_file)))
     = Some [Some 0x7FC00000; Some 0xFFC00001; Some 0x7F800001].
Proof. split; vm_compute; reflexivity. Qed.
